(** * Schema-aligned parsing: the type coercer, the extractor and the
    orchestrator

    A shallow embedding of the type coercer ([coerceValue] and the
    functions under it), of the JSON extractor ([extractJson] and its
    strategies) and of the entry points of the orchestrator
    ([parseResponse], [parsePartialResponse], [parseAllCandidates],
    [parseBestCandidate], [isValidResponse], [debugParse]), with the
    properties the specification states about them and further
    properties of the code.

    Conventions of the embedding.

    - A JavaScript number is an IEEE 754 binary64 value: Rocq's primitive
      [float], with the primitive comparisons for [<], [>], [<=], [>=]
      and [===]. [parseInt], [parseFloat], [Math.trunc],
      [Number.isInteger] and [%] are defined on it from their ECMA-262
      descriptions.
    - A JavaScript string is a sequence of code units; the model carries
      the code units below 256 in [ascii].
    - A dynamic value is undefined, null, a boolean, a number, a string,
      an array or an object: the values [JSON.parse] returns, and
      undefined. An object is the list of its own properties in property
      order. The names it inherits are given by the host
      ([Object_prototype_has], [Array_prototype_has]) and count for the
      [in] operator. The inherited members themselves (functions, and
      the accessor [__proto__]) are not values of the model: a read
      [valueObj[key]] is modelled for a key the object has or does not
      inherit, and an assignment [result[key] = v] for a key other than
      [__proto__]. The statements that depend on such a read or
      assignment say so ([plain], [plain_properties]).
    - A schema is one of the TypeBox kinds the coercer dispatches on
      (Object, Array, Union, Intersect, Optional, Literal, Enum, String,
      Number, Integer, Boolean, Null, Any, Unknown, Record, Tuple, Ref);
      the fallback of the dispatch for other kinds is outside the model.
    - The callbacks [addCoercion] and [addError] return nothing and never
      influence control flow, so a coercion function is modelled by the
      value it returns together with the calls it makes, in order
      (a writer monad, [W]). No coercion of the model throws: patterns
      are taken to be regular expressions that compile, and [String] to
      be defined on the values it is applied to ([String_defined]; it
      throws on an object whose own [toString] is not a function). The
      entry points that catch what a parse throws take which parses
      throw as a parameter ([parse_throws]).
    - Engine and library services that are not part of the repository
      ([RegExp], [JSON.parse], [JSON.stringify], number printing,
      TypeBox's [Type.Object]) are the fields of a [Host]; every
      definition and theorem is parametric in it. The extractor, which is
      built on [RegExp] and [JSON.parse], is a parameter of the
      orchestrator. The extractor itself takes what its regular
      expressions match and replace from a [RegExps] record, and is
      parametric in it; [String.prototype.trim] and the one-character
      counts are defined on the code units.
    - [maxDepth] is an integer for the extractor and the orchestrator.
      The coercer is parametric in the type of [maxDepth] ([Limit]): an
      integer, or a natural number, the number of nesting levels. The
      options of a statement that does not give their type are
      [CoercionOptions], with a natural number. *)

From Stdlib Require Import ZArith List String Ascii Bool Floats Lia.
Import ListNotations.

Local Open Scope list_scope.
Local Open Scope string_scope.

Set Implicit Arguments.
Set Warnings "-register-all".

(** ** Strings *)

Module Str.

Definition code (c : ascii) : N := N_of_ascii c.

Definition is_digit (c : ascii) : bool :=
  (48 <=? code c)%N && (code c <=? 57)%N.

Definition digit_value (c : ascii) : Z := Z.of_N (code c) - 48.

(** [StrWhiteSpaceChar] of ECMA-262 restricted to code units below 256:
    TAB, LF, VT, FF, CR, SP and NBSP. *)
Definition is_space (c : ascii) : bool :=
  let n := code c in
  ((9 <=? n)%N && (n <=? 13)%N) || (n =? 32)%N || (n =? 160)%N.

(** [String.prototype.toLowerCase] on code units below 256. *)
Definition lower_char (c : ascii) : ascii :=
  let n := code c in
  if ((65 <=? n)%N && (n <=? 90)%N)
     || ((192 <=? n)%N && (n <=? 222)%N && negb (n =? 215)%N)
  then ascii_of_N (n + 32) else c.

Fixpoint toLowerCase (s : string) : string :=
  match s with
  | EmptyString => EmptyString
  | String c r => String (lower_char c) (toLowerCase r)
  end.

Fixpoint skip_spaces (s : string) : string :=
  match s with
  | String c r => if is_space c then skip_spaces r else s
  | EmptyString => EmptyString
  end.

(** The digits at the front of [s], as the number they denote, and what
    follows them; [None] when [s] does not start with a digit. *)
Fixpoint digits_from (acc : Z) (seen : bool) (s : string) : option (Z * nat * string) :=
  match s with
  | String c r =>
      if is_digit c then
        match digits_from (10 * acc + digit_value c) true r with
        | Some (z, n, rest) => Some (z, S n, rest)
        | None => None
        end
      else if seen then Some (acc, 0, s) else None
  | EmptyString => if seen then Some (acc, 0, s) else None
  end.

Definition digits (s : string) : option (Z * nat * string) := digits_from 0 false s.

(** An optional sign: [true] for a leading minus. *)
Definition sign (s : string) : bool * string :=
  match s with
  | String "-" r => (true, r)
  | String "+" r => (false, r)
  | _ => (false, s)
  end.

Definition join (sep : string) (l : list string) : string :=
  match l with
  | [] => ""
  | x :: r => fold_left (fun acc y => acc ++ sep ++ y) r x
  end.

(** Decimal digits of a natural number (array indices and counts). *)
Fixpoint of_pos_fuel (fuel : nat) (n : N) (acc : string) : string :=
  match fuel with
  | O => acc
  | S f =>
      let acc' := String (ascii_of_N (48 + n mod 10)) acc in
      if (n / 10 =? 0)%N then acc' else of_pos_fuel f (n / 10) acc'
  end.

Definition of_nat (n : nat) : string :=
  of_pos_fuel (S n) (N.of_nat n) "".

Definition is_empty (s : string) : bool :=
  match s with EmptyString => true | _ => false end.

End Str.

(** ** Numbers *)

Module Num.

Definition of_Z (z : Z) : float :=
  SF2Prim (binary_normalize prec emax z 0 false).

Definition of_nat (n : nat) : float := of_Z (Z.of_nat n).

(** [x !== y] on numbers. *)
Definition neq (x y : float) : bool := negb (PrimFloat.eqb x y).

(** [Number.isInteger]. *)
Definition isInteger (x : float) : bool :=
  match Prim2SF x with
  | S754_zero _ => true
  | S754_finite _ m e =>
      if (0 <=? e)%Z then true else (Z.pos m mod 2 ^ (- e) =? 0)%Z
  | _ => false
  end.

(** [Math.trunc]. *)
Definition trunc (x : float) : float :=
  match Prim2SF x with
  | S754_finite s m e =>
      if (0 <=? e)%Z then x
      else SF2Prim (binary_normalize prec emax
                      (cond_Zopp s (Z.pos m / 2 ^ (- e))) 0 s)
  | _ => x
  end.

(** [x % y !== 0]: the remainder is NaN (hence not [0]) when [x] is not
    finite or [y] is zero or NaN, it is [x] when [y] is infinite, and
    otherwise it is the exact remainder of the truncated division. *)
Definition rem_is_nonzero (x y : float) : bool :=
  match Prim2SF x, Prim2SF y with
  | S754_nan, _ | _, S754_nan => true
  | S754_infinity _, _ => true
  | _, S754_zero _ => true
  | S754_zero _, _ => false
  | S754_finite _ _ _, S754_infinity _ => true
  | S754_finite _ mx ex, S754_finite _ my ey =>
      let e := Z.min ex ey in
      negb (Z.rem (Z.pos mx * 2 ^ (ex - e)) (Z.pos my * 2 ^ (ey - e)) =? 0)%Z
  end.

(** The double nearest to [(-1)^neg * m * 10^e], ties to even. *)
Definition of_decimal (neg : bool) (m e : Z) : float :=
  if (m <=? 0)%Z then (if neg then neg_zero else zero)
  else if (0 <=? e)%Z then
    SF2Prim (binary_normalize prec emax (cond_Zopp neg (m * 10 ^ e)) 0 neg)
  else
    let d := (10 ^ (- e))%Z in
    let k := Z.max 0 (Z.log2 d - Z.log2 m + 64) in
    let n := (m * 2 ^ k)%Z in
    let q := (n / d)%Z in
    let r := (n mod d)%Z in
    let loc := if (r =? 0)%Z then loc_Exact
               else loc_Inexact (Z.compare (2 * r) d) in
    SF2Prim (binary_round_aux prec emax neg q (- k) loc).

End Num.

(** ** [parseInt(s, 10)] and [parseFloat(s)] *)

(** The integer prefix [parseInt] reads: leading white space, an optional
    sign, then at least one decimal digit. *)
Definition int_prefix (s : string) : option (bool * Z) :=
  let (neg, r) := Str.sign (Str.skip_spaces s) in
  match Str.digits r with
  | Some (z, _, _) => Some (neg, z)
  | None => None
  end.

(** The number a signed integer numeral denotes. *)
Definition int_value (neg : bool) (z : Z) : float :=
  if neg then (- Num.of_Z z)%float else Num.of_Z z.

Definition parseInt (s : string) : float :=
  match int_prefix s with
  | Some (neg, z) => int_value neg z
  | None => nan
  end.

(** A decimal literal: either [Infinity] or mantissa digits scaled by a
    power of ten. *)
Inductive decimal_literal : Type :=
| DInfinity
| DFinite (mantissa exponent : Z).

Definition starts_with (p s : string) : bool :=
  match String.substring 0 (String.length p) s with
  | t => String.eqb t p
  end.

(** The exponent part [e[+-]digits]; it is read only when complete. *)
Definition exponent_part (s : string) : Z :=
  match s with
  | String c r =>
      if (Ascii.eqb c "e" || Ascii.eqb c "E")%bool then
        let (neg, r') := Str.sign r in
        match Str.digits r' with
        | Some (z, _, _) => if neg then (- z)%Z else z
        | None => 0%Z
        end
      else 0%Z
  | EmptyString => 0%Z
  end.

(** The longest prefix of [s] that is a [StrDecimalLiteral] without its
    sign: [digits [. [digits]] [exp]] or [. digits [exp]]. *)
Definition unsigned_decimal_prefix (s : string) : option decimal_literal :=
  if starts_with "Infinity" s then Some DInfinity
  else
    match Str.digits s with
    | Some (ip, _, rest) =>
        match rest with
        | String "." r =>
            match Str.digits_from ip true r with
            | Some (m, n, rest') =>
                Some (DFinite m (exponent_part rest' - Z.of_nat n))
            | None => None
            end
        | _ => Some (DFinite ip (exponent_part rest))
        end
    | None =>
        match s with
        | String "." r =>
            match Str.digits r with
            | Some (m, n, rest') =>
                Some (DFinite m (exponent_part rest' - Z.of_nat n))
            | None => None
            end
        | _ => None
        end
    end.

Definition float_prefix (s : string) : option (bool * decimal_literal) :=
  let (neg, r) := Str.sign (Str.skip_spaces s) in
  match unsigned_decimal_prefix r with
  | Some d => Some (neg, d)
  | None => None
  end.

(** The number a signed decimal literal denotes. *)
Definition decimal_value (neg : bool) (d : decimal_literal) : float :=
  match d with
  | DInfinity => if neg then neg_infinity else infinity
  | DFinite m e => Num.of_decimal neg m e
  end.

Definition parseFloat (s : string) : float :=
  match float_prefix s with
  | Some (neg, d) => decimal_value neg d
  | None => nan
  end.

(** ** Dynamic values *)

Inductive dynamic : Type :=
| VUndefined
| VNull
| VBool (b : bool)
| VNum (n : float)
| VStr (s : string)
| VArr (items : list dynamic)
| VObj (fields : list (string * dynamic)).

Definition typeof (v : dynamic) : string :=
  match v with
  | VUndefined => "undefined"
  | VNull => "object"
  | VBool _ => "boolean"
  | VNum _ => "number"
  | VStr _ => "string"
  | VArr _ | VObj _ => "object"
  end.

Definition is_undefined (v : dynamic) : bool :=
  match v with VUndefined => true | _ => false end.

(** [v === null || v === undefined]. *)
Definition is_nullish (v : dynamic) : bool :=
  match v with VUndefined | VNull => true | _ => false end.

(** [a === b]. Two arrays or two objects are equal only when they are the
    same reference; an input value and a constant held by a schema never
    are. *)
Definition strict_eq (a b : dynamic) : bool :=
  match a, b with
  | VUndefined, VUndefined => true
  | VNull, VNull => true
  | VBool x, VBool y => Bool.eqb x y
  | VNum x, VNum y => PrimFloat.eqb x y
  | VStr x, VStr y => String.eqb x y
  | _, _ => false
  end.

(** The comparison of [Array.prototype.includes] (SameValueZero). *)
Definition same_value_zero (a b : dynamic) : bool :=
  match a, b with
  | VNum x, VNum y => PrimFloat.eqb x y || (PrimFloat.is_nan x && PrimFloat.is_nan y)
  | _, _ => strict_eq a b
  end.

Definition includes (l : list dynamic) (v : dynamic) : bool :=
  existsb (fun x => same_value_zero x v) l.

(** *** Objects as property lists *)

Module Obj.

(** The array index a property name denotes, if any: a canonical
    decimal numeral below [2^32 - 1]. *)
Definition array_index (k : string) : option N :=
  match k with
  | "0" => Some 0%N
  | String c _ =>
      if Str.is_digit c && negb (Ascii.eqb c "0") then
        match Str.digits k with
        | Some (z, _, "") => if (z <? 4294967295)%Z then Some (Z.to_N z) else None
        | _ => None
        end
      else None
  | EmptyString => None
  end.

Section Props.
Variable A : Type.

Fixpoint get (o : list (string * A)) (k : string) : option A :=
  match o with
  | [] => None
  | (k', v) :: r => if String.eqb k' k then Some v else get r k
  end.

(** [k in o] for own properties. *)
Definition has (o : list (string * A)) (k : string) : bool :=
  match get o k with Some _ => true | None => false end.

Fixpoint replace (o : list (string * A)) (k : string) (v : A) : list (string * A) :=
  match o with
  | [] => []
  | (k', v') :: r =>
      if String.eqb k' k then (k', v) :: r else (k', v') :: replace r k v
  end.

(** Where a new integer-indexed property goes: before the first
    property that is not an index or is a larger index. *)
Fixpoint insert_index (o : list (string * A)) (i : N) (k : string) (v : A)
  : list (string * A) :=
  match o with
  | [] => [(k, v)]
  | (k', v') :: r =>
      match array_index k' with
      | Some j => if (j <? i)%N then (k', v') :: insert_index r i k v
                  else (k, v) :: o
      | None => (k, v) :: o
      end
  end.

(** [o[k] = v] for a key other than [__proto__]: an existing property
    keeps its place; a new one is ordered as [OrdinaryOwnPropertyKeys]
    orders it, integer indices first in ascending order, then names in
    creation order. (An assignment to [__proto__] calls the inherited
    setter and creates no property.) *)
Definition set (o : list (string * A)) (k : string) (v : A) : list (string * A) :=
  if has o k then replace o k v
  else match array_index k with
       | Some i => insert_index o i k v
       | None => (o ++ [(k, v)])%list
       end.
End Props.

(** The object [forEach] builds from an array: one property per index. *)
Fixpoint of_array_from (A : Type) (i : nat) (items : list A) : list (string * A) :=
  match items with
  | [] => []
  | x :: r => (Str.of_nat i, x) :: of_array_from (S i) r
  end.

Definition of_array (A : Type) (items : list A) : list (string * A) :=
  of_array_from 0 items.

End Obj.

(** [valueObj[key]] for a key the object has or does not inherit: the
    property's value, [undefined] when absent. (Under a name of
    [Object.prototype] that the object lacks, the code reads the
    inherited member.) *)
Definition prop (o : list (string * dynamic)) (k : string) : dynamic :=
  match Obj.get o k with Some v => v | None => VUndefined end.

(** ** Schemas *)

Record numeric_constraints : Type := {
  minimum : option float;
  maximum : option float;
  exclusiveMinimum : option float;
  exclusiveMaximum : option float;
  multipleOf : option float
}.

Definition no_constraints : numeric_constraints :=
  {| minimum := None; maximum := None; exclusiveMinimum := None;
     exclusiveMaximum := None; multipleOf := None |}.

(** The content of [additionalProperties] and [additionalItems]: absent,
    a boolean, or a schema. *)
Inductive additional (S : Type) : Type :=
| AddlAbsent
| AddlBool (b : bool)
| AddlSchema (s : S).

Arguments AddlAbsent {S}.
Arguments AddlBool {S} b.
Arguments AddlSchema {S} s.

Definition additional_map (S T : Type) (f : S -> T) (a : additional S) : additional T :=
  match a with
  | AddlAbsent => AddlAbsent
  | AddlBool b => AddlBool b
  | AddlSchema s => AddlSchema (f s)
  end.

(** A schema node: its [default] (absent: [None]) and its kind with the
    kind's payload. *)
Inductive schema : Type :=
| Schema (default : option dynamic) (k : kind)
with kind : Type :=
| KObject (properties : list (string * schema)) (required : list string)
          (additionalProperties : additional schema)
| KArray (items : schema)
| KUnion (anyOf : list schema)
| KIntersect (allOf : list schema)
| KOptional (item : schema)
| KLiteral (const : dynamic)
| KEnum (enum : list dynamic)
| KString (minLength maxLength : option float) (pattern format : option string)
| KNumber (c : numeric_constraints)
| KInteger (c : numeric_constraints)
| KBoolean
| KNull
| KAny
| KUnknown
| KRecord (patternProperties : list (string * schema))
          (additionalProperties : additional schema)
| KTuple (items : list schema) (additionalItems : additional schema)
| KRef (ref : string).

Definition kind_of (s : schema) : kind :=
  match s with Schema _ k => k end.

(** [schema.default], [undefined] when the node has none. *)
Definition default_of (s : schema) : dynamic :=
  match s with
  | Schema (Some v) _ => v
  | Schema None _ => VUndefined
  end.

(** [schema[Kind]]. *)
Definition Kind (s : schema) : string :=
  match kind_of s with
  | KObject _ _ _ => "Object"
  | KArray _ => "Array"
  | KUnion _ => "Union"
  | KIntersect _ => "Intersect"
  | KOptional _ => "Optional"
  | KLiteral _ => "Literal"
  | KEnum _ => "Enum"
  | KString _ _ _ _ => "String"
  | KNumber _ => "Number"
  | KInteger _ => "Integer"
  | KBoolean => "Boolean"
  | KNull => "Null"
  | KAny => "Any"
  | KUnknown => "Unknown"
  | KRecord _ _ => "Record"
  | KTuple _ _ => "Tuple"
  | KRef _ => "Ref"
  end.

(** The TypeBox constructors the examples use. *)
Module Type_.
Definition Object (properties : list (string * schema)) (required : list string) : schema :=
  Schema None (KObject properties required AddlAbsent).
Definition Array (items : schema) : schema := Schema None (KArray items).
Definition Union (anyOf : list schema) : schema := Schema None (KUnion anyOf).
Definition String : schema := Schema None (KString None None None None).
Definition StringWith (minLength maxLength : option float) (pattern format : option string) : schema :=
  Schema None (KString minLength maxLength pattern format).
Definition Number (c : numeric_constraints) : schema := Schema None (KNumber c).
Definition Integer (c : numeric_constraints) : schema := Schema None (KInteger c).
Definition Boolean : schema := Schema None KBoolean.
Definition Null : schema := Schema None KNull.
Definition Any : schema := Schema None KAny.
End Type_.

(** ** Options *)

(** What [maxDepth] is compared with: the depth of a call, which counts
    the levels from 0. The code compares [depth > maxDepth] on numbers.
    The model has two types of limits: the integers, which cover a
    negative [maxDepth], and the natural numbers, for the statements
    about a [maxDepth] that is a number of levels. *)
Class Limit (L : Type) : Type := {
  (** [depth > limit] *)
  exceeds : nat -> L -> bool;
  (** the number [n] as a limit *)
  levels : nat -> L
}.

#[global] Instance Limit_Z : Limit Z | 10 :=
  {| exceeds := fun depth m => (m <? Z.of_nat depth)%Z;
     levels := Z.of_nat |}.

#[global] Instance Limit_nat : Limit nat | 0 :=
  {| exceeds := fun depth m => (m <? depth)%nat;
     levels := fun n => n |}.

(** The options of the coercer: every field is optional; [None] is an
    absent property. [L] is the type of [maxDepth]. *)
Record CoercionOptionsOf (L : Type) : Type := {
  allowPartials : option bool;
  useDefaults : option bool;
  strict : option bool;
  maxDepth : option L;
  trackCoercions : option bool
}.

(** [CoercionOptions] with a [maxDepth] that is a number of levels. *)
Definition CoercionOptions : Type := CoercionOptionsOf nat.

Definition defaultOptions {L : Type} {limit : Limit L} : CoercionOptionsOf L :=
  {| allowPartials := Some false;
     useDefaults := Some true;
     strict := Some false;
     maxDepth := Some (levels 50);
     trackCoercions := Some false |}.

Definition noOptions : CoercionOptions :=
  {| allowPartials := None; useDefaults := None; strict := None;
     maxDepth := None; trackCoercions := None |}.

(** One property of [{ ...d, ...o }]. *)
Definition override (A : Type) (d o : option A) : option A :=
  match o with
  | Some _ => o
  | None => d
  end.

(** [{ ...d, ...o }]. *)
Definition spread (L : Type) (d o : CoercionOptionsOf L) : CoercionOptionsOf L :=
  {| allowPartials := override (allowPartials d) (allowPartials o);
     useDefaults := override (useDefaults d) (useDefaults o);
     strict := override (strict d) (strict o);
     maxDepth := override (maxDepth d) (maxDepth o);
     trackCoercions := override (trackCoercions d) (trackCoercions o) |}.

(** A boolean option in a condition. *)
Definition truthy (b : option bool) : bool :=
  match b with
  | Some true => true
  | _ => false
  end.

(** [depth > options.maxDepth]; comparing with [undefined] is false. *)
Definition depth_exceeded {L : Type} {limit : Limit L} (depth : nat) (maxDepth : option L)
  : bool :=
  match maxDepth with
  | Some m => exceeds depth m
  | None => false
  end.

(** ** The host *)

Record Host : Type := {
  (** [new RegExp(pattern).test(s)], for a pattern that compiles *)
  RegExp_test : string -> string -> bool;
  (** [JSON.parse(s)]; [None] when it throws *)
  JSON_parse : string -> option dynamic;
  (** [JSON.stringify(v)] *)
  JSON_stringify : dynamic -> string;
  (** [String(n)] for a number [n] *)
  Number_toString : float -> string;
  (** the [required] list TypeBox's [Type.Object] computes for the
      given properties *)
  Type_Object_required : list (string * schema) -> list string;
  (** whether [Object.prototype] has a property of this name: the names
      every object inherits ([constructor], [toString], [__proto__], ...) *)
  Object_prototype_has : string -> bool;
  (** whether [Array.prototype] has a property of this name *)
  Array_prototype_has : string -> bool
}.

(** ** Results and the calls a coercion makes *)

Record CoercionError : Type := {
  path : string;
  message : string;
  expected : option string;
  received : option string
}.

Record CoercionResult : Type := {
  value_of : dynamic;
  success : bool;
  errors : list CoercionError;
  coercions : option (list string);
  isPartial : bool
}.

(** The arguments of one call [addError(msg, exp, rec)]. *)
Record error_call : Type := {
  err_message : string;
  err_expected : option string;
  err_received : option string
}.

(** The calls made on the two callbacks, each list in call order. *)
Record calls : Type := {
  notes : list string;
  errs : list error_call
}.

Definition no_calls : calls := {| notes := []; errs := [] |}.

Definition calls_app (a b : calls) : calls :=
  {| notes := (notes a ++ notes b)%list; errs := (errs a ++ errs b)%list |}.

Definition W (A : Type) : Type := (A * calls)%type.

Definition ret (A : Type) (a : A) : W A := (a, no_calls).

Definition bind (A B : Type) (m : W A) (f : A -> W B) : W B :=
  let (a, c1) := m in
  let (b, c2) := f a in
  (b, calls_app c1 c2).

Definition addCoercion (msg : string) : W unit :=
  (tt, {| notes := [msg]; errs := [] |}).

Definition addError (msg : string) (exp rec : option string) : W unit :=
  (tt, {| notes := []; errs := [ {| err_message := msg; err_expected := exp; err_received := rec |} ] |}).

Declare Scope W_scope.
Delimit Scope W_scope with W.
Notation "x <- m ;; k" := (bind m (fun x => k))
  (at level 61, m at next level, right associativity) : W_scope.
Notation "m ;; k" := (bind m (fun _ => k))
  (at level 61, right associativity) : W_scope.
Local Open Scope W_scope.

(** A coercion of a value at a depth and a path. *)
Definition coercer : Type := nat -> string -> dynamic -> W dynamic.

(** ** Coercion of scalars *)

Section Scalars.

Variable h : Host.

(** [String(v)], where it returns: on an object whose own [toString] is
    not a function, as in an object read from JSON that has a property
    of this name, and on an array with such an element, it throws. *)
Fixpoint ToString (v : dynamic) : string :=
  match v with
  | VUndefined => "undefined"
  | VNull => "null"
  | VBool true => "true"
  | VBool false => "false"
  | VNum n => Number_toString h n
  | VStr s => s
  | VArr items =>
      Str.join "," (map (fun x => if is_nullish x then "" else ToString x) items)
  | VObj _ => "[object Object]"
  end.

Definition coerceLiteral (value : dynamic) (const : dynamic) : W dynamic :=
  let expected := const in
  if strict_eq value expected then ret value
  else if String.eqb (ToString value) (ToString expected) then ret expected
  else
    addError ("Expected literal " ++ JSON_stringify h expected)
             (Some (JSON_stringify h expected)) (Some (ToString value));;
    ret value.

(** [allowed.find(v => typeof v === "string" &&
    v.toLowerCase() === value.toLowerCase())]. *)
Definition find_ignoring_case (allowed : list dynamic) (s : string) : option dynamic :=
  find (fun v => match v with
                 | VStr t => String.eqb (Str.toLowerCase t) (Str.toLowerCase s)
                 | _ => false
                 end) allowed.

Definition enum_error (value : dynamic) (allowed : list dynamic) : W dynamic :=
  addError ("Expected one of " ++ Str.join ", " (map (JSON_stringify h) allowed))
           (Some "enum") (Some (ToString value));;
  ret value.

Definition coerceEnum (value : dynamic) (enum : list dynamic) (path : string)
  : W dynamic :=
  let allowed := enum in
  if includes allowed value then ret value
  else
    match value with
    | VStr s =>
        match find_ignoring_case allowed s with
        | Some found =>
            addCoercion ("case-insensitive enum match at " ++ path ++ ": "
                         ++ s ++ " -> " ++ ToString found);;
            ret found
        | None => enum_error value allowed
        end
    | _ => enum_error value allowed
    end.

(** A condition that adds an error when it holds. *)
Definition check (violated : bool) (msg : string) (exp rec : option string) : W unit :=
  if violated then addError msg exp rec else ret tt.

(** [schema.pattern && !new RegExp(schema.pattern).test(value)]. *)
Definition pattern_violated (pattern : option string) (s : string) : bool :=
  match pattern with
  | Some p => negb (Str.is_empty p) && negb (RegExp_test h p s)
  | None => false
  end.

Definition coerceString (value : dynamic) (minLength maxLength : option float)
  (pattern : option string) (path : string) : W dynamic :=
  match value with
  | VStr s =>
      let len := Num.of_nat (String.length s) in
      match minLength with
      | Some m =>
          check (PrimFloat.ltb len m)
            ("String too short (min " ++ Number_toString h m ++ ")")
            (Some ("minLength " ++ Number_toString h m))
            (Some (Number_toString h len))
      | None => ret tt
      end;;
      match maxLength with
      | Some m =>
          check (PrimFloat.ltb m len)
            ("String too long (max " ++ Number_toString h m ++ ")")
            (Some ("maxLength " ++ Number_toString h m))
            (Some (Number_toString h len))
      | None => ret tt
      end;;
      match pattern with
      | Some p =>
          check (pattern_violated pattern s)
            ("String does not match pattern /" ++ p ++ "/")
            (Some ("pattern " ++ p)) (Some s)
      | None => ret tt
      end;;
      ret value
  | _ =>
      addCoercion ("coerced " ++ typeof value ++ " to string at " ++ path);;
      match value with
      | VNum _ | VBool _ => ret (VStr (ToString value))
      | VNull => ret (VStr "null")
      | VArr _ | VObj _ => ret (VStr (JSON_stringify h value))
      | _ => ret (VStr (ToString value))
      end
  end.

Definition validateNumber (num : float) (c : numeric_constraints) : W float :=
  let received := Some (Number_toString h num) in
  match minimum c with
  | Some m =>
      check (PrimFloat.ltb num m)
        ("Number below minimum (" ++ Number_toString h m ++ ")")
        (Some (">= " ++ Number_toString h m)) received
  | None => ret tt
  end;;
  match maximum c with
  | Some m =>
      check (PrimFloat.ltb m num)
        ("Number above maximum (" ++ Number_toString h m ++ ")")
        (Some ("<= " ++ Number_toString h m)) received
  | None => ret tt
  end;;
  match exclusiveMinimum c with
  | Some m =>
      check (PrimFloat.leb num m)
        ("Number not above exclusive minimum (" ++ Number_toString h m ++ ")")
        (Some ("> " ++ Number_toString h m)) received
  | None => ret tt
  end;;
  match exclusiveMaximum c with
  | Some m =>
      check (PrimFloat.leb m num)
        ("Number not below exclusive maximum (" ++ Number_toString h m ++ ")")
        (Some ("< " ++ Number_toString h m)) received
  | None => ret tt
  end;;
  match multipleOf c with
  | Some m =>
      check (Num.rem_is_nonzero num m)
        ("Number not multiple of " ++ Number_toString h m)
        (Some ("multiple of " ++ Number_toString h m)) received
  | None => ret tt
  end;;
  ret num.

Definition cannot_coerce_number (isInt : bool) (value : dynamic) : W dynamic :=
  let name := if isInt then "integer" else "number" in
  addError ("Cannot coerce to " ++ name) (Some name) (Some (ToString value));;
  ret value.

Definition coerceNumber (value : dynamic) (isInt : bool) (c : numeric_constraints)
  (path : string) : W dynamic :=
  match value with
  | VNum n =>
      num <- (if isInt && negb (Num.isInteger n)
              then addCoercion ("truncated float to integer at " ++ path);;
                   ret (Num.trunc n)
              else ret n);;
      r <- validateNumber num c;;
      ret (VNum r)
  | VStr s =>
      let parsed := if isInt then parseInt s else parseFloat s in
      if negb (PrimFloat.is_nan parsed) then
        addCoercion ("parsed string to number at " ++ path);;
        r <- validateNumber parsed c;;
        ret (VNum r)
      else cannot_coerce_number isInt value
  | VBool b =>
      addCoercion ("converted boolean to number at " ++ path);;
      r <- validateNumber (if b then 1%float else 0%float) c;;
      ret (VNum r)
  | _ => cannot_coerce_number isInt value
  end.

Definition cannot_coerce_boolean (value : dynamic) : W dynamic :=
  addError "Cannot coerce to boolean" (Some "boolean") (Some (ToString value));;
  ret value.

Definition coerceBoolean (value : dynamic) : W dynamic :=
  match value with
  | VBool _ => ret value
  | VStr s =>
      let lower := Str.toLowerCase s in
      if String.eqb lower "true" || String.eqb lower "1" || String.eqb lower "yes"
      then ret (VBool true)
      else if String.eqb lower "false" || String.eqb lower "0"
              || String.eqb lower "no" || String.eqb lower ""
      then ret (VBool false)
      else cannot_coerce_boolean value
  | VNum n => ret (VBool (Num.neq n 0%float))
  | _ => cannot_coerce_boolean value
  end.

Definition coerceNull (L : Type) (value : dynamic) (options : CoercionOptionsOf L)
  (path : string)
  : W dynamic :=
  if is_nullish value then ret VNull
  else if truthy (allowPartials options) then ret VNull
  else
    addCoercion ("coerced " ++ typeof value ++ " to null at " ++ path);;
    ret VNull.

End Scalars.

(** ** Schema predicates *)

(** [s[Kind] === "Null" || s.type === "null"]: TypeBox gives the type
    ["null"] to the Null kind only. *)
Definition is_null_schema (s : schema) : bool :=
  match kind_of s with
  | KNull => true
  | _ => false
  end.

Definition isNullable (s : schema) : bool :=
  match kind_of s with
  | KUnion anyOf => existsb is_null_schema anyOf
  | _ => false
  end.

Definition isOptionalProperty (s : schema) : bool :=
  match kind_of s with
  | KOptional _ => true
  | KUnion anyOf => existsb is_null_schema anyOf
  | _ => false
  end.

(** The cheap pre-filter of the union search. *)
Fixpoint canHandleValue (value : dynamic) (s : schema) {struct s} : bool :=
  match s with
  | Schema _ k =>
      match k with
      | KAny | KUnknown => true
      | _ =>
          if is_nullish value then
            match k with
            | KNull | KOptional _ => true
            | _ => isNullable s
            end
          else
            match k with
            | KString _ _ _ _ => match value with VStr _ => true | _ => false end
            | KNumber _ => match value with VNum _ => true | _ => false end
            | KInteger _ => match value with VNum n => Num.isInteger n | _ => false end
            | KBoolean => match value with VBool _ => true | _ => false end
            | KObject _ _ _ => match value with VObj _ => true | _ => false end
            | KArray _ => match value with VArr _ => true | _ => false end
            | KLiteral const => strict_eq value const
            | KEnum enum => includes enum value
            | KUnion anyOf => existsb (fun a => canHandleValue value a) anyOf
            | _ => true
            end
      end
  end.

(** [key in value] for a value whose [typeof] is ["object"]: the value
    has the property itself, or inherits it from its prototype (an object
    from [Object.prototype], an array from [Array.prototype] and
    [Object.prototype]). *)
Definition has_property (h : Host) (v : dynamic) (k : string) : bool :=
  match v with
  | VObj o => Obj.has o k || Object_prototype_has h k
  | VArr items =>
      String.eqb k "length"
      || match Obj.array_index k with
         | Some i => (i <? N.of_nat (List.length items))%N
         | None => false
         end
      || Array_prototype_has h k || Object_prototype_has h k
  | _ => false
  end.

(** Some declared property that is required is not [in] the value. *)
Definition missing_required (h : Host) (properties : list (string * schema))
  (required : list string) (value : dynamic) : bool :=
  existsb (fun key => existsb (String.eqb key) required && negb (has_property h value key))
          (map fst properties).

Definition isComplete (h : Host) (value : dynamic) (s : schema) : bool :=
  match kind_of s with
  | KObject properties required _ =>
      if negb (String.eqb (typeof value) "object") || is_nullish value then false
      else if missing_required h properties required value then false
      else negb (is_nullish value)
  | KArray _ =>
      match value with
      | VArr items => (0 <? List.length items)%nat
      | _ => false
      end
  | _ => negb (is_nullish value)
  end.

(** ** The coercer *)

Section Coercer.

Variable h : Host.
Context {L : Type} {limit : Limit L}.
Variable options : CoercionOptionsOf L.

(** A property together with the coercion against its schema. *)
Definition bound_property : Type := (string * (schema * coercer))%type.

Definition field_path (path key : string) : string :=
  if Str.is_empty path then key else path ++ "." ++ key.

Definition index_path (path : string) (i : nat) : string :=
  path ++ "[" ++ Str.of_nat i ++ "]".

Section ObjectBody.

Variable properties : list bound_property.
Variable required : list string.
Variable additionalProps : additional coercer.
Variable path : string.
Variable depth : nat.
Variable valueObj : list (string * dynamic).

(** The loop over the declared properties. *)
Fixpoint declared_fields (props : list bound_property) (result : list (string * dynamic))
  : W (list (string * dynamic)) :=
  match props with
  | [] => ret result
  | (key, (propSchema, coerce)) :: rest =>
      let fieldPath := field_path path key in
      let fieldValue := prop valueObj key in
      let isRequired := existsb (String.eqb key) required in
      result' <-
        (if is_undefined fieldValue then
           if truthy (useDefaults options) && negb (is_undefined (default_of propSchema)) then
             addCoercion ("used default for " ++ fieldPath);;
             ret (Obj.set result key (default_of propSchema))
           else if negb isRequired || isOptionalProperty propSchema then
             ret result
           else if truthy (allowPartials options) then
             ret (Obj.set result key VUndefined)
           else
             addError ("Missing required field: " ++ key) None (Some "undefined");;
             ret (Obj.set result key VUndefined)
         else
           v <- coerce (S depth) fieldPath fieldValue;;
           ret (Obj.set result key v));;
      declared_fields rest result'
  end.

(** [key in properties]: the schema declares the property, or the name
    is one every object inherits. *)
Definition in_properties (key : string) : bool :=
  Obj.has properties key || Object_prototype_has h key.

(** The loop over the properties of the value that are not declared. *)
Fixpoint additional_fields (entries : list (string * dynamic)) (result : list (string * dynamic))
  : W (list (string * dynamic)) :=
  match entries with
  | [] => ret result
  | (key, fieldValue) :: rest =>
      result' <-
        (if negb (in_properties key) then
           match additionalProps with
           | AddlAbsent | AddlBool true => ret (Obj.set result key fieldValue)
           | AddlSchema coerce =>
               v <- coerce (S depth) (field_path path key) fieldValue;;
               ret (Obj.set result key v)
           | AddlBool false => ret result
           end
         else ret result);;
      additional_fields rest result'
  end.

Definition object_body : W dynamic :=
  declared <- declared_fields properties [];;
  result <- additional_fields valueObj declared;;
  ret (VObj result).

End ObjectBody.

Definition expected_object (value : dynamic) : W dynamic :=
  addError ("Expected object, got " ++ typeof value) (Some "object") (Some (typeof value));;
  ret value.

(** [coerceObject]: an array is turned into an object keyed by its
    indices and a string is parsed, then the object is walked. The source
    re-enters itself for these two cases; the re-entries are unfolded
    here (a parsed string can yield an array, which is then converted). *)
Definition coerceObject (value : dynamic) (properties : list bound_property)
  (required : list string) (additionalProps : additional coercer)
  (path : string) (depth : nat) : W dynamic :=
  let body := object_body properties required additionalProps path depth in
  let from_array items :=
    addCoercion ("converted array to object with index keys at " ++ path);;
    body (Obj.of_array items) in
  match value with
  | VObj o => body o
  | VArr items => from_array items
  | VStr s =>
      match JSON_parse h s with
      | Some (VObj o) =>
          addCoercion ("parsed string to object at " ++ path);;
          body o
      | Some (VArr items) =>
          addCoercion ("parsed string to object at " ++ path);;
          from_array items
      | _ => expected_object value
      end
  | _ => expected_object value
  end.

Fixpoint array_items (coerce : coercer) (path : string) (depth : nat)
  (i : nat) (items : list dynamic) : W (list dynamic) :=
  match items with
  | [] => ret []
  | x :: rest =>
      v <- coerce (S depth) (index_path path i) x;;
      vs <- array_items coerce path depth (S i) rest;;
      ret (v :: vs)
  end.

Definition coerceArray (value : dynamic) (items : coercer) (path : string) (depth : nat)
  : W dynamic :=
  match value with
  | VArr elements =>
      result <- array_items items path depth 0 elements;;
      ret (VArr result)
  | _ =>
      addCoercion ("wrapped single value in array at " ++ path);;
      v <- items (S depth) (path ++ "[0]") value;;
      ret (VArr [v])
  end.

(** The best variant so far: its result and the number of its errors
    and of its coercion notes. *)
Record best_result : Type := {
  best_value : dynamic;
  best_errors : nat;
  best_coercions : nat
}.

(** The first loop of [coerceUnion]: [inl] when a variant matched with
    no error (its notes are passed on), [inr] with the best variant
    otherwise. Each variant runs on callbacks of its own. *)
Fixpoint try_variants (value : dynamic) (path : string) (depth : nat)
  (variants : list (schema * coercer)) (bestResult : option best_result)
  : W dynamic + option best_result :=
  match variants with
  | [] => inr bestResult
  | (variant, coerce) :: rest =>
      if canHandleValue value variant then
        let (result, variantCalls) := coerce depth path value in
        let variantErrors := errs variantCalls in
        let variantCoercions := notes variantCalls in
        if (List.length variantErrors =? 0)%nat then
          inl (result, {| notes := variantCoercions; errs := [] |})
        else
          let better :=
            match bestResult with
            | None => true
            | Some b => (List.length variantErrors <? best_errors b)%nat
            end in
          try_variants value path depth rest
            (if better
             then Some {| best_value := result;
                          best_errors := List.length variantErrors;
                          best_coercions := List.length variantCoercions |}
             else bestResult)
      else try_variants value path depth rest bestResult
  end.

(** [coerceUnion]. In the last loop the first variant always returns:
    no coercion of this model throws, so the [catch] of that loop, which
    goes on to the next variant, has no counterpart here. *)
Definition coerceUnion (value : dynamic) (variants : list (schema * coercer))
  (path : string) (depth : nat) : W dynamic :=
  match try_variants value path depth variants None with
  | inl perfect => perfect
  | inr (Some bestResult) =>
      addCoercion ("selected union variant with " ++ Str.of_nat (best_errors bestResult)
                   ++ " errors at " ++ path);;
      ret (best_value bestResult)
  | inr None =>
      match variants with
      | (_, coerce) :: _ =>
          result <- coerce depth path value;;
          addCoercion ("forced union variant at " ++ path);;
          ret result
      | [] =>
          addError "No matching variant in union" None None;;
          ret value
      end
  end.

(** [Object.assign(merged, props)]. *)
Definition assign (A : Type) (merged props : list (string * A)) : list (string * A) :=
  fold_left (fun acc kv => Obj.set acc (fst kv) (snd kv)) props merged.

(** [coerceIntersect]. [allOf] holds, for each sub-schema, the properties
    it brings to the merge (those of an Object sub-schema, none for any
    other kind); [is_empty] is [!allOf || allOf.length === 0]. The merged
    schema is [Type.Object(merged)]: the merged properties, the required
    list TypeBox derives from them, and no [additionalProperties]. *)
Definition coerceIntersect (value : dynamic) (allOf : list (list bound_property))
  (is_empty : bool) (path : string) (depth : nat) : W dynamic :=
  if is_empty then ret value
  else
    let merged := fold_left (@assign _) allOf [] in
    let required :=
      Type_Object_required h (map (fun p => (fst p, fst (snd p))) merged) in
    coerceObject value merged required AddlAbsent path depth.

Definition coerceOptional (value : dynamic) (inner : coercer) (path : string) (depth : nat)
  : W dynamic :=
  if is_nullish value then ret VUndefined
  else inner depth path value.

Fixpoint record_entries (coerce : coercer) (path : string) (depth : nat)
  (entries : list (string * dynamic)) (result : list (string * dynamic))
  : W (list (string * dynamic)) :=
  match entries with
  | [] => ret result
  | (key, val) :: rest =>
      v <- coerce (S depth) (path ++ "[" ++ key ++ "]") val;;
      record_entries coerce path depth rest (Obj.set result key v)
  end.

(** [coerceRecord]; [valueSchema] is the first pattern property, else a
    schema given as [additionalProperties], else [Type.Any()]. *)
Definition coerceRecord (value : dynamic) (valueSchema : coercer) (path : string) (depth : nat)
  : W dynamic :=
  match value with
  | VObj entries =>
      result <- record_entries valueSchema path depth entries [];;
      ret (VObj result)
  | _ =>
      addError ("Expected record object, got " ++ typeof value)
               (Some "record") (Some (typeof value));;
      ret value
  end.

Fixpoint tuple_items (path : string) (depth : nat) (i : nat)
  (items : list (schema * coercer)) (value : list dynamic) : W (list dynamic) :=
  match items with
  | [] => ret []
  | (item, coerce) :: rest =>
      v <- match value with
           | x :: _ => coerce (S depth) (index_path path i) x
           | [] =>
               if negb (is_undefined (default_of item)) then ret (default_of item)
               else
                 addError ("Missing tuple element at index " ++ Str.of_nat i) None None;;
                 ret VUndefined
           end;;
      vs <- tuple_items path depth (S i) rest (tl value);;
      ret (v :: vs)
  end.

Definition coerceTuple (value : dynamic) (items : list (schema * coercer))
  (additionalItems : additional coercer) (path : string) (depth : nat)
  : W dynamic :=
  match value with
  | VArr elements =>
      result <- tuple_items path depth 0 items elements;;
      let extra :=
        match additionalItems with
        | AddlBool false => []
        | _ => skipn (List.length items) elements
        end in
      ret (VArr (result ++ extra)%list)
  | _ =>
      addError ("Expected tuple array, got " ++ typeof value)
               (Some "tuple") (Some (typeof value));;
      ret value
  end.

(** [coerceInternal] against the fresh [Type.Any()] that [coerceRecord]
    makes: the two guards every call starts with, then the value as it
    is (see [coerceAny_is_coerceInternal]). *)
Definition coerceAny : coercer := fun depth path value =>
  if depth_exceeded depth (maxDepth options) then
    addError "Maximum depth exceeded" None None;;
    ret value
  else if is_nullish value then coerceNull value options path
  else ret value.

(** [coerceInternal]. The schema is the structural argument; the
    coercions against the sub-schemas are handed to the per-kind
    functions as [coercer]s. *)
Fixpoint coerceInternal (s : schema) (depth : nat) (path : string) (value : dynamic)
  {struct s} : W dynamic :=
  if depth_exceeded depth (maxDepth options) then
    addError "Maximum depth exceeded" None None;;
    ret value
  else if is_nullish value then coerceNull value options path
  else
    let bind_schema (sub : schema) := (sub, coerceInternal sub) in
    let bind_property (p : string * schema) := (fst p, (snd p, coerceInternal (snd p))) in
    match s with
    | Schema _ k =>
        match k with
        | KRef ref =>
            if negb (Str.is_empty ref) then
              addCoercion ("unresolved reference: " ++ ref);;
              ret value
            else
              addCoercion ("reference coercion: " ++ ref);;
              ret value
        | KObject properties required additionalProperties =>
            coerceObject value (map bind_property properties) required
              (additional_map coerceInternal additionalProperties) path depth
        | KArray items => coerceArray value (coerceInternal items) path depth
        | KUnion anyOf => coerceUnion value (map bind_schema anyOf) path depth
        | KIntersect allOf =>
            coerceIntersect value
              (map (fun sub =>
                      match sub with
                      | Schema _ (KObject props _ _) => map bind_property props
                      | _ => []
                      end) allOf)
              (match allOf with [] => true | _ => false end) path depth
        | KOptional item => coerceOptional value (coerceInternal item) path depth
        | KLiteral const => coerceLiteral h value const
        | KEnum enum => coerceEnum h value enum path
        | KString minLength maxLength pattern _ =>
            coerceString h value minLength maxLength pattern path
        | KNumber c => coerceNumber h value false c path
        | KInteger c => coerceNumber h value true c path
        | KBoolean => coerceBoolean h value
        | KNull => coerceNull value options path
        | KAny | KUnknown => ret value
        | KRecord patternProperties additionalProperties =>
            coerceRecord value
              (match patternProperties, additionalProperties with
               | (_, first) :: _, _ => coerceInternal first
               | [], AddlSchema additional => coerceInternal additional
               | [], _ => coerceAny
               end) path depth
        | KTuple items additionalItems =>
            coerceTuple value (map bind_schema items)
              (additional_map coerceInternal additionalItems) path depth
        end
    end.

End Coercer.

(** The [addError] of [coerceValue]: the error it pushes for a call
    [addError(msg, exp, rec)], with the [path] and the [value] of the
    top-level call. *)
Definition report (h : Host) (path : string) (value : dynamic) (e : error_call)
  : CoercionError :=
  {| path := path;
     message := err_message e;
     expected := err_expected e;
     received := Some match err_received e with
                      | Some r => r
                      | None => ToString h value
                      end |}.

(** [coerceValue]: the options are completed with the defaults, the walk
    starts at depth 0, and the two callbacks of the source are applied to
    the calls of the walk: [addError] stamps every error with the [path]
    and the [value] of this call, [addCoercion] keeps the notes only when
    [trackCoercions] is set. *)
Definition coerceValue (h : Host) {L : Type} {limit : Limit L} (value : dynamic)
  (s : schema) (options : CoercionOptionsOf L) (path : string) : CoercionResult :=
  let opts := spread defaultOptions options in
  let walk := coerceInternal h opts s 0 path value in
  let result := fst walk in
  let errors := map (report h path value) (errs (snd walk)) in
  {| value_of := result;
     success := (List.length errors =? 0)%nat;
     errors := errors;
     coercions := if truthy (trackCoercions opts) then Some (notes (snd walk)) else None;
     isPartial := truthy (allowPartials opts) && negb (isComplete h value s) |}.

(** ** The orchestrator *)

(** [ParseOptions]: the extraction options, the coercion options and the
    two options of the orchestrator, one record of optional properties
    ([maxDepth] is shared by the extractor and the coercer; it is an
    integer here, negative ones included). *)
Record ParseOptions : Type := {
  allowMarkdownJson : option bool;
  allowFixes : option bool;
  allowAsString : option bool;
  findAllJsonObjects : option bool;
  normalizeUnicodeQuotes : option bool;
  p_maxDepth : option Z;
  p_allowPartials : option bool;
  p_useDefaults : option bool;
  p_strict : option bool;
  p_trackCoercions : option bool;
  filterChainOfThought_opt : option bool;
  returnAllCandidates : option bool
}.

Definition defaultParseOptions : ParseOptions :=
  {| allowMarkdownJson := Some true;
     allowFixes := Some true;
     allowAsString := Some true;
     findAllJsonObjects := Some true;
     normalizeUnicodeQuotes := None;
     p_maxDepth := Some 100%Z;
     p_allowPartials := Some false;
     p_useDefaults := Some true;
     p_strict := Some false;
     p_trackCoercions := Some false;
     filterChainOfThought_opt := Some true;
     returnAllCandidates := Some false |}.

(** [{ ...d, ...o }] on parse options. *)
Definition spread_parse (d o : ParseOptions) : ParseOptions :=
  {| allowMarkdownJson := override (allowMarkdownJson d) (allowMarkdownJson o);
     allowFixes := override (allowFixes d) (allowFixes o);
     allowAsString := override (allowAsString d) (allowAsString o);
     findAllJsonObjects := override (findAllJsonObjects d) (findAllJsonObjects o);
     normalizeUnicodeQuotes := override (normalizeUnicodeQuotes d) (normalizeUnicodeQuotes o);
     p_maxDepth := override (p_maxDepth d) (p_maxDepth o);
     p_allowPartials := override (p_allowPartials d) (p_allowPartials o);
     p_useDefaults := override (p_useDefaults d) (p_useDefaults o);
     p_strict := override (p_strict d) (p_strict o);
     p_trackCoercions := override (p_trackCoercions d) (p_trackCoercions o);
     filterChainOfThought_opt :=
       override (filterChainOfThought_opt d) (filterChainOfThought_opt o);
     returnAllCandidates := override (returnAllCandidates d) (returnAllCandidates o) |}.

(** [{ ...o, allowPartials: true, allowAsString: true }]. *)
Definition force_partial (o : ParseOptions) : ParseOptions :=
  {| allowMarkdownJson := allowMarkdownJson o;
     allowFixes := allowFixes o;
     allowAsString := Some true;
     findAllJsonObjects := findAllJsonObjects o;
     normalizeUnicodeQuotes := normalizeUnicodeQuotes o;
     p_maxDepth := p_maxDepth o;
     p_allowPartials := Some true;
     p_useDefaults := p_useDefaults o;
     p_strict := p_strict o;
     p_trackCoercions := p_trackCoercions o;
     filterChainOfThought_opt := filterChainOfThought_opt o;
     returnAllCandidates := returnAllCandidates o |}.

(** The properties of a parse options object that [coerceValue] reads. *)
Definition coercion_options (o : ParseOptions) : CoercionOptionsOf Z :=
  {| allowPartials := p_allowPartials o;
     useDefaults := p_useDefaults o;
     strict := p_strict o;
     maxDepth := p_maxDepth o;
     trackCoercions := p_trackCoercions o |}.

Record ExtractionResult : Type := {
  ex_value : dynamic;
  ex_raw : string;
  fromMarkdown : option bool;
  fixes : option (list string);
  ex_isPartial : option bool
}.

Record ParseMeta : Type := {
  raw : string;
  meta_fromMarkdown : option bool;
  chainOfThoughtFiltered : bool;
  meta_fixes : option (list string);
  meta_coercions : option (list string)
}.

Record ParseResult : Type := {
  p_success : bool;
  p_value : dynamic;
  p_errors : list (string * string);
  p_isPartial : bool;
  meta : ParseMeta
}.

Section Orchestrator.

Variable h : Host.

(** The extractor module, built on the host's [RegExp] and [JSON.parse]:
    [extractJson text options isDone depth] returns a result or throws
    ([inl], with the text the orchestrator reports for what was thrown). *)
Variable extractJson : string -> ParseOptions -> bool -> nat -> string + ExtractionResult.
Variable hasChainOfThought : string -> bool.
Variable filterChainOfThought : string -> string.

Definition parseResponse (response : string) (s : schema) (options : ParseOptions)
  : ParseResult :=
  let opts := spread_parse defaultParseOptions options in
  let filtering := truthy (filterChainOfThought_opt opts) && hasChainOfThought response in
  let text := if filtering then filterChainOfThought response else response in
  let chainOfThoughtFiltered := filtering && negb (String.eqb text response) in
  match extractJson text opts true 0 with
  | inl thrown =>
      {| p_success := false;
         p_value := VUndefined;
         p_errors := [("", "JSON extraction failed: " ++ thrown)];
         p_isPartial := false;
         meta := {| raw := response;
                    meta_fromMarkdown := None;
                    chainOfThoughtFiltered := chainOfThoughtFiltered;
                    meta_fixes := None;
                    meta_coercions := None |} |}
  | inr extraction =>
      let coercion := coerceValue h (ex_value extraction) s (coercion_options opts) "" in
      {| p_success := success coercion;
         p_value := value_of coercion;
         p_errors := map (fun e => (path e, message e)) (errors coercion);
         p_isPartial := isPartial coercion || false;
         meta := {| raw := response;
                    meta_fromMarkdown := fromMarkdown extraction;
                    chainOfThoughtFiltered := chainOfThoughtFiltered;
                    meta_fixes := fixes extraction;
                    meta_coercions := coercions coercion |} |}
  end.

Definition parsePartialResponse (partialResponse : string) (s : schema)
  (options : ParseOptions) : ParseResult :=
  let opts := force_partial (spread_parse defaultParseOptions options) in
  parseResponse partialResponse s opts.

End Orchestrator.

(** ** The extractor *)

(** [String.prototype.trim], on code units below 256. *)
Fixpoint trimEnd (s : string) : string :=
  match s with
  | EmptyString => EmptyString
  | String c r =>
      match trimEnd r with
      | EmptyString => if Str.is_space c then EmptyString else String c EmptyString
      | kept => String c kept
      end
  end.

Definition trim (s : string) : string := trimEnd (Str.skip_spaces s).

(** The last code unit of a string that is not empty. *)
Fixpoint last_char (c : ascii) (s : string) : ascii :=
  match s with
  | EmptyString => c
  | String d r => last_char d r
  end.

(** The number of matches of a one-character pattern:
    [(s.match(/c/g) || []).length]. *)
Fixpoint count_char (c : ascii) (s : string) : nat :=
  match s with
  | EmptyString => 0
  | String d r => (if Ascii.eqb d c then 1 else 0) + count_char c r
  end.

(** [c.repeat(n)]. *)
Fixpoint repeat_char (c : ascii) (n : nat) : string :=
  match n with
  | O => EmptyString
  | S m => String c (repeat_char c m)
  end.

(** [ToBoolean]: what [if (v)] tests. *)
Definition ToBoolean (v : dynamic) : bool :=
  match v with
  | VUndefined | VNull => false
  | VBool b => b
  | VNum n => negb (PrimFloat.eqb n 0%float || PrimFloat.is_nan n)
  | VStr s => negb (Str.is_empty s)
  | VArr _ | VObj _ => true
  end.

(** [[...new Set(l)]]: the first occurrence of every string, in order. *)
Fixpoint unique (seen l : list string) : list string :=
  match l with
  | [] => []
  | x :: r =>
      if existsb (String.eqb x) seen then unique seen r
      else x :: unique (x :: seen) r
  end.

(** The regular expressions of the extractor, as the host's engine
    evaluates them. *)
Record RegExps : Type := {
  (** [normalizeUnicodeQuotes]: the typographic double and single quotes
      replaced by the plain ones *)
  unicode_quotes_replaced : string -> string;
  (** the matches of [codeBlockRegex] of [tryExtractFromMarkdown] in a
      text, in order: the groups 2 and 3 of each *)
  codeBlockRegex : string -> list (string * string);
  (** the matches of [jsonRegex] of [tryExtractMultipleJson] *)
  jsonRegex : string -> list string;
  (** the replacement of [applyJsonFixes] that removes the commas before
      a closing brace or bracket *)
  trailing_commas_removed : string -> string;
  (** the replacement of single-quoted keys of [applyJsonFixes] *)
  single_quoted_keys_fixed : string -> string;
  (** the replacement of unquoted keys of [applyJsonFixes] *)
  unquoted_keys_fixed : string -> string;
  (** the matches of [jsonRegex] of [extractAllCandidates] *)
  candidateRegex : string -> list string;
  (** the matches of [codeBlockRegex] of [extractAllCandidates]:
      the group 1 of each *)
  fencedRegex : string -> list string;
  (** [hasChainOfThought] and [filterChainOfThought], which are regular
      expression tests and a search *)
  hasChainOfThought : string -> bool;
  filterChainOfThought : string -> string
}.

(** The [defaultOptions] of the extractor. *)
Definition defaultExtractionOptions : ParseOptions :=
  {| allowMarkdownJson := Some true;
     allowFixes := Some true;
     allowAsString := Some true;
     findAllJsonObjects := Some true;
     normalizeUnicodeQuotes := Some true;
     p_maxDepth := Some 100%Z;
     p_allowPartials := None;
     p_useDefaults := None;
     p_strict := None;
     p_trackCoercions := None;
     filterChainOfThought_opt := None;
     returnAllCandidates := None |}.

(** [{}] as parse options. *)
Definition noParseOptions : ParseOptions :=
  {| allowMarkdownJson := None;
     allowFixes := None;
     allowAsString := None;
     findAllJsonObjects := None;
     normalizeUnicodeQuotes := None;
     p_maxDepth := None;
     p_allowPartials := None;
     p_useDefaults := None;
     p_strict := None;
     p_trackCoercions := None;
     filterChainOfThought_opt := None;
     returnAllCandidates := None |}.

(** [{ ...result, raw: originalRawText }]. *)
Definition with_raw (result : ExtractionResult) (originalRawText : string)
  : ExtractionResult :=
  {| ex_value := ex_value result;
     ex_raw := originalRawText;
     fromMarkdown := fromMarkdown result;
     fixes := fixes result;
     ex_isPartial := ex_isPartial result |}.

Definition withPreprocessingFixes (result : ExtractionResult)
  (preprocessingFixes : list string) (originalRawText : string) : ExtractionResult :=
  match preprocessingFixes with
  | [] =>
      if String.eqb (ex_raw result) originalRawText then result
      else with_raw result originalRawText
  | _ =>
      let mergedFixes :=
        unique [] ((match fixes result with Some f => f | None => [] end)
                   ++ preprocessingFixes)%list in
      {| ex_value := ex_value result;
         ex_raw := originalRawText;
         fromMarkdown := fromMarkdown result;
         fixes := Some mergedFixes;
         ex_isPartial := ex_isPartial result |}
  end.

(** [/^-?\d/.test(s)]. *)
Definition starts_like_a_number (s : string) : bool :=
  match s with
  | String "-" (String c _) => Str.is_digit c
  | String c _ => Str.is_digit c
  | EmptyString => false
  end.

Definition looksLikeJson (text : string) : bool :=
  let trimmed := trim text in
  match trimmed with
  | EmptyString => false
  | String firstChar rest =>
      let lastChar := last_char firstChar rest in
      if (Ascii.eqb firstChar "{" && Ascii.eqb lastChar "}")
         || (Ascii.eqb firstChar "[" && Ascii.eqb lastChar "]") then true
      else if Ascii.eqb firstChar (ascii_of_nat 34) && Ascii.eqb lastChar (ascii_of_nat 34)
      then true
      else if starts_like_a_number trimmed || String.eqb trimmed "true"
              || String.eqb trimmed "false" || String.eqb trimmed "null" then true
      else false
  end.

Section Extractor.

Variable h : Host.
Variable rx : RegExps.

Definition tryParseDirect (text : string) (isDone : bool) : option ExtractionResult :=
  let trimmed := trim text in
  if negb (looksLikeJson trimmed) then None
  else
    match JSON_parse h trimmed with
    | Some parsed =>
        Some {| ex_value := parsed;
                ex_raw := text;
                fromMarkdown := None;
                fixes := None;
                ex_isPartial := Some (negb isDone) |}
    | None => None
    end.

Definition applyJsonFixes (text : string) : string :=
  let fixed := trim text in
  let fixed := trailing_commas_removed rx fixed in
  let fixed := single_quoted_keys_fixed rx fixed in
  let fixed := unquoted_keys_fixed rx fixed in
  fixed.

(** [tryExtractPartialJson]: the closing braces, then the closing
    brackets, that the counts say are missing are appended; the result is
    what [JSON.parse] returns, or null. *)
Definition tryExtractPartialJson (text : string) : dynamic :=
  let fixed := trim text in
  let openBraces := count_char "{" fixed in
  let closeBraces := count_char "}" fixed in
  let openBrackets := count_char "[" fixed in
  let closeBrackets := count_char "]" fixed in
  let fixed := fixed ++ repeat_char "}" (openBraces - closeBraces) in
  let fixed := fixed ++ repeat_char "]" (openBrackets - closeBrackets) in
  match JSON_parse h fixed with
  | Some parsed => parsed
  | None => VNull
  end.

(** [tryFixJson]; its parameters [_options] and [_depth] are not used.
    The array [fixes] is shared by the two branches. *)
Definition tryFixJson (text : string) (isDone : bool) : option ExtractionResult :=
  let fixedResult := applyJsonFixes text in
  let fixes := if negb (String.eqb fixedResult text) then ["applied_auto_fixes"] else [] in
  match JSON_parse h fixedResult with
  | Some parsed =>
      Some {| ex_value := parsed;
              ex_raw := text;
              fromMarkdown := None;
              fixes := Some fixes;
              ex_isPartial := Some (negb isDone) |}
  | None =>
      let partial := tryExtractPartialJson text in
      if ToBoolean partial then
        Some {| ex_value := partial;
                ex_raw := text;
                fromMarkdown := None;
                fixes := Some (fixes ++ ["extracted_partial"])%list;
                ex_isPartial := Some true |}
      else None
  end.

(** The value an extraction strategy returns for the values it
    collected. *)
Definition collected (values : list dynamic) (text : string) (md : option bool)
  (isDone : bool) : option ExtractionResult :=
  match values with
  | [] => None
  | [one] =>
      Some {| ex_value := one;
              ex_raw := text;
              fromMarkdown := md;
              fixes := None;
              ex_isPartial := Some (negb isDone) |}
  | _ =>
      Some {| ex_value := VArr values;
              ex_raw := text;
              fromMarkdown := md;
              fixes := None;
              ex_isPartial := Some (negb isDone) |}
  end.

(** [tryExtractMultipleJson]; [_options] and [_depth] are not used. *)
Definition tryExtractMultipleJson (text : string) (isDone : bool) : option ExtractionResult :=
  let objects :=
    flat_map (fun candidate =>
                match JSON_parse h candidate with
                | Some parsed => [parsed]
                | None =>
                    match JSON_parse h (applyJsonFixes candidate) with
                    | Some parsed => [parsed]
                    | None => []
                    end
                end) (jsonRegex rx text) in
  collected objects text None isDone.

(** [tryExtractFromMarkdown]; [extractJson] is the recursive call. *)
Definition tryExtractFromMarkdown
  (extractJson : string -> ParseOptions -> bool -> nat -> string + ExtractionResult)
  (text : string) (options : ParseOptions) (isDone : bool) (_depth : nat)
  : option ExtractionResult :=
  let matches :=
    map (fun m => (Str.toLowerCase (trim (fst m)), trim (snd m))) (codeBlockRegex rx text) in
  match matches with
  | [] => None
  | _ =>
      let jsonBlocks :=
        filter (fun m =>
                  String.eqb (fst m) "json" || String.eqb (fst m) ""
                  || String.eqb (fst m) "javascript" || String.eqb (fst m) "js"
                  || looksLikeJson (snd m)) matches in
      match jsonBlocks with
      | [] => None
      | _ =>
          let each :=
            collected
              (flat_map (fun block =>
                           match JSON_parse h (snd block) with
                           | Some parsed => [parsed]
                           | None =>
                               match tryFixJson (snd block) isDone with
                               | Some fixed => [ex_value fixed]
                               | None => []
                               end
                           end) jsonBlocks)
              text (Some true) isDone in
          match jsonBlocks with
          | [block] =>
              match extractJson (snd block) options isDone _depth with
              | inr parsed =>
                  Some {| ex_value := ex_value parsed;
                          ex_raw := ex_raw parsed;
                          fromMarkdown := Some true;
                          fixes := fixes parsed;
                          ex_isPartial := ex_isPartial parsed |}
              | inl _ => each
              end
          | _ => each
          end
      end
  end.

(** The first lines of [extractJson]: the fixes of the preprocessing and
    the working text. *)
Definition preprocessed (opts : ParseOptions) (text : string) : list string * string :=
  if truthy (normalizeUnicodeQuotes opts) then
    let normalized := unicode_quotes_replaced rx text in
    if negb (String.eqb normalized text) then (["normalized_unicode_quotes"], normalized)
    else ([], text)
  else ([], text).

(** The body of [extractJson], for a given recursive call. What is thrown
    is the message of the error. *)
Definition extractJson_body
  (extractJson : string -> ParseOptions -> bool -> nat -> string + ExtractionResult)
  (text : string) (options : ParseOptions) (isDone : bool) (depth : nat)
  : string + ExtractionResult :=
  let opts := spread_parse defaultExtractionOptions options in
  let originalText := text in
  let preprocessingFixes := fst (preprocessed opts text) in
  let workingText := snd (preprocessed opts text) in
  if depth_exceeded depth (p_maxDepth opts) then
    inl "Depth limit reached. Likely a circular reference."
  else
    match tryParseDirect workingText isDone with
    | Some directResult =>
        inr (withPreprocessingFixes directResult preprocessingFixes originalText)
    | None =>
    match (if truthy (allowMarkdownJson opts)
           then tryExtractFromMarkdown extractJson workingText opts isDone (S depth)
           else None) with
    | Some markdownResult =>
        inr (withPreprocessingFixes markdownResult preprocessingFixes originalText)
    | None =>
    match (if truthy (findAllJsonObjects opts)
           then tryExtractMultipleJson workingText isDone
           else None) with
    | Some multiResult =>
        inr (withPreprocessingFixes multiResult preprocessingFixes originalText)
    | None =>
    match (if truthy (allowFixes opts)
           then tryFixJson workingText isDone
           else None) with
    | Some fixedResult =>
        inr (withPreprocessingFixes fixedResult preprocessingFixes originalText)
    | None =>
        if truthy (allowAsString opts) then
          inr {| ex_value := VStr originalText;
                 ex_raw := originalText;
                 fromMarkdown := None;
                 fixes := match preprocessingFixes with
                          | [] => None
                          | _ => Some preprocessingFixes
                          end;
                 ex_isPartial := Some (negb isDone) |}
        else inl "Failed to extract JSON from response"
    end end end end.

(** [extractJson] with a bound on the levels of recursion that are left;
    with none left the depth check of the next call throws. *)
Fixpoint extractJson_within (levels : nat) (text : string) (options : ParseOptions)
  (isDone : bool) (depth : nat) : string + ExtractionResult :=
  match levels with
  | O => inl "Depth limit reached. Likely a circular reference."
  | S fewer => extractJson_body (extractJson_within fewer) text options isDone depth
  end.

(** The levels between [depth] and the first depth that exceeds
    [maxDepth]. *)
Definition levels_left (options : ParseOptions) (depth : nat) : nat :=
  match p_maxDepth (spread_parse defaultExtractionOptions options) with
  | Some m => Z.to_nat (m + 1 - Z.of_nat depth)
  | None => 0
  end.

(** [extractJson]: the recursion through [tryExtractFromMarkdown] goes
    one level deeper each time and stops at the depth limit. *)
Definition extractJson (text : string) (options : ParseOptions) (isDone : bool) (depth : nat)
  : string + ExtractionResult :=
  extractJson_within (levels_left options depth) text options isDone depth.

(** [extractAllCandidates]. *)
Definition extractAllCandidates (text : string) : list string :=
  let candidates := (candidateRegex rx text ++ map trim (fencedRegex rx text))%list in
  unique [] candidates.

End Extractor.

(** ** The other entry points of the orchestrator *)

(** A stable sort by a key, which is what [Array.prototype.sort] does with
    the comparator [(a, b) => key(a) - key(b)]. *)
Section Sort.

Variable A : Type.
Variable key : A -> nat.

Fixpoint insert_by (x : A) (sorted : list A) : list A :=
  match sorted with
  | [] => [x]
  | y :: r => if (key x <=? key y)%nat then x :: sorted else y :: insert_by x r
  end.

Definition sort_by (l : list A) : list A := fold_right insert_by [] l.

End Sort.

Section Entry.

Variable h : Host.
Variable rx : RegExps.

(** [parseResponse] on the extractor of the library. *)
Definition parse (response : string) (s : schema) (options : ParseOptions) : ParseResult :=
  parseResponse h (extractJson h rx) (hasChainOfThought rx) (filterChainOfThought rx)
    response s options.

(** Whether [parseResponse(response, schema, options)] throws. It throws
    when the coercion does (on [String(value)] for an object that has a
    [toString] property of its own, for one), which the model of the
    coercer does not describe: which calls throw is a parameter of the
    two functions that catch what it throws. *)
Variable parse_throws : string -> schema -> ParseOptions -> bool.

(** [parseAllCandidates]: a candidate whose parse throws is skipped. *)
Definition parseAllCandidates (response : string) (s : schema) (options : ParseOptions)
  : list ParseResult :=
  let candidates := extractAllCandidates rx response in
  flat_map (fun candidate =>
              if parse_throws candidate s options then []
              else [parse candidate s options]) candidates.

Definition parseBestCandidate (response : string) (s : schema) (options : ParseOptions)
  : option ParseResult :=
  let candidates := parseAllCandidates response s options in
  match candidates with
  | [] => None
  | _ => hd_error (sort_by (fun r => List.length (p_errors r)) candidates)
  end.

Definition isValidResponse (response : string) (s : schema) : bool :=
  if parse_throws response s noParseOptions then false
  else p_success (parse response s noParseOptions).

(** What [debugParse] returns. *)
Record DebugInfo : Type := {
  filteredText : string;
  extractedValue : dynamic;
  extractionErrors : list string;
  coercionResult : CoercionResult
}.

Definition debugParse (response : string) (s : schema) : DebugInfo :=
  let filteredText :=
    if hasChainOfThought rx response then filterChainOfThought rx response else response in
  let extraction := extractJson h rx filteredText noParseOptions true 0 in
  let extractedValue :=
    match extraction with
    | inr e => ex_value e
    | inl _ => VNull
    end in
  let extractionErrors :=
    match extraction with
    | inr _ => []
    | inl thrown => ["Error: " ++ thrown]
    end in
  let coercionResult :=
    coerceValue h (if is_nullish extractedValue then VStr filteredText else extractedValue) s
      {| allowPartials := None; useDefaults := None; strict := None;
         maxDepth := None; trackCoercions := Some true |} "" in
  {| filteredText := filteredText;
     extractedValue := extractedValue;
     extractionErrors := extractionErrors;
     coercionResult := coercionResult |}.

End Entry.

(** * Vocabulary of the statements *)

(** What holds on every host. *)
Definition for_every_host (P : Host -> Prop) : Prop := forall h : Host, P h.

(** The notes [coerceValue] returns when the walk made the notes [l]. *)
Definition kept_notes {L : Type} {limit : Limit L} (o : CoercionOptionsOf L)
  (l : list string) : option (list string) :=
  if truthy (trackCoercions (spread defaultOptions o)) then Some l else None.

(** A shift record whose mantissa is not negative. *)
Definition nonneg (r : shr_record) : Prop := (0 <= shr_m r)%Z.

(** A computation that adds no note and only errors satisfying [P]. *)
Definition only_errors (P : error_call -> Prop) (A : Type) (m : W A) : Prop :=
  notes (snd m) = [] /\ Forall P (errs (snd m)).

Definition tracking : CoercionOptions :=
  {| allowPartials := None; useDefaults := None; strict := None;
     maxDepth := None; trackCoercions := Some true |}.

Definition partial_options : CoercionOptions :=
  {| allowPartials := Some true; useDefaults := None; strict := None;
     maxDepth := None; trackCoercions := None |}.

(** [{ ...o, strict: b }]. *)
Definition with_strict (b : option bool) (o : CoercionOptions) : CoercionOptions :=
  {| allowPartials := allowPartials o;
     useDefaults := useDefaults o;
     strict := b;
     maxDepth := maxDepth o;
     trackCoercions := trackCoercions o |}.

(** ** Union selection *)

(** The claim about ties, for two alternatives [a] (declared first) and
    [b]: when both coerce the input with no error, the union returns what
    [a] produces. *)
Definition earlier_alternative_wins (h : Host) (v : dynamic) (a b : schema) : Prop :=
  errors (coerceValue h v a noOptions "") = [] ->
  errors (coerceValue h v b noOptions "") = [] ->
  value_of (coerceValue h v (Type_.Union [a; b]) noOptions "")
  = value_of (coerceValue h v a noOptions "").

(** [{ minimum: m }]. *)
Definition at_least (m : float) : numeric_constraints :=
  {| minimum := Some m; maximum := None; exclusiveMinimum := None;
     exclusiveMaximum := None; multipleOf := None |}.

(** [Type.String({ minLength: n })]. *)
Definition at_least_chars (n : float) : schema :=
  Type_.StringWith (Some n) None None None.

(** [Type.Object({ age: Type.Number({ minimum: 0 }) })]. *)
Definition age_schema : schema :=
  Type_.Object [("age", Type_.Number (at_least 0))] ["age"].

(** ** String targets *)

(** The errors [coerceValue] reports for a string [s] against a String
    schema: one per violated constraint, in the order the constraints
    are checked. *)
Definition too_short (h : Host) (p s : string) (minLength : option float)
  : list CoercionError :=
  match minLength with
  | Some m =>
      if PrimFloat.ltb (Num.of_nat (String.length s)) m
      then [ {| path := p;
                message := "String too short (min " ++ Number_toString h m ++ ")";
                expected := Some ("minLength " ++ Number_toString h m);
                received := Some (Number_toString h (Num.of_nat (String.length s))) |} ]
      else []
  | None => []
  end.

Definition too_long (h : Host) (p s : string) (maxLength : option float)
  : list CoercionError :=
  match maxLength with
  | Some m =>
      if PrimFloat.ltb m (Num.of_nat (String.length s))
      then [ {| path := p;
                message := "String too long (max " ++ Number_toString h m ++ ")";
                expected := Some ("maxLength " ++ Number_toString h m);
                received := Some (Number_toString h (Num.of_nat (String.length s))) |} ]
      else []
  | None => []
  end.

Definition pattern_mismatch (h : Host) (p s : string) (pattern : option string)
  : list CoercionError :=
  match pattern with
  | Some re =>
      if negb (Str.is_empty re) && negb (RegExp_test h re s)
      then [ {| path := p;
                message := "String does not match pattern /" ++ re ++ "/";
                expected := Some ("pattern " ++ re);
                received := Some s |} ]
      else []
  | None => []
  end.

(** The claim about [format], for one input: a string that violates the
    declared format gets an error. *)
Definition format_is_checked (h : Host) (s format : string) : Prop :=
  errors (coerceValue h (VStr s) (Type_.StringWith None None None (Some format))
            noOptions "") <> [].

(** ** Boolean targets *)

Definition true_words : list string := ["true"; "1"; "yes"].
Definition false_words : list string := ["false"; "0"; "no"; ""].

(** The inputs of a Boolean target for which [coerceBoolean] has no rule:
    arrays, objects, and the strings outside the two word lists. *)
Definition no_boolean_rule (v : dynamic) : Prop :=
  match v with
  | VArr _ | VObj _ => True
  | VStr s => ~ In (Str.toLowerCase s) (true_words ++ false_words)%list
  | _ => False
  end.

Definition boolean_error (h : Host) (p : string) (v : dynamic) : CoercionError :=
  {| path := p;
     message := "Cannot coerce to boolean";
     expected := Some "boolean";
     received := Some (ToString h v) |}.

(** The claim about the last rule, for one input: an error is emitted and
    the input is returned as it is. *)
Definition rejected_unchanged (h : Host) (v : dynamic) : Prop :=
  let r := coerceValue h v Type_.Boolean noOptions "" in
  errors r <> [] /\ value_of r = v.

(** ** Numeric targets *)

(** The messages of [validateNumber] start with "Number". *)
Definition constraint_message (e : error_call) : Prop :=
  exists rest, err_message e = "Number " ++ rest.

(** The error [coerceValue] reports when [coerceNumber] gives up. *)
Definition cannot_coerce_error (h : Host) (p : string) (v : dynamic) (name : string)
  : CoercionError :=
  {| path := p;
     message := "Cannot coerce to " ++ name;
     expected := Some name;
     received := Some (ToString h v) |}.

(** What [coerceValue] returns for a string against a numeric schema
    when the string parses to [n]: the number, the note of the parse, the
    errors of [validateNumber] and no other. *)
Definition parsed_as (h : Host) (o : CoercionOptions) (p s : string) (n : float)
  (c : numeric_constraints) (r : CoercionResult) : Prop :=
  value_of r = VNum n
  /\ coercions r = kept_notes o ["parsed string to number at " ++ p]
  /\ errors r = map (report h p (VStr s)) (errs (snd (validateNumber h n c)))
  /\ (forall e name, In e (errors r) -> message e <> "Cannot coerce to " ++ name)
  /\ (c = no_constraints -> errors r = [] /\ success r = true).

(** What it returns when the string does not parse. *)
Definition not_parsed (h : Host) (o : CoercionOptions) (p s : string) (name : string)
  (r : CoercionResult) : Prop :=
  value_of r = VStr s
  /\ coercions r = kept_notes o []
  /\ errors r = [cannot_coerce_error h p (VStr s) name]
  /\ success r = false.

(** The claim, for one string and one Integer schema: the string is
    coerced to the integer at its front and no error is reported. *)
Definition prefix_is_accepted_without_error (h : Host) (s : string)
  (c : numeric_constraints) : Prop :=
  forall neg z, int_prefix s = Some (neg, z) ->
    let r := coerceValue h (VStr s) (Type_.Integer c) noOptions "" in
    value_of r = VNum (int_value neg z) /\ errors r = [].

(** ** Completeness *)

(** The rules of incompleteness as the specification words them: a
    required field is absent (Object), the array is empty (Array), the
    input is absent (any target). *)
Definition incomplete_by_the_rules (h : Host) (v : dynamic) (s : schema) : bool :=
  is_nullish v
  || match kind_of s, v with
     | KObject _ required _, (VObj _ | VArr _) =>
         existsb (fun key => negb (has_property h v key)) required
     | KArray _, VArr [] => true
     | _, _ => false
     end.

Definition isPartial_follows_the_rules (h : Host) (v : dynamic) (s : schema)
  (o : CoercionOptions) : Prop :=
  isPartial (coerceValue h v s o "")
  = truthy (allowPartials o) && incomplete_by_the_rules h v s.

(** Incompleteness as [isComplete] decides it. *)
Definition not_an_object (v : dynamic) : Prop :=
  match v with
  | VObj _ | VArr _ => False
  | _ => True
  end.

(** The value has the property [key] or inherits it: an object has it
    among its own properties or from [Object.prototype]; an array has
    [length] and its indices, and inherits from [Array.prototype] and
    [Object.prototype]. *)
Definition in_value (h : Host) (v : dynamic) (key : string) : Prop :=
  match v with
  | VObj o => In key (map fst o) \/ Object_prototype_has h key = true
  | VArr items =>
      key = "length"
      \/ (exists i, Obj.array_index key = Some i /\ (i < N.of_nat (List.length items))%N)
      \/ Array_prototype_has h key = true
      \/ Object_prototype_has h key = true
  | _ => False
  end.

Definition incomplete (h : Host) (v : dynamic) (s : schema) : Prop :=
  match kind_of s with
  | KObject properties required _ =>
      not_an_object v
      \/ exists key, In key (map fst properties) /\ In key required
                     /\ ~ in_value h v key
  | KArray _ => (forall items, v <> VArr items) \/ v = VArr []
  | _ => v = VNull \/ v = VUndefined
  end.

(** The shape a successful coercion gives its result, by kind. *)
Definition shape_of (k : kind) (v : dynamic) : Prop :=
  match k with
  | KString _ _ _ _ => exists s, v = VStr s
  | KNumber _ | KInteger _ => exists n, v = VNum n
  | KBoolean => exists b, v = VBool b
  | KNull => v = VNull
  | KArray _ | KTuple _ _ => exists l, v = VArr l
  | KObject _ _ _ | KRecord _ _ => exists fields, v = VObj fields
  | KIntersect allOf => allOf = [] \/ exists fields, v = VObj fields
  | KEnum enum => includes enum v = true
  | KLiteral const => v = const \/ strict_eq v const = true
  | KUnion _ | KOptional _ | KAny | KUnknown | KRef _ => True
  end.

(** [{ ...o, trackCoercions: b }]. *)
Definition with_tracking (b : option bool) (o : CoercionOptions) : CoercionOptions :=
  {| allowPartials := allowPartials o;
     useDefaults := useDefaults o;
     strict := strict o;
     maxDepth := maxDepth o;
     trackCoercions := b |}.

(** The call [addError] receives for a missing required field. *)
Definition missing_field_call (key : string) : error_call :=
  {| err_message := "Missing required field: " ++ key;
     err_expected := None;
     err_received := Some "undefined" |}.

(** The error [coerceValue] reports for a missing required field. *)
Definition missing_field_error (p key : string) : CoercionError :=
  {| path := p;
     message := "Missing required field: " ++ key;
     expected := None;
     received := Some "undefined" |}.

(** What [extractJson] throws: the message of the depth limit when the
    depth exceeds [maxDepth], and the message of the failure only when
    [allowAsString] is switched off. *)
Definition thrown_for (options : ParseOptions) (depth : nat) (thrown : string) : Prop :=
  let opts := spread_parse defaultExtractionOptions options in
  (depth_exceeded depth (p_maxDepth opts) = true
   /\ thrown = "Depth limit reached. Likely a circular reference.")
  \/ (allowAsString options = Some false
      /\ thrown = "Failed to extract JSON from response").

(** [r] is the first of the results in [l] that has the fewest errors. *)
Definition first_with_fewest_errors (r : ParseResult) (l : list ParseResult) : Prop :=
  exists before after,
    l = (before ++ r :: after)%list
    /\ Forall (fun x => List.length (p_errors r) < List.length (p_errors x)) before
    /\ Forall (fun x => List.length (p_errors r) <= List.length (p_errors x)) after.

(** The result of [parseResponse] when the extraction returned the value
    [v]: the coercion of [v] under the options completed with the
    defaults. *)
Definition coerced_from (h : Host) (v : dynamic) (s : schema) (options : ParseOptions)
  (r : ParseResult) : Prop :=
  let c := coerceValue h v s
             (coercion_options (spread_parse defaultParseOptions options)) "" in
  p_value r = value_of c
  /\ p_success r = success c
  /\ p_errors r = map (fun e => (path e, message e)) (errors c)
  /\ p_isPartial r = isPartial c
  /\ meta_coercions (meta r) = coercions c.

(** The options [options'] are the options [options] with
    [allowPartials] and [allowAsString] forced to true: the two fields
    are set to true, and each of the other ten is as [options] has it. *)
Definition forced_from (options options' : ParseOptions) : Prop :=
  p_allowPartials options' = Some true
  /\ allowAsString options' = Some true
  /\ allowMarkdownJson options' = allowMarkdownJson options
  /\ allowFixes options' = allowFixes options
  /\ findAllJsonObjects options' = findAllJsonObjects options
  /\ normalizeUnicodeQuotes options' = normalizeUnicodeQuotes options
  /\ p_maxDepth options' = p_maxDepth options
  /\ p_useDefaults options' = p_useDefaults options
  /\ p_strict options' = p_strict options
  /\ p_trackCoercions options' = p_trackCoercions options
  /\ filterChainOfThought_opt options' = filterChainOfThought_opt options
  /\ returnAllCandidates options' = returnAllCandidates options.

(** The claim about a null or undefined input, for one call: the value
    null, no error, a success. *)
Definition null_is_accepted (h : Host) (v : dynamic) (s : schema)
  (o : CoercionOptionsOf Z) : Prop :=
  let r := coerceValue h v s o "" in
  value_of r = VNull /\ errors r = [] /\ success r = true.

(** [{ maxDepth: -1 }]. *)
Definition below_the_root : CoercionOptionsOf Z :=
  {| allowPartials := None; useDefaults := None; strict := None;
     maxDepth := Some (-1)%Z; trackCoercions := None |}.

(** [{ maxDepth: 3 }]. *)
Definition three_levels : CoercionOptionsOf Z :=
  {| allowPartials := None; useDefaults := None; strict := None;
     maxDepth := Some 3%Z; trackCoercions := None |}.

(** [maxDepth] is absent or not negative. *)
Definition maxDepth_not_negative (options : ParseOptions) : Prop :=
  forall m, p_maxDepth options = Some m -> (0 <= m)%Z.

(** The text [parseResponse] hands to the extractor: the response, or
    what is left of it when the chain of thought is filtered out. *)
Definition text_to_extract (rx : RegExps) (options : ParseOptions) (response : string)
  : string :=
  if truthy (filterChainOfThought_opt (spread_parse defaultParseOptions options))
     && hasChainOfThought rx response
  then filterChainOfThought rx response
  else response.

(** The result [r] of a parse is the coercion of what the extractor
    returned, [extraction], and carries its metadata. *)
Definition parsed_as_extracted (h : Host) (rx : RegExps) (response : string) (s : schema)
  (options : ParseOptions) (extraction : ExtractionResult) (r : ParseResult) : Prop :=
  extractJson h rx (text_to_extract rx options response)
    (spread_parse defaultParseOptions options) true 0 = inr extraction
  /\ coerced_from h (ex_value extraction) s options r
  /\ raw (meta r) = response
  /\ meta_fromMarkdown (meta r) = fromMarkdown extraction
  /\ meta_fixes (meta r) = fixes extraction.

(** A number meets the constraints [c] when none of the five checks of
    [validateNumber] fires on it. *)
Definition meets (n : float) (c : numeric_constraints) : Prop :=
  (forall m, minimum c = Some m -> PrimFloat.ltb n m = false)
  /\ (forall m, maximum c = Some m -> PrimFloat.ltb m n = false)
  /\ (forall m, exclusiveMinimum c = Some m -> PrimFloat.leb n m = false)
  /\ (forall m, exclusiveMaximum c = Some m -> PrimFloat.leb m n = false)
  /\ (forall m, multipleOf c = Some m -> Num.rem_is_nonzero n m = false).

(** The names of the properties of [Object.prototype] (ECMA-262, 20.1.3
    and B.2.2.1). *)
Definition Object_prototype_names : list string :=
  ["constructor"; "hasOwnProperty"; "isPrototypeOf"; "propertyIsEnumerable";
   "toLocaleString"; "toString"; "valueOf"; "__proto__";
   "__defineGetter__"; "__defineSetter__"; "__lookupGetter__"; "__lookupSetter__"].

(** The names of the properties of [Array.prototype] (ECMA-262, 23.1.3). *)
Definition Array_prototype_names : list string :=
  ["at"; "concat"; "constructor"; "copyWithin"; "entries"; "every"; "fill"; "filter";
   "find"; "findIndex"; "findLast"; "findLastIndex"; "flat"; "flatMap"; "forEach";
   "includes"; "indexOf"; "join"; "keys"; "lastIndexOf"; "map"; "pop"; "push";
   "reduce"; "reduceRight"; "reverse"; "shift"; "slice"; "some"; "sort"; "splice";
   "toLocaleString"; "toReversed"; "toSorted"; "toSpliced"; "toString"; "unshift";
   "values"; "with"].

(** A host for examples: [JSON.parse] reads the table [parses], no
    regular expression matches, and the prototypes have the properties
    of the standard. *)
Definition table_host (parses : list (string * dynamic)) : Host :=
  {| RegExp_test := fun _ _ => false;
     JSON_parse := fun s => Obj.get parses s;
     JSON_stringify := fun _ => "";
     Number_toString := fun _ => "";
     Type_Object_required := fun _ => [];
     Object_prototype_has := fun k => existsb (String.eqb k) Object_prototype_names;
     Array_prototype_has := fun k => existsb (String.eqb k) Array_prototype_names |}.

(** What holds on the host of the examples, where no text is JSON. *)
Definition on_plain_host (P : Host -> Prop) : Prop := P (table_host []).

(** [String(v)] returns. It throws a TypeError for an object that has a
    [toString] property of its own that is not a function (no property
    of an object read from JSON is a function); the string of an array
    is made of the strings of its elements that are not null or
    undefined. *)
Fixpoint String_defined (v : dynamic) : bool :=
  match v with
  | VObj o => negb (Obj.has o "toString")
  | VArr items => forallb (fun x => is_nullish x || String_defined x) items
  | _ => true
  end.

(** A plain value: no object in it has a property of its own named
    [toString] or [__proto__] or under another name that objects inherit
    (so [String] is defined on every part of it, and no assignment meets
    the setter of [__proto__]), and no string in it is the JSON text of
    an object or an array (so the coercer never walks a value that is not
    a part of the input). On a plain value no coercion throws. *)
Fixpoint plain (h : Host) (v : dynamic) : bool :=
  match v with
  | VObj o =>
      negb (Obj.has o "toString") && negb (Obj.has o "__proto__")
      && forallb (fun kv => negb (Object_prototype_has h (fst kv)) && plain h (snd kv)) o
  | VArr items => forallb (plain h) items
  | VStr s =>
      match JSON_parse h s with
      | Some (VObj _) | Some (VArr _) => false
      | _ => true
      end
  | _ => true
  end.

(** The properties a schema declares, at every level, have names that
    objects do not inherit: reading such a property of an object that
    lacks it gives undefined. *)
Fixpoint plain_properties (h : Host) (s : schema) : bool :=
  match s with
  | Schema _ k =>
      let additional_is_plain (a : additional schema) :=
        match a with
        | AddlSchema sub => plain_properties h sub
        | _ => true
        end in
      match k with
      | KObject properties _ additionalProperties =>
          forallb (fun q => negb (Object_prototype_has h (fst q))
                            && plain_properties h (snd q)) properties
          && additional_is_plain additionalProperties
      | KArray items => plain_properties h items
      | KUnion anyOf => forallb (plain_properties h) anyOf
      | KIntersect allOf => forallb (plain_properties h) allOf
      | KOptional item => plain_properties h item
      | KRecord patternProperties additionalProperties =>
          forallb (fun q => plain_properties h (snd q)) patternProperties
          && additional_is_plain additionalProperties
      | KTuple items additionalItems =>
          forallb (plain_properties h) items && additional_is_plain additionalItems
      | _ => true
      end
  end.

(** Regular expressions for examples: no search matches, no replacement
    changes the text but that of the quotes, which is [normalized]. *)
Definition silent_regexps (normalized : string -> string) : RegExps :=
  {| unicode_quotes_replaced := normalized;
     codeBlockRegex := fun _ => [];
     jsonRegex := fun _ => [];
     trailing_commas_removed := fun s => s;
     single_quoted_keys_fixed := fun s => s;
     unquoted_keys_fixed := fun s => s;
     candidateRegex := fun _ => [];
     fencedRegex := fun _ => [];
     hasChainOfThought := fun _ => false;
     filterChainOfThought := fun s => s |}.

(** The value of an extraction that returned. *)
Definition ex_value_of (r : string + ExtractionResult) : option dynamic :=
  match r with
  | inr e => Some (ex_value e)
  | inl _ => None
  end.


(** *** Values that are valid for a schema *)

(** The nesting depth of a schema: the number of levels under the root
    at which the coercer can be called for it. A union and an Optional
    are coerced at the depth of their alternatives; the extra elements of
    a tuple and the undeclared properties of an object without a schema
    for them are not coerced. *)
Fixpoint height (s : schema) : nat :=
  match s with
  | Schema _ k =>
      match k with
      | KObject properties _ additionalProperties =>
          S (Nat.max (list_max (map (fun q => height (snd q)) properties))
                     (match additionalProperties with
                      | AddlSchema a => height a
                      | _ => 0
                      end))
      | KArray items => S (height items)
      | KUnion anyOf => list_max (map height anyOf)
      | KOptional item => height item
      | KRecord patternProperties additionalProperties =>
          S (match patternProperties, additionalProperties with
             | (_, first) :: _, _ => height first
             | [], AddlSchema a => height a
             | [], _ => 0
             end)
      | KTuple items _ => S (list_max (map height items))
      | _ => 0
      end
  end.

(** A string within the length bounds that matches the pattern. *)
Definition string_ok (h : Host) (minLength maxLength : option float)
  (pattern : option string) (s : string) : Prop :=
  let len := Num.of_nat (String.length s) in
  (forall m, minLength = Some m -> PrimFloat.ltb len m = false)
  /\ (forall m, maxLength = Some m -> PrimFloat.ltb m len = false)
  /\ pattern_violated h pattern s = false.

(** A declared property of an object: absent only when it is not
    required, or Optional or nullable; valid for its schema otherwise. *)
Definition field_valid (required : list string) (fields : list (string * dynamic))
  (b : string * (schema * (dynamic -> Prop))) : Prop :=
  if is_undefined (prop fields (fst b)) then
    existsb (String.eqb (fst b)) required = false
    \/ isOptionalProperty (fst (snd b)) = true
  else snd (snd b) (prop fields (fst b)).

(** The properties that are not declared are valid for the schema of the
    additional properties, when there is one. *)
Definition additional_valid (declared : list string)
  (additionalProperties : additional (dynamic -> Prop))
  (fields : list (string * dynamic)) : Prop :=
  match additionalProperties with
  | AddlSchema ok => forall k v, In (k, v) fields -> ~ In k declared -> ok v
  | _ => True
  end.

(** Every declared position of a tuple holds a valid element. *)
Fixpoint positions_valid (items : list (dynamic -> Prop)) (elements : list dynamic) : Prop :=
  match items, elements with
  | [], _ => True
  | ok :: rest, x :: others => ok x /\ positions_valid rest others
  | _ :: _, [] => False
  end.

(** The value [v] is valid for the schema [s]: it has the type the
    schema names and meets its constraints, and so do its parts. No value
    counts as valid for an Intersect or a Ref here. *)
Fixpoint valid_for (h : Host) (s : schema) (v : dynamic) {struct s} : Prop :=
  match s with
  | Schema _ k =>
      match k with
      | KObject properties required additionalProperties =>
          exists fields,
            v = VObj fields
            /\ Forall (field_valid required fields)
                 (map (fun q => (fst q, (snd q, valid_for h (snd q)))) properties)
            /\ additional_valid (map fst properties)
                 (additional_map (valid_for h) additionalProperties) fields
      | KArray items =>
          exists elements, v = VArr elements /\ Forall (valid_for h items) elements
      | KUnion anyOf => Exists (fun ok => ok v) (map (valid_for h) anyOf)
      | KOptional item => is_nullish v = true \/ valid_for h item v
      | KLiteral const => strict_eq v const = true
      | KEnum enum => includes enum v = true
      | KString minLength maxLength pattern _ =>
          exists str, v = VStr str /\ string_ok h minLength maxLength pattern str
      | KNumber c => exists n, v = VNum n /\ meets n c
      | KInteger c => exists n, v = VNum n /\ Num.isInteger n = true /\ meets n c
      | KBoolean => exists b, v = VBool b
      | KNull => v = VNull
      | KAny | KUnknown => True
      | KRecord patternProperties additionalProperties =>
          exists entries,
            v = VObj entries
            /\ Forall (fun e =>
                         match patternProperties, additionalProperties with
                         | (_, first) :: _, _ => valid_for h first (snd e)
                         | [], AddlSchema a => valid_for h a (snd e)
                         | [], _ => True
                         end) entries
      | KTuple items _ =>
          exists elements,
            v = VArr elements /\ positions_valid (map (valid_for h) items) elements
      | KIntersect _ | KRef _ => False
      end
  end.

(** The sub-schemas of a kind. *)
Definition children (k : kind) : list schema :=
  let of_additional (a : additional schema) :=
    match a with
    | AddlSchema sub => [sub]
    | _ => []
    end in
  match k with
  | KObject properties _ additionalProperties =>
      (map snd properties ++ of_additional additionalProperties)%list
  | KArray items => [items]
  | KUnion anyOf => anyOf
  | KIntersect allOf => allOf
  | KOptional item => [item]
  | KRecord patternProperties additionalProperties =>
      (map snd patternProperties ++ of_additional additionalProperties)%list
  | KTuple items additionalItems => (items ++ of_additional additionalItems)%list
  | _ => []
  end.

(** * Properties *)

(** ** The host functions on examples *)

Example parseInt_42abc : parseInt "42abc" = 42%float.
Proof. reflexivity. Qed.

Example parseInt_neg : parseInt "  -17px" = (-17)%float.
Proof. reflexivity. Qed.

Example parseInt_none : PrimFloat.is_nan (parseInt "abc") = true.
Proof. reflexivity. Qed.

Example parseFloat_3_14 : parseFloat "3.14abc" = (314 / 100)%float.
Proof. reflexivity. Qed.

Example parseFloat_exp : parseFloat "-.5e-3" = (-5 / 10000)%float.
Proof. reflexivity. Qed.

Example parseFloat_1e : parseFloat "1e" = 1%float.
Proof. reflexivity. Qed.

Example parseFloat_tenth : parseFloat "0.1" = (1 / 10)%float.
Proof. reflexivity. Qed.

Example trunc_3_7 : Num.trunc (37 / 10)%float = 3%float.
Proof. reflexivity. Qed.

Example trunc_neg : Num.trunc (-37 / 10)%float = (-3)%float.
Proof. reflexivity. Qed.

Example isInteger_ex : Num.isInteger 3%float = true /\ Num.isInteger 3.5%float = false.
Proof. split; reflexivity. Qed.

Example rem_ex : Num.rem_is_nonzero 7%float 2%float = true /\ Num.rem_is_nonzero 8%float 2%float = false.
Proof. split; reflexivity. Qed.

Example of_nat_ex : Str.of_nat 0 = "0" /\ Str.of_nat 120 = "120".
Proof. split; reflexivity. Qed.

(** ** Numbers read from text are never NaN *)

Lemma shr_1_nonneg : forall r, nonneg r -> nonneg (shr_1 r).
Proof.
  intros [m r s] H; unfold nonneg in *; simpl in *.
  destruct m as [|[p|p|]|[p|p|]]; simpl; lia.
Qed.

Lemma iter_shr_1_nonneg : forall p r, nonneg r -> nonneg (iter_pos shr_1 p r).
Proof.
  induction p as [p IH|p IH|]; intros r H; simpl.
  - apply IH, IH, shr_1_nonneg, H.
  - apply IH, IH, H.
  - apply shr_1_nonneg, H.
Qed.

Lemma shr_fexp_nonneg : forall m e l,
  (0 <= m)%Z -> nonneg (fst (shr_fexp prec emax m e l)).
Proof.
  intros m e l H. unfold shr_fexp, shr.
  assert (H0 : nonneg (shr_record_of_loc m l))
    by (unfold nonneg; destruct l as [|[]]; simpl; exact H).
  destruct (fexp prec emax (Zdigits2 m + e) - e)%Z; simpl; auto.
  apply iter_shr_1_nonneg, H0.
Qed.

Lemma round_nearest_even_nonneg : forall m l,
  (0 <= m)%Z -> (0 <= round_nearest_even m l)%Z.
Proof.
  intros m l H. destruct l as [|[]]; simpl; try lia.
  destruct (Z.even m); lia.
Qed.

Lemma binary_round_aux_not_nan : forall s m e l,
  (0 <= m)%Z -> binary_round_aux prec emax s m e l <> S754_nan.
Proof.
  intros s m e l H. unfold binary_round_aux.
  pose proof (shr_fexp_nonneg e l H) as H1.
  destruct (shr_fexp prec emax m e l) as [r1 e1]; simpl in H1.
  pose proof (round_nearest_even_nonneg (loc_of_shr_record r1) H1) as H2.
  pose proof (shr_fexp_nonneg e1 loc_Exact H2) as H3.
  destruct (shr_fexp prec emax _ e1 loc_Exact) as [r2 e2]; simpl in H3.
  unfold nonneg in H3. revert H3.
  destruct (shr_m r2); intro H3; [discriminate| |lia].
  destruct (e2 <=? emax - prec)%Z; discriminate.
Qed.

Lemma binary_round_not_nan : forall s m e, binary_round prec emax s m e <> S754_nan.
Proof.
  intros s m e. unfold binary_round.
  destruct (shl_align m e _) as [mz ez].
  apply binary_round_aux_not_nan. lia.
Qed.

Lemma binary_normalize_not_nan : forall m e s,
  binary_normalize prec emax m e s <> S754_nan.
Proof.
  intros [|p|p] e s; simpl; try discriminate; apply binary_round_not_nan.
Qed.

Lemma is_nan_Prim2SF : forall x, Prim2SF x <> S754_nan -> PrimFloat.is_nan x = false.
Proof.
  intros x H. unfold Prim2SF in H.
  destruct (PrimFloat.is_nan x); [congruence | reflexivity].
Qed.

Lemma SF2Prim_not_nan : forall x, x <> S754_nan -> PrimFloat.is_nan (SF2Prim x) = false.
Proof.
  intros [[|]|[|]| |s m e] H; try reflexivity; try congruence.
  assert (Hf : Prim2SF (Z.ldexp (of_uint63 (Uint63.of_Z (Z.pos m))) e) <> S754_nan).
  { rewrite Z_ldexp_spec, of_uint63_spec.
    pose proof (@binary_normalize_not_nan
                  (Uint63.to_Z (Uint63.of_Z (Z.pos m))) 0 false) as Hn.
    destruct (binary_normalize prec emax _ 0 false); simpl; try congruence.
    apply binary_round_not_nan. }
  unfold SF2Prim. destruct s; apply is_nan_Prim2SF; [|exact Hf].
  rewrite opp_spec.
  destruct (Prim2SF (Z.ldexp _ e)); simpl; congruence.
Qed.

Lemma of_Z_not_nan : forall z, PrimFloat.is_nan (Num.of_Z z) = false.
Proof.
  intro z. apply SF2Prim_not_nan, binary_normalize_not_nan.
Qed.

Lemma opp_not_nan : forall x, PrimFloat.is_nan x = false -> PrimFloat.is_nan (- x)%float = false.
Proof.
  intros x H. apply is_nan_Prim2SF. rewrite opp_spec.
  unfold Prim2SF. rewrite H.
  destruct (is_zero x); [discriminate|].
  destruct (is_infinity x); [discriminate|].
  destruct (Z.frexp x) as [r ex].
  destruct (shr_fexp prec emax _ _ loc_Exact) as [sh e'].
  destruct (shr_m sh); discriminate.
Qed.

Lemma of_decimal_not_nan : forall neg m e, PrimFloat.is_nan (Num.of_decimal neg m e) = false.
Proof.
  intros neg m e. unfold Num.of_decimal.
  destruct (m <=? 0)%Z eqn:Hm; [destruct neg; reflexivity|].
  destruct (0 <=? e)%Z eqn:He.
  - apply SF2Prim_not_nan, binary_normalize_not_nan.
  - apply SF2Prim_not_nan, binary_round_aux_not_nan.
    apply Z.leb_gt in Hm. apply Z.leb_gt in He. apply Z.div_pos; [|apply Z.pow_pos_nonneg; lia].
    apply Z.mul_nonneg_nonneg; [lia|]. apply Z.pow_nonneg; lia.
Qed.

(** [parseInt] is NaN exactly when the text has no integer prefix. *)
Lemma parseInt_nan : forall s,
  PrimFloat.is_nan (parseInt s) = match int_prefix s with Some _ => false | None => true end.
Proof.
  intro s. unfold parseInt, int_value.
  destruct (int_prefix s) as [[neg z]|]; [|reflexivity].
  destruct neg; [apply opp_not_nan|]; apply of_Z_not_nan.
Qed.

Lemma parseFloat_nan : forall s,
  PrimFloat.is_nan (parseFloat s) = match float_prefix s with Some _ => false | None => true end.
Proof.
  intro s. unfold parseFloat, decimal_value.
  destruct (float_prefix s) as [[neg [|m e]]|]; [| |reflexivity].
  - destruct neg; reflexivity.
  - apply of_decimal_not_nan.
Qed.

(** ** The writer monad *)

Lemma bind_fst : forall (A B : Type) (m : W A) (f : A -> W B),
  fst (bind m f) = fst (f (fst m)).
Proof.
  intros A B [a c] f. unfold bind. simpl. destruct (f a). reflexivity.
Qed.

Lemma bind_snd : forall (A B : Type) (m : W A) (f : A -> W B),
  snd (bind m f) = calls_app (snd m) (snd (f (fst m))).
Proof.
  intros A B [a c] f. unfold bind. simpl. destruct (f a). reflexivity.
Qed.

Lemma only_errors_ret : forall P (A : Type) (a : A), only_errors P (ret a).
Proof. intros; split; [reflexivity | constructor]. Qed.

Lemma only_errors_bind : forall P (A B : Type) (m : W A) (f : A -> W B),
  only_errors P m -> (forall a, only_errors P (f a)) -> only_errors P (bind m f).
Proof.
  intros P A B m f [Hn He] Hf. destruct (Hf (fst m)) as [Hn' He'].
  unfold only_errors. rewrite bind_snd. simpl. rewrite Hn, Hn'. split; [reflexivity|].
  apply Forall_app. split; assumption.
Qed.

Lemma only_errors_check : forall (P : error_call -> Prop) b msg exp rec,
  P {| err_message := msg; err_expected := exp; err_received := rec |} ->
  only_errors P (check b msg exp rec).
Proof.
  intros P b msg exp rec H. destruct b; simpl.
  - split; [reflexivity | repeat constructor; exact H].
  - apply only_errors_ret.
Qed.

(** ** Calls at the top level *)

Lemma depth_exceeded_0 : forall limit, depth_exceeded 0 limit = false.
Proof. intros [m|]; reflexivity. Qed.

(** Unfolds a top-level call on a schema whose kind is known, down to
    the function of that kind. *)
Ltac top_level :=
  unfold coerceValue; cbn [coerceInternal]; rewrite depth_exceeded_0;
  cbn [is_nullish fst snd].

(** A null or undefined input never reaches the schema. *)
Lemma coerceInternal_nullish : forall h opts s p v,
  is_nullish v = true ->
  coerceInternal h opts s 0 p v = (VNull, no_calls).
Proof.
  intros h opts [d k] p v Hv. cbn [coerceInternal].
  rewrite depth_exceeded_0, Hv. unfold coerceNull. rewrite Hv. reflexivity.
Qed.

(** The fresh [Type.Any()] of [coerceRecord] is coerced as any other
    schema. *)
Lemma coerceAny_is_coerceInternal : forall h opts depth p v,
  coerceAny opts depth p v = coerceInternal h opts Type_.Any depth p v.
Proof. reflexivity. Qed.

Lemma errors_carry_the_top_level_path : forall h v s o p e,
  In e (errors (coerceValue h v s o p)) -> path e = p.
Proof.
  intros h v s o p e H. unfold coerceValue in H. cbn [errors] in H.
  apply in_map_iff in H. destruct H as [c [E _]]. subst e. reflexivity.
Qed.

Lemma eqb_words : forall s l, In s l <-> existsb (String.eqb s) l = true.
Proof.
  intros s l. rewrite existsb_exists. split.
  - intro H. exists s. split; [exact H | apply String.eqb_refl].
  - intros [x [H E]]. apply String.eqb_eq in E. subst. exact H.
Qed.

(** ** The tests of the repository *)

Example test_string_to_number : forall h,
  let r := coerceValue h (VStr "42") (Type_.Number no_constraints) tracking "" in
  value_of r = VNum 42
  /\ coercions r = Some ["parsed string to number at "].
Proof. intro h. split; reflexivity. Qed.

Example test_number_to_string : forall h,
  value_of (coerceValue h (VNum 123) Type_.String noOptions "")
  = VStr (Number_toString h 123).
Proof. intro h. reflexivity. Qed.

Example test_missing_optional_field : forall h,
  let s := Type_.Object [("required", Type_.String);
                         ("optional", Schema None (KOptional Type_.String))]
                        ["required"] in
  let r := coerceValue h (VObj [("required", VStr "test")]) s noOptions "" in
  value_of r = VObj [("required", VStr "test")] /\ success r = true.
Proof. intro h. split; reflexivity. Qed.

Example test_union_types : forall h,
  let u := Type_.Union [Type_.String; Type_.Number no_constraints] in
  value_of (coerceValue h (VStr "hello") u noOptions "") = VStr "hello"
  /\ value_of (coerceValue h (VNum 42) u noOptions "") = VNum 42.
Proof. intro h. split; reflexivity. Qed.

Example test_string_constraints : forall h,
  let s := Type_.StringWith (Some 3%float) (Some 10%float) None None in
  success (coerceValue h (VStr "hi") s noOptions "") = false
  /\ success (coerceValue h (VStr "hello world!!!") s noOptions "") = false
  /\ success (coerceValue h (VStr "hello") s noOptions "") = true.
Proof. intro h. repeat split. Qed.

Example array_as_object : forall h,
  Object_prototype_has h "0" = false ->
  let s := Type_.Object [("1", Type_.String)] ["1"] in
  let r := coerceValue h (VArr [VNum 1; VStr "x"]) s tracking "p" in
  value_of r = VObj [("0", VNum 1); ("1", VStr "x")]
  /\ coercions r = Some ["converted array to object with index keys at p"].
Proof.
  intros h H. cbv zeta. unfold coerceValue. cbn [value_of coercions].
  cbn. unfold in_properties. cbn. rewrite H. split; reflexivity.
Qed.

(** ** C1: union selection *)

Section UnionSearch.

Variable h : Host.
Variable opts : CoercionOptions.
Variable v : dynamic.
Variable p : string.
Variable depth : nat.

Local Abbreviation walk s := (coerceInternal h opts s depth p v).
Local Abbreviation bound := (fun s : schema => (s, coerceInternal h opts s)).

(** An admissible variant with no error ends the search, whatever the
    variants before it that are not admissible or have errors. *)
Lemma try_variants_first_clean : forall before a after best,
  canHandleValue v a = true ->
  errs (snd (walk a)) = [] ->
  (forall b, In b before -> canHandleValue v b = true -> errs (snd (walk b)) <> []) ->
  try_variants v p depth (map bound (before ++ a :: after)) best
  = inl (fst (walk a), {| notes := notes (snd (walk a)); errs := [] |}).
Proof.
  induction before as [|b before IH]; intros a after best Ha Hclean Hbefore.
  - cbn [app map try_variants]. rewrite Ha.
    destruct (walk a) as [result c]. cbn [fst snd] in *. rewrite Hclean. reflexivity.
  - cbn [app map try_variants].
    destruct (canHandleValue v b) eqn:Hb.
    + pose proof (Hbefore b (or_introl eq_refl) Hb) as Herr.
      destruct (walk b) as [result c]. cbn [fst snd] in Herr.
      destruct (errs c) as [|e l]; [contradiction|]. cbn [List.length Nat.eqb].
      apply IH; auto. intros b' Hin. apply Hbefore. right. exact Hin.
    + apply IH; auto. intros b' Hin. apply Hbefore. right. exact Hin.
Qed.

(** Once a best variant is recorded the search never ends empty-handed. *)
Lemma try_variants_keeps_best : forall variants best,
  best <> None -> try_variants v p depth variants best <> inr None.
Proof.
  induction variants as [|[s c] variants IH]; intros best Hbest.
  - cbn. congruence.
  - cbn [try_variants]. destruct (canHandleValue v s); [|apply IH, Hbest].
    destruct (c depth p v) as [result cs].
    destruct (List.length (errs cs) =? 0)%nat; [discriminate|].
    apply IH. destruct best as [b|]; [|discriminate].
    destruct (_ <? _)%nat; discriminate.
Qed.

Lemma try_variants_admissible : forall variants,
  existsb (fun sc => canHandleValue v (fst sc)) variants = true ->
  try_variants v p depth variants None <> inr None.
Proof.
  induction variants as [|[s c] variants IH]; intro H.
  - discriminate.
  - cbn [try_variants]. cbn [existsb fst] in H.
    destruct (canHandleValue v s).
    + destruct (c depth p v) as [result cs].
      destruct (List.length (errs cs) =? 0)%nat; [discriminate|].
      apply try_variants_keeps_best. discriminate.
    + apply IH, H.
Qed.

(** What the first loop hands over carries no error. *)
Lemma try_variants_inl_clean : forall variants best w,
  try_variants v p depth variants best = inl w -> errs (snd w) = [].
Proof.
  induction variants as [|[s c] variants IH]; intros best w H.
  - discriminate.
  - cbn [try_variants] in H. destruct (canHandleValue v s); [|eapply IH, H].
    destruct (c depth p v) as [result cs].
    destruct (List.length (errs cs) =? 0)%nat; [|eapply IH, H].
    inversion H. reflexivity.
Qed.

(** With an admissible variant, [coerceUnion] passes no error on: the
    errors of the variant selected as best are counted and left behind. *)
Lemma coerceUnion_admissible_no_error : forall variants,
  existsb (fun sc => canHandleValue v (fst sc)) variants = true ->
  errs (snd (coerceUnion v variants p depth)) = [].
Proof.
  intros variants H. unfold coerceUnion.
  pose proof (try_variants_admissible variants H) as Hne.
  destruct (try_variants v p depth variants None) as [w|[b|]] eqn:E.
  - eapply try_variants_inl_clean, E.
  - reflexivity.
  - congruence.
Qed.

End UnionSearch.

Lemma coerceInternal_Union : forall h opts d anyOf p v,
  is_nullish v = false ->
  coerceInternal h opts (Schema d (KUnion anyOf)) 0 p v
  = coerceUnion v (map (fun s => (s, coerceInternal h opts s)) anyOf) p 0.
Proof.
  intros h opts d anyOf p v Hv. cbn [coerceInternal].
  rewrite depth_exceeded_0, Hv. reflexivity.
Qed.

(** C1, as amended. For every Union schema, every input and every
    option set: the first alternative in declared order that the
    pre-filter [canHandleValue] admits and that coerces the input with no
    error ends the search, and [coerceValue] on the union returns that
    alternative's value, no error and that alternative's notes. Every
    alternative before it is either not admitted (and skipped, even if it
    would coerce with no error) or has an error. *)
Theorem union_returns_first_clean_admissible :
  forall h o p d v before a after,
    canHandleValue v a = true ->
    errors (coerceValue h v a o p) = [] ->
    (forall b, In b before -> canHandleValue v b = true ->
               errors (coerceValue h v b o p) <> []) ->
    let r := coerceValue h v (Schema d (KUnion (before ++ a :: after))) o p in
    value_of r = value_of (coerceValue h v a o p)
    /\ errors r = []
    /\ success r = true
    /\ coercions r = coercions (coerceValue h v a o p).
Proof.
  intros h o p d v before a after Ha Hclean Hbefore r.
  destruct (is_nullish v) eqn:Hv.
  { unfold r, coerceValue. cbv zeta.
    rewrite !coerceInternal_nullish by exact Hv. repeat split. }
  unfold coerceValue in Hclean, Hbefore. cbn [errors] in Hclean, Hbefore.
  apply map_eq_nil in Hclean.
  assert (Hb : forall b, In b before -> canHandleValue v b = true ->
                 errs (snd (coerceInternal h (spread defaultOptions o) b 0 p v)) <> []).
  { intros b Hin Hc E. apply (Hbefore b Hin Hc). rewrite E. reflexivity. }
  unfold r, coerceValue. cbv zeta. rewrite coerceInternal_Union by exact Hv.
  unfold coerceUnion.
  rewrite (@try_variants_first_clean h (spread defaultOptions o) v p 0
             before a after None Ha Hclean Hb).
  cbn [fst snd errs notes value_of errors success coercions map List.length Nat.eqb].
  repeat split.
Qed.

(** C1, witness: the number 42 against
    [Union [String; Number(minimum 100); Number; Integer]]. String is not
    admitted, Number(minimum 100) has an error, Number is the first clean
    admissible alternative. *)
Lemma union_returns_first_clean_admissible_witness :
  for_every_host (fun h =>
    let v := VNum 42 in
    let before := [Type_.String; Type_.Number (at_least 100)] in
    let a := Type_.Number no_constraints in
    let after := [Type_.Integer no_constraints] in
    canHandleValue v a = true
    /\ errors (coerceValue h v a noOptions "") = []
    /\ (forall b, In b before -> canHandleValue v b = true ->
                  errors (coerceValue h v b noOptions "") <> [])
    /\ value_of (coerceValue h v (Type_.Union (before ++ a :: after)) noOptions "")
       = VNum 42).
Proof.
  intro h. cbv zeta.
  assert (Hbefore : forall b,
            In b [Type_.String; Type_.Number (at_least 100)] ->
            canHandleValue (VNum 42) b = true ->
            errors (coerceValue h (VNum 42) b noOptions "") <> []).
  { intros b [Hb | [Hb | []]] Hc; subst b; [discriminate Hc | discriminate]. }
  split; [reflexivity|]. split; [reflexivity|]. split; [exact Hbefore|].
  exact (proj1 (@union_returns_first_clean_admissible h noOptions "" None (VNum 42)
                  [Type_.String; Type_.Number (at_least 100)]
                  (Type_.Number no_constraints) [Type_.Integer no_constraints]
                  eq_refl eq_refl Hbefore)).
Defined.

(** C1, counterexample to the claim as stated. The string "true" coerces
    with no error against Boolean (to [true]) and against String (to
    itself); [Union [Boolean; String]] returns the string, the result of
    the later alternative: Boolean is not admitted for a string. *)
Lemma later_alternative_wins :
  ~ exists h, earlier_alternative_wins h (VStr "true") Type_.Boolean Type_.String.
Proof.
  intros [h H]. specialize (H eq_refl eq_refl). discriminate H.
Qed.

(** ** C2: the errors of the variant selected as best *)

(** With an admissible alternative, [coerceValue] on a union reports no
    error and succeeds, whatever the errors of the alternatives. *)
Lemma coerceValue_Union_admissible_no_error : forall h o p d anyOf v,
  is_nullish v = false ->
  existsb (canHandleValue v) anyOf = true ->
  errors (coerceValue h v (Schema d (KUnion anyOf)) o p) = []
  /\ success (coerceValue h v (Schema d (KUnion anyOf)) o p) = true.
Proof.
  intros h o p d anyOf v Hv Hadm. unfold coerceValue. cbv zeta.
  cbn [errors success]. rewrite coerceInternal_Union by exact Hv.
  rewrite coerceUnion_admissible_no_error; [split; reflexivity|].
  rewrite <- Hadm. clear. induction anyOf as [|s l IH]; [reflexivity|].
  cbn [map existsb fst]. rewrite IH. reflexivity.
Qed.

(** C2, the code at the failing input. The string "hi" against
    [Union [String(minLength 3); String(minLength 5)]]: both alternatives
    are admitted and both have an error, the first is selected as best,
    and the result carries the value, the note of the selection, no error
    and [success = true]. The error the selected alternative produces on
    its own is lost. *)
Theorem union_best_variant_errors_are_dropped : forall h,
  let short := VStr "hi" in
  let u := Type_.Union [at_least_chars 3; at_least_chars 5] in
  coerceValue h short u tracking ""
  = {| value_of := VStr "hi";
       success := true;
       errors := [];
       coercions := Some ["selected union variant with 1 errors at "];
       isPartial := false |}
  /\ errors (coerceValue h short (at_least_chars 3) tracking "")
     = too_short h "" "hi" (Some 3%float)
  /\ too_short h "" "hi" (Some 3%float) <> [].
Proof.
  intro h. cbv zeta. repeat split. discriminate.
Qed.

(** ** C3: the path of an error *)

(** C3, the code at the failing input. [{"age": -5}] against
    [Object{age: Number(minimum 0)}]: the result has [success = false]
    and one error, the minimum violation, and its path is the path of the
    top-level call (the empty string), not ["age"]. *)
Theorem nested_error_has_empty_path : forall h,
  coerceValue h (VObj [("age", VNum (-5))]) age_schema noOptions ""
  = {| value_of := VObj [("age", VNum (-5))];
       success := false;
       errors := [ {| path := "";
                      message := "Number below minimum (" ++ Number_toString h 0 ++ ")";
                      expected := Some (">= " ++ Number_toString h 0);
                      received := Some (Number_toString h (-5)) |} ];
       coercions := None;
       isPartial := false |}.
Proof.
  intro h. reflexivity.
Qed.

(** ** C4: string targets *)

(** C4, as amended. For a String target and any string input,
    [coerceValue] returns the string unchanged and reports exactly one
    error for each violated constraint among [minLength], [maxLength] and
    [pattern], in that order; [format] is not consulted: the result is the
    one of the same schema without a format. *)
Theorem string_target_constraints : forall h d o p minLength maxLength pattern format s,
  let r := coerceValue h (VStr s)
             (Schema d (KString minLength maxLength pattern format)) o p in
  value_of r = VStr s
  /\ errors r = (too_short h p s minLength ++ too_long h p s maxLength
                 ++ pattern_mismatch h p s pattern)%list
  /\ coercions r = kept_notes o []
  /\ r = coerceValue h (VStr s) (Schema d (KString minLength maxLength pattern None)) o p.
Proof.
  intros h d o p minLength maxLength pattern format s r. unfold r. clear r.
  split; [|split; [|split]].
  - top_level. unfold coerceString. rewrite !bind_fst. reflexivity.
  - top_level. unfold coerceString, too_short, too_long, pattern_mismatch, pattern_violated.
    destruct minLength as [m1|]; [destruct (PrimFloat.ltb _ m1)|];
      (destruct maxLength as [m2|]; [destruct (PrimFloat.ltb m2 _)|]);
      (destruct pattern as [re|]; [destruct (negb (Str.is_empty re) && _)|]);
      reflexivity.
  - top_level. unfold coerceString, kept_notes, pattern_violated.
    destruct (truthy _); [|reflexivity].
    destruct minLength as [m1|]; [destruct (PrimFloat.ltb _ m1)|];
      (destruct maxLength as [m2|]; [destruct (PrimFloat.ltb m2 _)|]);
      (destruct pattern as [re|]; [destruct (negb (Str.is_empty re) && _)|]);
      reflexivity.
  - reflexivity.
Qed.

(** C4, counterexample to the claim as stated. The string "not-an-email"
    against [String(format "email")] gets no error, on any host. *)
Lemma format_is_not_checked : ~ exists h, format_is_checked h "not-an-email" "email".
Proof.
  intros [h H]. apply H. reflexivity.
Qed.

(** ** C5: completeness *)

Lemma own_property_iff : forall (A : Type) (o : list (string * A)) k,
  Obj.has o k = true <-> In k (map fst o).
Proof.
  intros A o k. unfold Obj.has. induction o as [|[k' v'] o IH]; cbn.
  - split; [discriminate | contradiction].
  - destruct (String.eqb k' k) eqn:E.
    + apply String.eqb_eq in E. split; [left; exact E | reflexivity].
    + apply String.eqb_neq in E. rewrite IH. split; [right; assumption|].
      intros [H|H]; [contradiction | exact H].
Qed.

Lemma has_property_in_value : forall h v key,
  has_property h v key = true <-> in_value h v key.
Proof.
  intros h v key. destruct v; cbn [has_property in_value];
    try (split; [discriminate | contradiction]).
  - rewrite !orb_true_iff, String.eqb_eq.
    assert (Hi : match Obj.array_index key with
                 | Some i => (i <? N.of_nat (List.length items))%N
                 | None => false
                 end = true
                 <-> exists i, Obj.array_index key = Some i
                               /\ (i < N.of_nat (List.length items))%N).
    { destruct (Obj.array_index key) as [i|].
      - rewrite N.ltb_lt. split; [intro H; exists i; split; [reflexivity | exact H]|].
        intros [i' [E H]]. inversion E. subst. exact H.
      - split; [discriminate | intros [i' [E _]]; discriminate]. }
    rewrite Hi. tauto.
  - rewrite orb_true_iff, own_property_iff. reflexivity.
Qed.

Lemma missing_required_iff : forall h properties required v,
  missing_required h properties required v = true
  <-> exists key, In key (map fst properties) /\ In key required
                  /\ ~ in_value h v key.
Proof.
  intros h properties required v. unfold missing_required. rewrite existsb_exists.
  split; intros [key [Hin H]]; exists key; split; try exact Hin.
  - apply andb_true_iff in H. destruct H as [Hr Hp].
    split; [apply eqb_words, Hr|]. rewrite <- has_property_in_value.
    apply negb_true_iff in Hp. congruence.
  - destruct H as [Hr Hp]. apply andb_true_iff.
    split; [apply eqb_words, Hr|]. apply negb_true_iff.
    rewrite <- has_property_in_value in Hp.
    destruct (has_property h v key); [exfalso; apply Hp; reflexivity | reflexivity].
Qed.

Lemma isComplete_incomplete : forall h v s, isComplete h v s = false <-> incomplete h v s.
Proof.
  intros h v [d k]. unfold isComplete, incomplete. cbn [kind_of].
  destruct k.
  1: { rewrite <- missing_required_iff.
       destruct v; cbn [typeof is_nullish negb orb String.eqb Ascii.eqb Bool.eqb not_an_object];
         try (split; [intros _; left; exact I | reflexivity]);
         destruct (missing_required _ _ _ _); split; intro H; auto;
         try discriminate; destruct H as [H|H]; try contradiction; discriminate. }
  1: { destruct v as [| | | | |[|x l]|];
         try (split; [intros _; left; intros items0 E; discriminate | reflexivity]).
       - split; [intros _; right; reflexivity | reflexivity].
       - split; [discriminate|].
         intros [H|H]; [exfalso; exact (H _ eq_refl) | discriminate]. }
  all: destruct v; cbn; split; intro H; auto; try discriminate;
    destruct H as [H|H]; discriminate.
Qed.

(** C5, as amended. [coerceValue] reports [isPartial = true] exactly
    when [allowPartials] is set and the input is incomplete by these
    rules: for an Object target the input is not an object or array, or a
    declared property that is required is not in the input (the input
    neither has it nor inherits it: [key in value] is false); for an
    Array target the input is not an array, or is the empty array; for
    any other target the input is null or undefined. This holds whatever
    the other options are, [maxDepth] included, of either type. *)
Theorem isPartial_characterised :
  forall h (L : Type) (limit : Limit L) v s (o : CoercionOptionsOf L) p,
    isPartial (coerceValue h v s o p) = true
    <-> allowPartials o = Some true /\ incomplete h v s.
Proof.
  intros h L limit v s o p. unfold coerceValue. cbn [isPartial].
  rewrite andb_true_iff, negb_true_iff, isComplete_incomplete.
  assert (Ha : truthy (allowPartials (spread defaultOptions o)) = true
               <-> allowPartials o = Some true).
  { cbn. destruct (allowPartials o) as [[|]|]; cbn; split; congruence. }
  rewrite Ha. reflexivity.
Qed.

(** C5, counterexample to the claim as stated. With [allowPartials] set,
    the string "x" against [Array(String)] and the number 5 against an
    Object with no required field are reported partial; by the rules of
    the claim neither is incomplete: no array is empty, no required field
    is absent, and no input is absent. *)
Lemma isPartial_outside_the_rules :
  (~ exists h, isPartial_follows_the_rules h (VStr "x") (Type_.Array Type_.String)
                 partial_options)
  /\ (~ exists h, isPartial_follows_the_rules h (VNum 5) (Type_.Object [] [])
                    partial_options).
Proof.
  split; intros [h H]; discriminate H.
Qed.

(** ** C6: boolean targets *)

(** C6, as amended. For a Boolean target, [coerceValue] returns a
    boolean unchanged; maps a string whose lower-case form is "true", "1"
    or "yes" to [true] and one whose lower-case form is "false", "0", "no"
    or empty to [false]; maps a number to whether it differs from zero;
    and for every other input that is not null or undefined and on which
    [String] is defined (any other string, an object with no [toString]
    property of its own, an array whose elements [String] is defined on)
    returns the input unchanged with one cannot-coerce error, which
    carries [String] of the input. On the other objects and arrays the
    call of [String] for the error throws. *)
Theorem boolean_target_rules : forall h d o p,
  let R v := coerceValue h v (Schema d KBoolean) o p in
  (forall b, value_of (R (VBool b)) = VBool b /\ errors (R (VBool b)) = [])
  /\ (forall s, In (Str.toLowerCase s) true_words ->
        value_of (R (VStr s)) = VBool true /\ errors (R (VStr s)) = [])
  /\ (forall s, In (Str.toLowerCase s) false_words ->
        value_of (R (VStr s)) = VBool false /\ errors (R (VStr s)) = [])
  /\ (forall n, value_of (R (VNum n)) = VBool (negb (PrimFloat.eqb n 0))
                /\ errors (R (VNum n)) = [])
  /\ (forall v, no_boolean_rule v -> String_defined v = true ->
        value_of (R v) = v /\ errors (R v) = [boolean_error h p v]).
Proof.
  intros h d o p R. unfold R. clear R.
  split; [|split; [|split; [|split]]].
  - intro b. top_level. split; reflexivity.
  - intros s H. top_level. unfold coerceBoolean.
    apply eqb_words in H. cbn [existsb true_words] in H. rewrite orb_false_r in H.
    rewrite <- !orb_assoc. rewrite H. split; reflexivity.
  - intros s H. top_level. unfold coerceBoolean.
    destruct (_ || _ || _) eqn:Ht.
    + exfalso. unfold false_words in H. cbn [In] in H.
      rewrite !orb_true_iff in Ht. rewrite !String.eqb_eq in Ht.
      intuition congruence.
    + apply eqb_words in H. cbn [existsb false_words] in H. rewrite orb_false_r in H.
      rewrite <- !orb_assoc. rewrite H. split; reflexivity.
  - intro n. top_level. split; reflexivity.
  - intros v H _. destruct v; cbn [no_boolean_rule] in H; try contradiction.
    + top_level. unfold coerceBoolean.
      assert (Hw : forall l, ~ In (Str.toLowerCase s) l ->
                             existsb (String.eqb (Str.toLowerCase s)) l = false).
      { intros l Hl. destruct (existsb _ l) eqn:E; [|reflexivity].
        apply eqb_words in E. contradiction. }
      pose proof (Hw true_words) as Ht. pose proof (Hw false_words) as Hf.
      cbn [existsb true_words false_words] in Ht, Hf.
      rewrite orb_false_r in Ht, Hf. rewrite <- !orb_assoc.
      rewrite Ht, Hf by (intro; apply H; apply in_or_app; auto).
      split; reflexivity.
    + top_level. split; reflexivity.
    + top_level. split; reflexivity.
Qed.

(** C6, witness: "YES" is a true word, "No" a false word, and "maybe"
    and an array of an object and null have no rule. *)
Lemma boolean_target_rules_witness :
  for_every_host (fun h =>
    let R v := coerceValue h v Type_.Boolean noOptions "" in
    (In (Str.toLowerCase "YES") true_words /\ value_of (R (VStr "YES")) = VBool true)
    /\ (In (Str.toLowerCase "No") false_words /\ value_of (R (VStr "No")) = VBool false)
    /\ (no_boolean_rule (VStr "maybe") /\ String_defined (VStr "maybe") = true
        /\ errors (R (VStr "maybe")) = [boolean_error h "" (VStr "maybe")])
    /\ (no_boolean_rule (VArr [VObj [("a", VNum 1)]; VNull])
        /\ String_defined (VArr [VObj [("a", VNum 1)]; VNull]) = true
        /\ errors (R (VArr [VObj [("a", VNum 1)]; VNull]))
           = [boolean_error h "" (VArr [VObj [("a", VNum 1)]; VNull])])).
Proof.
  intro h. cbv zeta.
  destruct (@boolean_target_rules h None noOptions "") as [_ [Ht [Hf [_ Ho]]]].
  assert (H1 : In (Str.toLowerCase "YES") true_words) by (cbn; auto).
  assert (H2 : In (Str.toLowerCase "No") false_words) by (cbn; auto).
  assert (H3 : no_boolean_rule (VStr "maybe")).
  { cbn. intros H. repeat (destruct H as [H|H]; [discriminate H|]). exact H. }
  split; [split; [exact H1 | exact (proj1 (Ht "YES" H1))]|].
  split; [split; [exact H2 | exact (proj1 (Hf "No" H2))]|].
  split; [split; [exact H3 | split; [reflexivity
                                     | exact (proj2 (Ho (VStr "maybe") H3 eq_refl))]]|].
  split; [exact I|]. split; [reflexivity|].
  exact (proj2 (Ho (VArr [VObj [("a", VNum 1)]; VNull]) I eq_refl)).
Defined.

(** C6, counterexample to the claim as stated. Null is an input without
    a rule of its own for a Boolean target, and it is accepted: no error
    is emitted, on any host. *)
Lemma no_rule_for_null : ~ exists h, rejected_unchanged h VNull.
Proof.
  intros [h [H _]]. apply H. reflexivity.
Qed.

(** ** C7: the [strict] option *)

(** The walk reads three options only. *)
Lemma coerceInternal_reads : forall h o1 o2,
  allowPartials o1 = allowPartials o2 ->
  useDefaults o1 = useDefaults o2 ->
  maxDepth o1 = maxDepth o2 ->
  forall s depth p v,
    coerceInternal h o1 s depth p v = coerceInternal h o2 s depth p v.
Proof.
  intros h [ap1 ud1 st1 md1 tc1] [ap2 ud2 st2 md2 tc2] Hap Hud Hmd.
  cbn in Hap, Hud, Hmd. subst ap2 ud2 md2.
  intros s depth p v. reflexivity.
Qed.

(** C7. The [strict] option has no effect: for every input, schema,
    path and options, [coerceValue] returns the same result (value,
    success, errors, coercions, isPartial) whatever [strict] is set to,
    absent, true or false. *)
Theorem strict_is_never_read : forall h v s o p b1 b2,
  coerceValue h v s (with_strict b1 o) p = coerceValue h v s (with_strict b2 o) p.
Proof.
  intros h v s o p b1 b2. unfold coerceValue. cbv zeta.
  rewrite (@coerceInternal_reads h (spread defaultOptions (with_strict b1 o))
             (spread defaultOptions (with_strict b2 o)))
    by reflexivity.
  reflexivity.
Qed.

Example strict_still_parses : forall h,
  value_of (coerceValue h (VStr "42") (Type_.Integer no_constraints)
              (with_strict (Some true) noOptions) "") = VNum 42.
Proof. intro h. reflexivity. Qed.

Example strict_still_truncates : forall h,
  value_of (coerceValue h (VNum (7 / 2)) (Type_.Integer no_constraints)
              (with_strict (Some true) noOptions) "") = VNum 3.
Proof. intro h. reflexivity. Qed.

(** ** C8: the partial entry point *)

Lemma override_idem : forall (A : Type) (d o : option A),
  override d (override d o) = override d o.
Proof. intros A d [x|]; destruct d; reflexivity. Qed.

Lemma spread_parse_forced : forall options options',
  forced_from options options' ->
  spread_parse defaultParseOptions (force_partial (spread_parse defaultParseOptions options))
  = spread_parse defaultParseOptions options'.
Proof.
  intros [a1 a2 a3 a4 a5 a6 a7 a8 a9 a10 a11 a12] [b1 b2 b3 b4 b5 b6 b7 b8 b9 b10 b11 b12] H.
  unfold forced_from in H. cbn in H.
  destruct H as [H7 [H3 [H1 [H2 [H4 [H5 [H6 [H8 [H9 [H10 [H11 H12]]]]]]]]]]]. subst.
  unfold spread_parse, force_partial. cbn [allowMarkdownJson allowFixes allowAsString
    findAllJsonObjects normalizeUnicodeQuotes p_maxDepth p_allowPartials p_useDefaults
    p_strict p_trackCoercions filterChainOfThought_opt returnAllCandidates].
  rewrite !override_idem. reflexivity.
Qed.

(** C8. For every response, schema and options, and whatever the
    extractor and the chain-of-thought filter are,
    [parsePartialResponse(response, schema, options)] returns the result
    of [parseResponse(response, schema, options')] for every [options']
    that has [allowPartials] and [allowAsString] set to true and each of
    the other ten fields as [options] has it. *)
Theorem parsePartialResponse_forces_two_options :
  forall h extractJson hasChainOfThought filterChainOfThought response s options options',
    forced_from options options' ->
    parsePartialResponse h extractJson hasChainOfThought filterChainOfThought response s
      options
    = parseResponse h extractJson hasChainOfThought filterChainOfThought response s
        options'.
Proof.
  intros h ex hc fc response s options options' H.
  unfold parsePartialResponse, parseResponse. cbv zeta.
  rewrite (spread_parse_forced H). reflexivity.
Qed.

(** C8, witness: options that switch [allowAsString] and the fixes off
    and set a depth limit, and the same options with the two fields forced. *)
Lemma parsePartialResponse_forces_two_options_witness :
  for_every_host (fun h =>
    let rx := silent_regexps (fun s => s) in
    let options :=
      {| allowMarkdownJson := None; allowFixes := Some false; allowAsString := Some false;
         findAllJsonObjects := None; normalizeUnicodeQuotes := None;
         p_maxDepth := Some 3%Z; p_allowPartials := None; p_useDefaults := None;
         p_strict := None; p_trackCoercions := None; filterChainOfThought_opt := None;
         returnAllCandidates := None |} in
    let options' :=
      {| allowMarkdownJson := None; allowFixes := Some false; allowAsString := Some true;
         findAllJsonObjects := None; normalizeUnicodeQuotes := None;
         p_maxDepth := Some 3%Z; p_allowPartials := Some true; p_useDefaults := None;
         p_strict := None; p_trackCoercions := None; filterChainOfThought_opt := None;
         returnAllCandidates := None |} in
    forced_from options options'
    /\ parsePartialResponse h (extractJson h rx) (hasChainOfThought rx)
         (filterChainOfThought rx) "[]" (Type_.Array Type_.String) options
       = parseResponse h (extractJson h rx) (hasChainOfThought rx)
           (filterChainOfThought rx) "[]" (Type_.Array Type_.String) options').
Proof.
  intro h. cbv zeta.
  set (options := Build_ParseOptions _ _ (Some false) _ _ _ _ _ _ _ _ _).
  set (options' := Build_ParseOptions _ _ (Some true) _ _ _ _ _ _ _ _ _).
  assert (H : forced_from options options') by (repeat split).
  split; [exact H|].
  exact (@parsePartialResponse_forces_two_options h
           (extractJson h (silent_regexps (fun s => s)))
           (hasChainOfThought (silent_regexps (fun s => s)))
           (filterChainOfThought (silent_regexps (fun s => s)))
           "[]" (Type_.Array Type_.String) options options' H).
Defined.

(** ** C9: null at the top level *)

(** At the top level of a call whose [maxDepth] is not negative, the
    depth guard does not fire. *)
Lemma within_maxDepth_0 : forall o : CoercionOptionsOf Z,
  (forall m, maxDepth o = Some m -> (0 <= m)%Z) ->
  depth_exceeded 0 (maxDepth (spread defaultOptions o)) = false.
Proof.
  intros o H. unfold spread. cbn [maxDepth defaultOptions].
  destruct (maxDepth o) as [m|] eqn:E; cbn; [|reflexivity].
  apply Z.ltb_ge. apply H. reflexivity.
Qed.

(** C9, as amended. For a null or undefined input, any schema, any path
    and any options in which [allowPartials] is absent or false and
    [maxDepth] is absent or not negative, [coerceValue] returns the value
    null, no error, [success = true] and [isPartial = false] (and an
    empty note list when notes are kept). [maxDepth] is any integer
    here. *)
Theorem top_level_null_is_accepted : forall h s (o : CoercionOptionsOf Z) p v,
  is_nullish v = true ->
  truthy (allowPartials o) = false ->
  (forall m, maxDepth o = Some m -> (0 <= m)%Z) ->
  coerceValue h v s o p =
  {| value_of := VNull; success := true; errors := [];
     coercions := kept_notes o []; isPartial := false |}.
Proof.
  intros h [d k] o p v Hv Hp Hm. unfold coerceValue. cbv zeta.
  assert (E : coerceInternal h (spread defaultOptions o) (Schema d k) 0 p v
              = (VNull, no_calls)).
  { cbn [coerceInternal]. rewrite (within_maxDepth_0 o Hm), Hv.
    unfold coerceNull. rewrite Hv. reflexivity. }
  rewrite E.
  assert (Ha : truthy (allowPartials (spread defaultOptions o)) = false).
  { unfold spread. cbn. destruct (allowPartials o) as [[|]|]; try discriminate; reflexivity. }
  rewrite Ha. reflexivity.
Qed.

(** C9, witness: null and undefined against an Object schema with a
    required field, and null against a non-nullable String, with a
    [maxDepth] of three levels. *)
Lemma top_level_null_witness :
  for_every_host (fun h =>
    let s := Type_.Object [("name", Type_.String)] ["name"] in
    let accepted := {| value_of := VNull; success := true; errors := [];
                       coercions := None; isPartial := false |} in
    is_nullish VNull = true /\ is_nullish VUndefined = true
    /\ truthy (allowPartials three_levels) = false
    /\ (forall m, maxDepth three_levels = Some m -> (0 <= m)%Z)
    /\ coerceValue h VNull s three_levels "" = accepted
    /\ coerceValue h VUndefined s three_levels "" = accepted
    /\ coerceValue h VNull Type_.String three_levels "" = accepted).
Proof.
  intro h. cbv zeta.
  assert (Hm : forall m, maxDepth three_levels = Some m -> (0 <= m)%Z).
  { intros m E. inversion E. lia. }
  split; [reflexivity|]. split; [reflexivity|]. split; [reflexivity|].
  split; [exact Hm|]. split; [|split].
  - exact (@top_level_null_is_accepted h (Type_.Object [("name", Type_.String)] ["name"])
             three_levels "" VNull eq_refl eq_refl Hm).
  - exact (@top_level_null_is_accepted h (Type_.Object [("name", Type_.String)] ["name"])
             three_levels "" VUndefined eq_refl eq_refl Hm).
  - exact (@top_level_null_is_accepted h Type_.String three_levels "" VNull
             eq_refl eq_refl Hm).
Defined.

(** C9, counterexample to the claim as stated. With [maxDepth: -1] and
    [allowPartials] left absent, null against a String schema is not
    accepted: the depth guard of [coerceInternal] comes before the null
    guard and fires at depth 0, so the result is not a success and its
    one error says that the maximum depth is exceeded, on every host. *)
Lemma null_below_the_root_is_rejected :
  truthy (allowPartials below_the_root) = false
  /\ (~ exists h, null_is_accepted h VNull Type_.String below_the_root)
  /\ for_every_host (fun h =>
       let r := coerceValue h VNull Type_.String below_the_root "" in
       success r = false /\ map message (errors r) = ["Maximum depth exceeded"]).
Proof.
  split; [reflexivity|]. split.
  - intros [h [_ [H _]]]. discriminate H.
  - intro h. split; reflexivity.
Qed.

(** ** C10: strings against numeric targets *)

Lemma validateNumber_fst : forall h n c, fst (validateNumber h n c) = n.
Proof.
  intros. unfold validateNumber. repeat rewrite bind_fst. reflexivity.
Qed.

Lemma validateNumber_only_errors : forall h n c,
  only_errors constraint_message (validateNumber h n c).
Proof.
  intros h n c. unfold validateNumber.
  repeat (apply only_errors_bind; [| intros _]);
    try apply only_errors_ret;
    match goal with
    | |- only_errors _ (match ?x with _ => _ end) =>
        destruct x; [apply only_errors_check | apply only_errors_ret]
    end; eexists; simpl; reflexivity.
Qed.

Lemma coerceNumber_string : forall h o p s (isInt : bool) c d,
  let parsed := if isInt then parseInt s else parseFloat s in
  let r := coerceValue h (VStr s)
             (Schema d (if isInt then KInteger c else KNumber c)) o p in
  if PrimFloat.is_nan parsed
  then not_parsed h o p s (if isInt then "integer" else "number") r
  else parsed_as h o p s parsed c r.
Proof.
  intros h o p s isInt c d parsed r.
  assert (Hr : coerceInternal h (spread defaultOptions o)
                 (Schema d (if isInt then KInteger c else KNumber c)) 0 p (VStr s)
               = coerceNumber h (VStr s) isInt c p).
  { destruct isInt; cbn [coerceInternal]; rewrite depth_exceeded_0; reflexivity. }
  unfold r, coerceValue. cbv zeta. rewrite Hr. clear Hr r.
  unfold coerceNumber. fold parsed.
  destruct (PrimFloat.is_nan parsed) eqn:Hnan; cbn [negb].
  - unfold not_parsed, cannot_coerce_error. destruct isInt; simpl; auto.
  - destruct (validateNumber_only_errors h parsed c) as [Hnotes Herrs].
    pose proof (validateNumber_fst h parsed c) as Hfst.
    cbv zeta. repeat rewrite bind_fst. repeat rewrite bind_snd. rewrite Hfst.
    simpl. rewrite Hnotes. repeat split.
    + rewrite app_nil_r. reflexivity.
    + intros e name Hin. apply in_map_iff in Hin. destruct Hin as [c0 [He Hin]].
      rewrite app_nil_r in Hin.
      rewrite Forall_forall in Herrs. destruct (Herrs c0 Hin) as [rest Hm].
      subst e. simpl. rewrite Hm. simpl. discriminate.
    + subst c. reflexivity.
    + subst c. reflexivity.
Qed.

(** C10, as amended. For an Integer target, a string whose front (after
    white space and an optional sign) is a decimal integer is coerced to
    that integer, as a double, with the note of the parse kept when notes
    are tracked; it gets no cannot-coerce error, and no error at all when
    the schema has no constraint, but the parsed number is validated and
    each violated constraint of the schema is reported. A string with no
    integer at its front is returned unchanged with one cannot-coerce
    error. The same holds for a Number target and the decimal literal at
    the front of the string. *)
Theorem string_to_number_by_prefix : forall h d c o p s,
  match int_prefix s with
  | Some (neg, z) =>
      parsed_as h o p s (int_value neg z) c
        (coerceValue h (VStr s) (Schema d (KInteger c)) o p)
  | None =>
      not_parsed h o p s "integer" (coerceValue h (VStr s) (Schema d (KInteger c)) o p)
  end
  /\ match float_prefix s with
     | Some (neg, lit) =>
         parsed_as h o p s (decimal_value neg lit) c
           (coerceValue h (VStr s) (Schema d (KNumber c)) o p)
     | None =>
         not_parsed h o p s "number" (coerceValue h (VStr s) (Schema d (KNumber c)) o p)
     end.
Proof.
  intros h d c o p s. split.
  - pose proof (@coerceNumber_string h o p s true c d) as H. cbv beta iota zeta in H.
    rewrite parseInt_nan in H. unfold parseInt in H.
    destruct (int_prefix s) as [[neg z]|]; exact H.
  - pose proof (@coerceNumber_string h o p s false c d) as H. cbv beta iota zeta in H.
    rewrite parseFloat_nan in H. unfold parseFloat in H.
    destruct (float_prefix s) as [[neg lit]|]; exact H.
Qed.

Example integer_42abc : forall h,
  let r := coerceValue h (VStr "42abc") (Type_.Integer no_constraints) tracking "" in
  value_of r = VNum 42 /\ errors r = []
  /\ coercions r = Some ["parsed string to number at "].
Proof. intro h. repeat split. Qed.

Example integer_abc : forall h,
  let r := coerceValue h (VStr "abc") (Type_.Integer no_constraints) tracking "" in
  value_of r = VStr "abc"
  /\ errors r = [cannot_coerce_error h "" (VStr "abc") "integer"].
Proof. intro h. repeat split. Qed.

(** C10, counterexample to the claim as stated. "42abc" has the integer
    prefix 42; against [Integer(minimum 100)] it is coerced to 42 and an
    error is reported, on any host. *)
Lemma prefix_can_violate_a_constraint :
  ~ exists h, prefix_is_accepted_without_error h "42abc" (at_least 100).
Proof.
  intros [h H]. destruct (H false 42%Z eq_refl) as [_ He]. discriminate He.
Qed.

(** * Further properties of the code *)

Lemma object_body_fst : forall h (opts : CoercionOptions) props req addl p depth o,
  exists fields, fst (object_body h opts props req addl p depth o) = VObj fields.
Proof.
  intros. unfold object_body. rewrite !bind_fst. eexists. reflexivity.
Qed.

Lemma success_errs : forall h v s o p,
  success (coerceValue h v s o p) = true <->
  errs (snd (coerceInternal h (spread defaultOptions o) s 0 p v)) = [].
Proof.
  intros. unfold coerceValue. cbn [success]. rewrite length_map.
  destruct (errs _); cbn; split; intro H; congruence.
Qed.

Lemma coerceObject_shape : forall h (opts : CoercionOptions) v props req addl p depth,
  errs (snd (coerceObject h opts v props req addl p depth)) = [] ->
  exists fields, fst (coerceObject h opts v props req addl p depth) = VObj fields.
Proof.
  intros h opts v props req addl p depth H. unfold coerceObject in *.
  destruct v; try discriminate H;
    try (cbv zeta; rewrite ?bind_fst; apply object_body_fst).
  destruct (JSON_parse h s) as [[]|]; try discriminate H;
    cbv zeta; rewrite ?bind_fst; apply object_body_fst.
Qed.

Theorem success_gives_the_shape : forall h d k o p v,
  is_nullish v = false ->
  success (coerceValue h v (Schema d k) o p) = true ->
  shape_of k (value_of (coerceValue h v (Schema d k) o p)).
Proof.
  intros h d k o p v Hv Hs. apply success_errs in Hs.
  unfold coerceValue. cbn [value_of]. revert Hs.
  cbn [coerceInternal]. rewrite depth_exceeded_0, Hv.
  destruct k; cbn [shape_of]; intro Hs; try exact I.
  - (* Object *) eapply coerceObject_shape, Hs.
  - (* Array *) unfold coerceArray. destruct v; rewrite ?bind_fst; eexists; reflexivity.
  - (* Intersect *)
    unfold coerceIntersect in *. destruct allOf as [|a l]; [left; reflexivity|right].
    eapply coerceObject_shape, Hs.
  - (* Literal *)
    unfold coerceLiteral in *. destruct (strict_eq v const) eqn:E; [right; exact E|].
    destruct (String.eqb _ _); [left; reflexivity | discriminate Hs].
  - (* Enum *)
    unfold coerceEnum, enum_error in *. destruct (includes enum v) eqn:E; [exact E|].
    destruct v; try discriminate Hs.
    destruct (find_ignoring_case enum s) as [found|] eqn:F; [|discriminate Hs].
    unfold find_ignoring_case in F. apply find_some in F. destruct F as [Hin Hf].
    cbn [fst bind addCoercion ret]. unfold includes. apply existsb_exists.
    exists found. split; [exact Hin|]. destruct found; try discriminate Hf.
    cbn. apply String.eqb_refl.
  - (* String *)
    unfold coerceString. destruct v; rewrite ?bind_fst; try discriminate Hv;
      eexists; reflexivity.
  - (* Number *)
    unfold coerceNumber, cannot_coerce_number in *.
    destruct v; try discriminate Hs; rewrite ?bind_fst; try (eexists; reflexivity).
    destruct (negb _); [rewrite ?bind_fst; eexists; reflexivity | discriminate Hs].
  - (* Integer *)
    unfold coerceNumber, cannot_coerce_number in *.
    destruct v; try discriminate Hs; rewrite ?bind_fst; try (eexists; reflexivity).
    destruct (negb _); [rewrite ?bind_fst; eexists; reflexivity | discriminate Hs].
  - (* Boolean *)
    unfold coerceBoolean, cannot_coerce_boolean in *.
    destruct v; try discriminate Hs; try (eexists; reflexivity).
    destruct (_ || _ || _); [eexists; reflexivity|].
    destruct (_ || _ || _ || _); [eexists; reflexivity | discriminate Hs].
  - (* Null *)
    unfold coerceNull. rewrite Hv. destruct (truthy _); reflexivity.
  - (* Record *)
    unfold coerceRecord in *. destruct v; try discriminate Hs.
    rewrite bind_fst. eexists. reflexivity.
  - (* Tuple *)
    unfold coerceTuple in *. destruct v; try discriminate Hs.
    rewrite bind_fst. eexists. reflexivity.
Qed.

(** ** Arrays and tuples *)



Lemma tuple_items_length : forall p depth items value i,
  List.length (fst (tuple_items p depth i items value)) = List.length items.
Proof.
  intros p depth items. induction items as [|[s c] l IH]; intros value i; [reflexivity|].
  cbn [tuple_items]. rewrite !bind_fst. cbn [ret fst List.length]. rewrite IH. reflexivity.
Qed.

Lemma tuple_items_nth : forall p depth (items : list (schema * coercer)) value i j sub c x,
  nth_error items j = Some (sub, c) ->
  nth_error value j = Some x ->
  nth_error (fst (tuple_items p depth i items value)) j
  = Some (fst (c (S depth) (index_path p (i + j)) x)).
Proof.
  intros p depth items. induction items as [|[s0 c0] l IH]; intros value i j sub c x Hi Hv.
  - destruct j; discriminate Hi.
  - cbn [tuple_items]. rewrite !bind_fst. cbn [ret fst].
    destruct value as [|y value]; [destruct j; discriminate Hv|].
    destruct j as [|j]; cbn [nth_error] in *.
    + inversion Hi. inversion Hv. subst. rewrite Nat.add_0_r. reflexivity.
    + cbn [tl]. rewrite (IH value (S i) j sub c x Hi Hv).
      replace (S i + j) with (i + S j) by lia. reflexivity.
Qed.

(** The result of a Tuple target for a plain array input is made of
    one element per declared position, followed by the elements of the
    input beyond the declared positions, as they are, unless
    [additionalItems] is [false]: then they are dropped. A declared
    position the input fills holds the coercion of the element of the
    input against the item schema of the position, one level down, at the
    path of the position. *)
Theorem tuple_target_keeps_the_extras : forall h d items additionalItems o p elements,
  plain h (VArr elements) = true ->
  plain_properties h (Schema d (KTuple items additionalItems)) = true ->
  exists head,
    value_of (coerceValue h (VArr elements) (Schema d (KTuple items additionalItems)) o p)
    = VArr (head ++ match additionalItems with
                    | AddlBool false => []
                    | _ => skipn (List.length items) elements
                    end)
    /\ List.length head = List.length items
    /\ (forall i item x,
          nth_error items i = Some item ->
          nth_error elements i = Some x ->
          nth_error head i
          = Some (fst (coerceInternal h (spread defaultOptions o) item 1
                         (index_path p i) x))).
Proof.
  intros h d items additionalItems o p elements _ _.
  unfold coerceValue. cbn [value_of coerceInternal].
  rewrite depth_exceeded_0. cbn [is_nullish]. unfold coerceTuple.
  rewrite bind_fst. cbn [ret fst]. eexists. split; [|split].
  - f_equal. f_equal. rewrite length_map.
    destruct additionalItems as [|[|]|sub]; reflexivity.
  - rewrite tuple_items_length, length_map. reflexivity.
  - intros i item x Hi Hx.
    apply (@tuple_items_nth p 0 _ elements 0 i item
             (coerceInternal h (spread defaultOptions o) item) x); [|exact Hx].
    rewrite nth_error_map, Hi. reflexivity.
Qed.

(** ** String targets and values that are not strings *)

(** A String target never rejects a value: an input that is not a string
    (and not null or undefined) is turned into a string, with one note and
    no error. Numbers and booleans are printed, arrays and objects are
    JSON-encoded. *)
Theorem string_target_stringifies : forall h d minLength maxLength pattern format o p v,
  is_nullish v = false ->
  (forall s, v <> VStr s) ->
  let r := coerceValue h v (Schema d (KString minLength maxLength pattern format)) o p in
  value_of r = VStr match v with
                    | VArr _ | VObj _ => JSON_stringify h v
                    | _ => ToString h v
                    end
  /\ errors r = []
  /\ success r = true
  /\ coercions r = kept_notes o ["coerced " ++ typeof v ++ " to string at " ++ p].
Proof.
  intros h d minLength maxLength pattern format o p v Hv Hs r. unfold r, coerceValue.
  cbn [value_of errors success coercions coerceInternal].
  rewrite depth_exceeded_0, Hv. unfold coerceString, kept_notes.
  destruct v; try discriminate Hv; try (exfalso; eapply Hs; reflexivity);
    repeat split.
Qed.

(** ** Optional *)

(** An Optional schema is transparent: value, errors, success and notes
    are those of the inner schema, for every input. *)
Theorem optional_is_transparent : forall h d item o p v,
  let r := coerceValue h v (Schema d (KOptional item)) o p in
  let r' := coerceValue h v item o p in
  value_of r = value_of r' /\ errors r = errors r'
  /\ success r = success r' /\ coercions r = coercions r'.
Proof.
  intros h d item o p v r r'. unfold r, r', coerceValue. cbv zeta.
  cbn [value_of errors success coercions].
  destruct (is_nullish v) eqn:Hv.
  - rewrite !coerceInternal_nullish by exact Hv. repeat split.
  - assert (E : coerceInternal h (spread defaultOptions o) (Schema d (KOptional item)) 0 p v
                = coerceInternal h (spread defaultOptions o) item 0 p v).
    { cbn [coerceInternal]. rewrite depth_exceeded_0, Hv. unfold coerceOptional.
      rewrite Hv. reflexivity. }
    rewrite E. repeat split.
Qed.

(** ** Tracking *)

(** [trackCoercions] only decides whether the notes are handed out: the
    value, the errors, [success] and [isPartial] do not depend on it, and
    when it is not set no note list is returned at all. *)
Theorem tracking_only_observes : forall h v s o p b1 b2,
  let r1 := coerceValue h v s (with_tracking b1 o) p in
  let r2 := coerceValue h v s (with_tracking b2 o) p in
  value_of r1 = value_of r2 /\ errors r1 = errors r2
  /\ success r1 = success r2 /\ isPartial r1 = isPartial r2
  /\ (coercions r1 = None <-> truthy b1 = false).
Proof.
  intros h v s o p b1 b2 r1 r2. unfold r1, r2, coerceValue. cbv zeta.
  cbn [value_of errors success isPartial coercions].
  rewrite (@coerceInternal_reads h (spread defaultOptions (with_tracking b1 o))
             (spread defaultOptions (with_tracking b2 o))) by reflexivity.
  repeat split; cbn; destruct b1 as [[|]|]; try discriminate; reflexivity.
Qed.

(** ** The last resort of the union search *)

Lemma try_variants_none : forall h opts v p depth anyOf best,
  existsb (canHandleValue v) anyOf = false ->
  try_variants v p depth (map (fun s => (s, coerceInternal h opts s)) anyOf) best
  = inr best.
Proof.
  intros h opts v p depth anyOf. induction anyOf as [|a l IH]; intros best H.
  - reflexivity.
  - cbn [existsb] in H. apply orb_false_iff in H. destruct H as [Ha Hl].
    cbn [map try_variants]. rewrite Ha. apply IH, Hl.
Qed.

(** When the pre-filter admits no alternative, the first alternative is
    forced: the union returns its value and reports its errors, and adds
    the note of the forcing after its notes. This is for a plain value
    and an alternative with plain properties, on which the coercion to
    the first alternative returns; were it to throw, the union would go
    on to the next alternative. *)
Theorem union_forces_the_first_alternative : forall h d a rest o p v,
  plain h v = true ->
  plain_properties h a = true ->
  is_nullish v = false ->
  existsb (canHandleValue v) (a :: rest) = false ->
  let r := coerceValue h v (Schema d (KUnion (a :: rest))) o p in
  let r' := coerceValue h v a o p in
  value_of r = value_of r' /\ errors r = errors r' /\ success r = success r'
  /\ coercions r
     = match coercions r' with
       | Some l => Some (l ++ [("forced union variant at " ++ p)%string])%list
       | None => None
       end.
Proof.
  intros h d a rest o p v _ _ Hv Hnone r r'. unfold r, r', coerceValue. cbv zeta.
  cbn [value_of errors success coercions].
  rewrite coerceInternal_Union by exact Hv. unfold coerceUnion.
  rewrite try_variants_none by exact Hnone. cbn [map].
  rewrite !bind_fst, !bind_snd. cbn [addCoercion ret fst snd calls_app notes errs].
  rewrite !app_nil_r. destruct (truthy _); repeat split.
Qed.

(** ** Property lists *)

Section ObjFacts.

Variable A : Type.
Implicit Types (o : list (string * A)) (k : string) (v : A).

Lemma has_In : forall o k, Obj.has o k = true <-> In k (map fst o).
Proof.
  intros o k. unfold Obj.has. induction o as [|[k' v'] o IH]; cbn.
  - split; [discriminate | contradiction].
  - destruct (String.eqb k' k) eqn:E.
    + apply String.eqb_eq in E. split; auto.
    + apply String.eqb_neq in E. rewrite IH. split; [auto | intros [H|H]; congruence].
Qed.

Lemma keys_replace : forall o k v, map fst (Obj.replace o k v) = map fst o.
Proof.
  intros o k v. induction o as [|[k' v'] o IH]; cbn; [reflexivity|].
  destruct (String.eqb k' k); cbn; [reflexivity | rewrite IH; reflexivity].
Qed.

Lemma keys_insert_index : forall o i k v k',
  In k' (map fst (Obj.insert_index o i k v)) <-> k' = k \/ In k' (map fst o).
Proof.
  intros o i k v k'. induction o as [|[k0 v0] o IH]; cbn.
  - intuition.
  - destruct (Obj.array_index k0) as [j|]; [destruct (j <? i)%N|]; cbn;
      rewrite ?IH; intuition.
Qed.

(** [o[k] = v] adds the key [k] and no other, and removes none. *)
Lemma keys_set : forall o k v k',
  In k' (map fst (Obj.set o k v)) <-> k' = k \/ In k' (map fst o).
Proof.
  intros o k v k'. unfold Obj.set. destruct (Obj.has o k) eqn:H.
  - rewrite keys_replace. apply has_In in H. intuition (subst; auto).
  - destruct (Obj.array_index k).
    + apply keys_insert_index.
    + rewrite map_app, in_app_iff. cbn. intuition.
Qed.

Lemma get_replace : forall o k v k',
  Obj.has o k = true ->
  Obj.get (Obj.replace o k v) k' = if String.eqb k k' then Some v else Obj.get o k'.
Proof.
  intros o k v k'. unfold Obj.has. induction o as [|[k0 v0] o IH]; cbn; [discriminate|].
  destruct (String.eqb k0 k) eqn:E; cbn.
  - intros _. apply String.eqb_eq in E. subst k0. destruct (String.eqb k k'); reflexivity.
  - intro H. destruct (String.eqb k0 k') eqn:E'.
    + apply String.eqb_eq in E'. subst k0. rewrite String.eqb_sym, E. reflexivity.
    + apply IH, H.
Qed.

Lemma get_insert_index : forall o i k v k',
  Obj.has o k = false ->
  Obj.get (Obj.insert_index o i k v) k'
  = if String.eqb k k' then Some v else Obj.get o k'.
Proof.
  intros o i k v k'. unfold Obj.has. induction o as [|[k0 v0] o IH]; cbn; [reflexivity|].
  destruct (String.eqb k0 k) eqn:E; [discriminate|]. intro H.
  destruct (Obj.array_index k0) as [j|]; [destruct (j <? i)%N|]; cbn; try reflexivity.
  destruct (String.eqb k0 k') eqn:E'.
  - apply String.eqb_eq in E'. subst k0. rewrite String.eqb_sym, E. reflexivity.
  - apply IH, H.
Qed.

Lemma get_app_last : forall o k v k',
  Obj.has o k = false ->
  Obj.get (o ++ [(k, v)])%list k' = if String.eqb k k' then Some v else Obj.get o k'.
Proof.
  intros o k v k'. unfold Obj.has. induction o as [|[k0 v0] o IH]; cbn; [reflexivity|].
  destruct (String.eqb k0 k) eqn:E; [discriminate|]. intro H.
  destruct (String.eqb k0 k') eqn:E'.
  - apply String.eqb_eq in E'. subst k0. rewrite String.eqb_sym, E. reflexivity.
  - apply IH, H.
Qed.

(** Reading after writing: [o[k] = v] makes [o[k]] be [v] and leaves the
    other properties as they were. *)
Lemma get_set : forall o k v k',
  Obj.get (Obj.set o k v) k' = if String.eqb k k' then Some v else Obj.get o k'.
Proof.
  intros o k v k'. unfold Obj.set. destruct (Obj.has o k) eqn:H.
  - apply get_replace, H.
  - destruct (Obj.array_index k); [apply get_insert_index | apply get_app_last]; exact H.
Qed.

End ObjFacts.

(** ** Objects *)

Lemma errs_bind : forall (A B : Type) (m : W A) (f : A -> W B),
  errs (snd (bind m f)) = (errs (snd m) ++ errs (snd (f (fst m))))%list.
Proof. intros. rewrite bind_snd. reflexivity. Qed.

Lemma coerceInternal_Object : forall h opts d properties required additionalProperties p v,
  is_nullish v = false ->
  coerceInternal h opts (Schema d (KObject properties required additionalProperties)) 0 p v
  = coerceObject h opts v
      (map (fun q => (fst q, (snd q, coerceInternal h opts (snd q)))) properties)
      required (additional_map (coerceInternal h opts) additionalProperties) p 0.
Proof.
  intros. cbn [coerceInternal]. rewrite depth_exceeded_0, H. reflexivity.
Qed.

(** The own keys of a plain object are not names that objects inherit. *)
Lemma plain_own_key : forall h o k,
  plain h (VObj o) = true -> In k (map fst o) -> Object_prototype_has h k = false.
Proof.
  intros h o k Hp Hin. cbn [plain] in Hp. apply andb_true_iff in Hp.
  destruct Hp as [_ Hp]. rewrite forallb_forall in Hp.
  apply in_map_iff in Hin. destruct Hin as [[k' v] [E Hin]]. cbn in E. subst k'.
  specialize (Hp _ Hin). cbn [fst snd] in Hp. apply andb_true_iff in Hp.
  destruct Hp as [Hp _]. apply negb_true_iff, Hp.
Qed.

Section ObjectLoops.

Variable h : Host.
Variable opts : CoercionOptions.
Variable props : list bound_property.
Variable required : list string.
Variable addl : additional coercer.
Variable p : string.
Variable depth : nat.
Variable valueObj : list (string * dynamic).

Local Abbreviation declared := (declared_fields opts required p depth valueObj).
Local Abbreviation extras := (additional_fields h props addl p depth).

Lemma declared_fields_reports_missing : forall ps result key propSchema c,
  In (key, (propSchema, c)) ps ->
  is_undefined (prop valueObj key) = true ->
  truthy (useDefaults opts) && negb (is_undefined (default_of propSchema)) = false ->
  existsb (String.eqb key) required = true ->
  isOptionalProperty propSchema = false ->
  truthy (allowPartials opts) = false ->
  In (missing_field_call key) (errs (snd (declared ps result))).
Proof.
  induction ps as [|[k0 [s0 c0]] ps IH]; intros result key propSchema c Hin Hu Hd Hr Ho Hp.
  - contradiction.
  - cbn [declared_fields]. rewrite errs_bind. apply in_or_app. destruct Hin as [E|Hin].
    + left. inversion E. subst k0 s0 c0. rewrite Hu, Hd, Hr, Ho, Hp. cbn. left. reflexivity.
    + right. eapply IH; eassumption.
Qed.


Lemma declared_fields_keeps : forall ps result k,
  In k (map fst result) -> In k (map fst (fst (declared ps result))).
Proof.
  induction ps as [|[k0 [s0 c0]] ps IH]; intros result k H.
  - exact H.
  - cbn [declared_fields]. rewrite bind_fst. apply IH.
    destruct (is_undefined (prop valueObj k0));
      [destruct (truthy (useDefaults opts) && _);
        [|destruct (negb _ || _); [|destruct (truthy (allowPartials opts))]]|];
      rewrite ?bind_fst; cbn [ret fst]; rewrite ?keys_set; auto.
Qed.

Lemma declared_fields_sets_present : forall ps result k,
  In k (map fst ps) ->
  is_undefined (prop valueObj k) = false ->
  In k (map fst (fst (declared ps result))).
Proof.
  induction ps as [|[k0 [s0 c0]] ps IH]; intros result k Hin Hu.
  - contradiction.
  - cbn [declared_fields]. rewrite bind_fst. destruct Hin as [E|Hin].
    + cbn in E. subst k0. apply declared_fields_keeps. rewrite Hu.
      rewrite bind_fst. cbn [ret fst]. apply keys_set. left. reflexivity.
    + apply IH; assumption.
Qed.


Lemma additional_fields_keeps : forall entries result k,
  In k (map fst result) -> In k (map fst (fst (extras entries result))).
Proof.
  induction entries as [|[k0 v0] entries IH]; intros result k H; [exact H|].
  cbn [additional_fields]. rewrite bind_fst. apply IH.
  destruct (negb _); [|exact H].
  destruct addl as [|[|]|c]; rewrite ?bind_fst; cbn [ret fst]; rewrite ?keys_set; auto.
Qed.

Lemma additional_fields_adds : forall entries result k,
  addl <> AddlBool false ->
  In k (map fst entries) -> in_properties h props k = false ->
  In k (map fst (fst (extras entries result))).
Proof.
  induction entries as [|[k0 v0] entries IH]; intros result k Ha Hin Hk; [contradiction|].
  cbn [additional_fields]. rewrite bind_fst. destruct Hin as [E|Hin].
  - cbn in E. subst k0. apply additional_fields_keeps. rewrite Hk. cbn [negb].
    destruct addl as [|[|]|c]; try congruence;
      rewrite ?bind_fst; cbn [ret fst]; apply keys_set; left; reflexivity.
  - apply IH; assumption.
Qed.

(** A key the extra loop does not meet keeps its value. *)
Lemma additional_fields_frame : forall entries result k,
  ~ In k (map fst entries) ->
  Obj.get (fst (extras entries result)) k = Obj.get result k.
Proof.
  induction entries as [|[k0 v0] entries IH]; intros result k Hn; [reflexivity|].
  cbn [additional_fields]. rewrite bind_fst, IH by (intro; apply Hn; right; assumption).
  assert (Hk : String.eqb k0 k = false).
  { apply String.eqb_neq. intro. apply Hn. left. assumption. }
  destruct (negb _); [|reflexivity].
  destruct addl as [|[|]|c]; rewrite ?bind_fst; cbn [ret fst];
    rewrite ?get_set, ?Hk; reflexivity.
Qed.

Lemma additional_fields_passes : forall entries result k,
  addl = AddlAbsent \/ addl = AddlBool true ->
  NoDup (map fst entries) ->
  In k (map fst entries) -> in_properties h props k = false ->
  Obj.get (fst (extras entries result)) k = Obj.get entries k.
Proof.
  induction entries as [|[k0 v0] entries IH]; intros result k Ha Hnd Hin Hk; [contradiction|].
  cbn [map] in Hnd. inversion Hnd as [|x l Hnotin Hnd']. subst x l.
  cbn [additional_fields]. rewrite bind_fst. cbn [Obj.get].
  destruct (String.eqb k0 k) eqn:E.
  - apply String.eqb_eq in E. subst k0. rewrite additional_fields_frame by exact Hnotin.
    rewrite Hk. cbn [negb].
    destruct Ha as [Ha|Ha]; rewrite Ha; cbn [ret fst]; rewrite get_set, String.eqb_refl;
      reflexivity.
  - destruct Hin as [E'|Hin]; [cbn in E'; subst k0; rewrite String.eqb_refl in E; discriminate|].
    apply IH; assumption.
Qed.

End ObjectLoops.

Lemma in_bound_properties : forall h opts (properties : list (string * schema)) key s,
  In (key, s) properties ->
  In (key, (s, coerceInternal h opts s))
     (map (fun q => (fst q, (snd q, coerceInternal h opts (snd q)))) properties).
Proof.
  intros h opts properties key s H.
  apply (in_map (fun q => (fst q, (snd q, coerceInternal h opts (snd q)))) _ _ H).
Qed.

Lemma keys_bound_properties : forall h opts (properties : list (string * schema)),
  map fst (map (fun q => (fst q, (snd q, coerceInternal h opts (snd q)))) properties)
  = map fst properties.
Proof.
  intros. rewrite map_map. reflexivity.
Qed.

(** A declared property that is required and not nullable or Optional,
    that the input object lacks and that no default covers, is reported
    as missing unless partial results are allowed: the result is not a
    success. The name of the property is not one that objects inherit
    (the code would read the inherited member), and the input is plain
    (no coercion of another property throws). *)
Theorem missing_required_field_is_reported :
  forall h d properties required additionalProperties o p fields key propSchema,
    Object_prototype_has h key = false ->
    plain h (VObj fields) = true ->
    In (key, propSchema) properties ->
    In key required ->
    isOptionalProperty propSchema = false ->
    is_undefined (prop fields key) = true ->
    is_undefined (default_of propSchema) = true \/ useDefaults o = Some false ->
    truthy (allowPartials o) = false ->
    let r := coerceValue h (VObj fields)
               (Schema d (KObject properties required additionalProperties)) o p in
    In (missing_field_error p key) (errors r) /\ success r = false.
Proof.
  intros h d properties required additionalProperties o p fields key propSchema
    _ _ Hin Hreq Hopt Hund Hdef Hpart r.
  assert (Hc : In (missing_field_call key)
                 (errs (snd (coerceInternal h (spread defaultOptions o)
                               (Schema d (KObject properties required additionalProperties))
                               0 p (VObj fields))))).
  { rewrite coerceInternal_Object by reflexivity. unfold coerceObject, object_body.
    cbv zeta. rewrite errs_bind. apply in_or_app. left.
    eapply declared_fields_reports_missing.
    - apply in_bound_properties, Hin.
    - exact Hund.
    - destruct Hdef as [Hd|Hd]; [rewrite Hd; apply andb_false_r|].
      cbn. rewrite Hd. reflexivity.
    - apply eqb_words, Hreq.
    - exact Hopt.
    - cbn. destruct (allowPartials o) as [[|]|]; try discriminate; reflexivity. }
  assert (He : In (missing_field_error p key) (errors r)).
  { unfold r, coerceValue. cbn [errors].
    apply (in_map (report h p (VObj fields)) _ _ Hc). }
  split; [exact He|].
  unfold r, coerceValue in *. cbn [errors success] in *.
  destruct (map _ _); [contradiction | reflexivity].
Qed.


(** Unless [additionalProperties] is [false], no property of a plain
    input object is lost: every key of the input whose value is not
    undefined is a key of the result. (A key under a name that objects
    inherit counts as declared for the code and is dropped: a plain
    object has none.) *)
Theorem open_object_keeps_every_key :
  forall h d properties required additionalProperties o p fields k,
    plain h (VObj fields) = true ->
    additionalProperties <> AddlBool false ->
    In k (map fst fields) ->
    is_undefined (prop fields k) = false ->
    exists result,
      value_of (coerceValue h (VObj fields)
                  (Schema d (KObject properties required additionalProperties)) o p)
      = VObj result
      /\ In k (map fst result).
Proof.
  intros h d properties required additionalProperties o p fields k Hplain Ha Hin Hu.
  unfold coerceValue. cbn [value_of].
  rewrite coerceInternal_Object by reflexivity. unfold coerceObject, object_body.
  cbv zeta. rewrite !bind_fst. cbn [ret fst]. eexists. split; [reflexivity|].
  set (bound := map _ properties).
  destruct (Obj.has bound k) eqn:Hd.
  - apply additional_fields_keeps. apply declared_fields_sets_present; [|exact Hu].
    apply has_In, Hd.
  - apply additional_fields_adds; try assumption.
    + destruct additionalProperties as [|[|]|s]; cbn; congruence.
    + unfold in_properties. apply orb_false_iff.
      split; [exact Hd | exact (plain_own_key h fields k Hplain Hin)].
Qed.

(** A property of a plain input object that the schema does not declare
    passes through unchanged when [additionalProperties] is absent or
    [true]. *)
Theorem undeclared_property_passes_through :
  forall h d properties required additionalProperties o p fields k,
    plain h (VObj fields) = true ->
    additionalProperties = AddlAbsent \/ additionalProperties = AddlBool true ->
    NoDup (map fst fields) ->
    In k (map fst fields) ->
    ~ In k (map fst properties) ->
    exists result,
      value_of (coerceValue h (VObj fields)
                  (Schema d (KObject properties required additionalProperties)) o p)
      = VObj result
      /\ prop result k = prop fields k.
Proof.
  intros h d properties required additionalProperties o p fields k Hplain Ha Hnd Hin Hk.
  unfold coerceValue. cbn [value_of].
  rewrite coerceInternal_Object by reflexivity. unfold coerceObject, object_body.
  cbv zeta. rewrite !bind_fst. cbn [ret fst]. eexists. split; [reflexivity|].
  unfold prop. rewrite additional_fields_passes; try assumption; try reflexivity.
  - destruct Ha as [Ha|Ha]; rewrite Ha; cbn; auto.
  - unfold in_properties. rewrite (plain_own_key h fields k Hplain Hin), orb_false_r.
    destruct (Obj.has _ k) eqn:E; [|reflexivity].
    apply has_In in E. rewrite keys_bound_properties in E. contradiction.
Qed.

(** ** Records *)

Lemma record_entries_keys : forall coerce p depth entries result k,
  In k (map fst (fst (record_entries coerce p depth entries result)))
  <-> In k (map fst result) \/ In k (map fst entries).
Proof.
  induction entries as [|[k0 v0] entries IH]; intros result k.
  - cbn. tauto.
  - cbn [record_entries]. rewrite bind_fst, IH, keys_set. cbn. intuition.
Qed.

(** A Record target keeps the keys of a plain input object: the result
    has exactly the keys of the input, whatever the coercion of the
    values reports. (The input has no property named [__proto__], which
    an assignment would not create.) *)
Theorem record_keeps_the_keys :
  forall h d patternProperties additionalProperties o p entries,
    plain h (VObj entries) = true ->
    exists result,
      value_of (coerceValue h (VObj entries)
                  (Schema d (KRecord patternProperties additionalProperties)) o p)
      = VObj result
      /\ forall k, In k (map fst result) <-> In k (map fst entries).
Proof.
  intros h d patternProperties additionalProperties o p entries _.
  unfold coerceValue. cbn [value_of coerceInternal].
  rewrite depth_exceeded_0. cbn [is_nullish]. unfold coerceRecord.
  rewrite bind_fst. cbn [ret fst]. eexists. split; [reflexivity|].
  intro k. rewrite record_entries_keys. cbn. tauto.
Qed.

(** ** The extractor *)

Lemma unique_In : forall l seen x,
  In x (unique seen l) <-> In x l /\ ~ In x seen.
Proof.
  induction l as [|a l IH]; intros seen x; cbn [unique].
  - cbn. tauto.
  - destruct (existsb (String.eqb a) seen) eqn:E.
    + apply existsb_exists in E. destruct E as [y [Hy E]]. apply String.eqb_eq in E. subst y.
      rewrite IH. cbn. intuition (subst; tauto).
    + assert (Ha : ~ In a seen).
      { intro Hin. apply Bool.not_true_iff_false in E. apply E. apply existsb_exists.
        exists a. split; [exact Hin | apply String.eqb_refl]. }
      cbn [In]. rewrite IH. cbn [In].
      destruct (string_dec a x) as [E'|Hne].
      * subst x. tauto.
      * tauto.
Qed.

Lemma unique_NoDup : forall l seen, NoDup (unique seen l).
Proof.
  induction l as [|a l IH]; intro seen; cbn [unique].
  - constructor.
  - destruct (existsb (String.eqb a) seen); [apply IH|].
    constructor; [|apply IH].
    intro H. apply unique_In in H. destruct H as [_ H]. apply H. left. reflexivity.
Qed.

Lemma raw_withPreprocessingFixes : forall r pre t,
  ex_raw (withPreprocessingFixes r pre t) = t.
Proof.
  intros r [|x pre] t; cbn; [|reflexivity].
  destruct (String.eqb (ex_raw r) t) eqn:E; [apply String.eqb_eq, E | reflexivity].
Qed.

Lemma spread_extraction_idem : forall o,
  spread_parse defaultExtractionOptions (spread_parse defaultExtractionOptions o)
  = spread_parse defaultExtractionOptions o.
Proof.
  intro o. unfold spread_parse. cbn. rewrite !override_idem. reflexivity.
Qed.

Lemma maxDepth_is_set : forall o,
  exists m, p_maxDepth (spread_parse defaultExtractionOptions o) = Some m.
Proof.
  intro o. cbn. destruct (p_maxDepth o) as [m|]; eexists; reflexivity.
Qed.

Section ExtractorFacts.

Variable h : Host.
Variable rx : RegExps.

Lemma tryExtractFromMarkdown_ext : forall r1 r2 text options isDone depth,
  (forall content, r1 content options isDone depth = r2 content options isDone depth) ->
  tryExtractFromMarkdown h rx r1 text options isDone depth
  = tryExtractFromMarkdown h rx r2 text options isDone depth.
Proof.
  intros r1 r2 text options isDone depth H. unfold tryExtractFromMarkdown.
  destruct (map _ (codeBlockRegex rx text)) as [|m ms]; [reflexivity|].
  destruct (filter _ (m :: ms)) as [|b [|b' bs]]; try reflexivity.
  rewrite H. reflexivity.
Qed.

Lemma extractJson_body_ext : forall r1 r2 text options isDone depth,
  (forall content,
     r1 content (spread_parse defaultExtractionOptions options) isDone (S depth)
     = r2 content (spread_parse defaultExtractionOptions options) isDone (S depth)) ->
  extractJson_body h rx r1 text options isDone depth
  = extractJson_body h rx r2 text options isDone depth.
Proof.
  intros r1 r2 text options isDone depth H. unfold extractJson_body.
  rewrite (tryExtractFromMarkdown_ext r1 r2 _ _ _ _ H). reflexivity.
Qed.

(** [extractJson] satisfies the recursive equation of the source. *)
Lemma extractJson_unfold : forall text options isDone depth,
  extractJson h rx text options isDone depth
  = extractJson_body h rx (extractJson h rx) text options isDone depth.
Proof.
  intros text options isDone depth. unfold extractJson at 1, levels_left.
  destruct (maxDepth_is_set options) as [m Hm]. rewrite Hm.
  destruct (Z.to_nat (m + 1 - Z.of_nat depth)) as [|fewer] eqn:E.
  - cbn [extractJson_within]. unfold extractJson_body. rewrite Hm.
    cbn [depth_exceeded exceeds Limit_Z].
    replace (m <? Z.of_nat depth)%Z with true by (symmetry; apply Z.ltb_lt; lia).
    reflexivity.
  - cbn [extractJson_within]. apply extractJson_body_ext. intro content.
    unfold extractJson, levels_left. rewrite spread_extraction_idem, Hm.
    replace (Z.to_nat (m + 1 - Z.of_nat (S depth))) with fewer by lia. reflexivity.
Qed.

(** The result of the body, whatever the recursive call is. *)
Lemma extractJson_body_cases : forall recur text options isDone depth,
  let opts := spread_parse defaultExtractionOptions options in
  let pre := fst (preprocessed rx opts text) in
  match extractJson_body h rx recur text options isDone depth with
  | inl thrown =>
      (depth_exceeded depth (p_maxDepth opts) = true
       /\ thrown = "Depth limit reached. Likely a circular reference.")
      \/ (depth_exceeded depth (p_maxDepth opts) = false
          /\ truthy (allowAsString opts) = false
          /\ thrown = "Failed to extract JSON from response")
  | inr r =>
      depth_exceeded depth (p_maxDepth opts) = false
      /\ ((exists found, r = withPreprocessingFixes found pre text)
          \/ r = {| ex_value := VStr text;
                    ex_raw := text;
                    fromMarkdown := None;
                    fixes := match pre with [] => None | _ => Some pre end;
                    ex_isPartial := Some (negb isDone) |})
  end.
Proof.
  intros recur text options isDone depth opts pre. unfold extractJson_body.
  fold opts. fold pre.
  destruct (depth_exceeded depth (p_maxDepth opts)); [left; split; reflexivity|].
  destruct (tryParseDirect h _ isDone) as [r|]; [split; [reflexivity|left; eexists; reflexivity]|].
  destruct (if truthy (allowMarkdownJson opts) then _ else None) as [r|];
    [split; [reflexivity|left; eexists; reflexivity]|].
  destruct (if truthy (findAllJsonObjects opts) then _ else None) as [r|];
    [split; [reflexivity|left; eexists; reflexivity]|].
  destruct (if truthy (allowFixes opts) then _ else None) as [r|];
    [split; [reflexivity|left; eexists; reflexivity]|].
  destruct (truthy (allowAsString opts)).
  - split; [reflexivity|right; reflexivity].
  - right. repeat split.
Qed.

Lemma extractJson_cases : forall text options isDone depth,
  let opts := spread_parse defaultExtractionOptions options in
  let pre := fst (preprocessed rx opts text) in
  match extractJson h rx text options isDone depth with
  | inl thrown =>
      (depth_exceeded depth (p_maxDepth opts) = true
       /\ thrown = "Depth limit reached. Likely a circular reference.")
      \/ (depth_exceeded depth (p_maxDepth opts) = false
          /\ truthy (allowAsString opts) = false
          /\ thrown = "Failed to extract JSON from response")
  | inr r =>
      depth_exceeded depth (p_maxDepth opts) = false
      /\ ((exists found, r = withPreprocessingFixes found pre text)
          \/ r = {| ex_value := VStr text;
                    ex_raw := text;
                    fromMarkdown := None;
                    fixes := match pre with [] => None | _ => Some pre end;
                    ex_isPartial := Some (negb isDone) |})
  end.
Proof.
  intros. rewrite extractJson_unfold. apply extractJson_body_cases.
Qed.

End ExtractorFacts.

(** [extractJson] returns the text it was given as [raw], whichever
    strategy found the value and whether or not the quotes were
    normalised before. *)
Theorem extractJson_raw_is_the_input : forall h rx text options isDone depth,
  match extractJson h rx text options isDone depth with
  | inr r => ex_raw r = text
  | inl _ => True
  end.
Proof.
  intros.
  pose proof (extractJson_cases h rx text options isDone depth) as H.
  cbv zeta in H. destruct (extractJson h rx text options isDone depth) as [msg|r]; [exact I|].
  destruct H as [_ [[found ->]| ->]]; [apply raw_withPreprocessingFixes | reflexivity].
Qed.

(** [extractJson] throws in two cases only: the depth is over the limit,
    or [allowAsString] is false and no strategy found a value. Within the
    depth limit and with [allowAsString] left on, it returns. *)
Theorem extractJson_throws_only : forall h rx text options isDone depth,
  match extractJson h rx text options isDone depth with
  | inl thrown => thrown_for options depth thrown
  | inr _ => depth_exceeded depth
               (p_maxDepth (spread_parse defaultExtractionOptions options)) = false
  end.
Proof.
  intros.
  pose proof (extractJson_cases h rx text options isDone depth) as H.
  cbv zeta in H. destruct (extractJson h rx text options isDone depth) as [msg|r].
  - unfold thrown_for. destruct H as [[H1 H2]|[H1 [H2 H3]]]; [left; split; assumption|].
    right. split; [|assumption].
    cbn in H2. destruct (allowAsString options) as [[|]|]; try discriminate; reflexivity.
  - apply H.
Qed.

(** When the typographic quotes of the text were replaced, the fixes of
    the result say so, once, whichever strategy found the value; and the
    list of fixes never repeats a fix it got from the preprocessing. *)
Theorem normalisation_is_recorded : forall h rx text options isDone depth,
  normalizeUnicodeQuotes options <> Some false ->
  unicode_quotes_replaced rx text <> text ->
  match extractJson h rx text options isDone depth with
  | inr r =>
      exists applied, fixes r = Some applied
                      /\ In "normalized_unicode_quotes" applied /\ NoDup applied
  | inl _ => True
  end.
Proof.
  intros h rx text options isDone depth Hopt Hchanged.
  pose proof (extractJson_cases h rx text options isDone depth) as H.
  cbv zeta in H. destruct (extractJson h rx text options isDone depth) as [msg|r]; [exact I|].
  assert (Hpre : fst (preprocessed rx (spread_parse defaultExtractionOptions options) text)
                 = ["normalized_unicode_quotes"]).
  { unfold preprocessed.
    replace (truthy (normalizeUnicodeQuotes (spread_parse defaultExtractionOptions options)))
      with true
      by (unfold spread_parse; cbn [normalizeUnicodeQuotes defaultExtractionOptions];
          destruct (normalizeUnicodeQuotes options) as [[|]|];
          [reflexivity | exfalso; apply Hopt; reflexivity | reflexivity]).
    replace (String.eqb (unicode_quotes_replaced rx text) text) with false
      by (symmetry; apply String.eqb_neq, Hchanged).
    reflexivity. }
  rewrite Hpre in H. destruct H as [_ [[found ->]| ->]].
  - cbn [withPreprocessingFixes fixes]. eexists. split; [reflexivity|]. split.
    + apply unique_In. split; [|intros []]. apply in_or_app. right. left. reflexivity.
    + apply unique_NoDup.
  - cbn [fixes]. eexists. split; [reflexivity|]. split; [left; reflexivity|].
    repeat constructor. intros [].
Qed.

(** [extractAllCandidates] returns every match once: a candidate is in
    the result exactly when one of the two searches found it, and the
    result has no duplicate. *)
Theorem extractAllCandidates_has_no_duplicate : forall rx text,
  NoDup (extractAllCandidates rx text)
  /\ forall c, In c (extractAllCandidates rx text)
               <-> In c (candidateRegex rx text) \/ In c (map trim (fencedRegex rx text)).
Proof.
  intros rx text. unfold extractAllCandidates. split; [apply unique_NoDup|].
  intro c. rewrite unique_In, in_app_iff. cbn. tauto.
Qed.

(** ** The entry points *)

Section SortFacts.

Variable A : Type.
Variable key : A -> nat.

Lemma hd_insert_by : forall x sorted,
  hd_error (insert_by key x sorted)
  = match sorted with
    | [] => Some x
    | y :: _ => if (key x <=? key y)%nat then Some x else Some y
    end.
Proof.
  intros x [|y r]; [reflexivity|]. cbn. destruct (key x <=? key y)%nat; reflexivity.
Qed.

(** The head of the sorted list is the first of the elements with the
    least key. *)
Lemma hd_sort_by : forall l,
  match hd_error (sort_by key l) with
  | None => l = []
  | Some r =>
      exists before after,
        l = (before ++ r :: after)%list
        /\ Forall (fun x => key r < key x) before
        /\ Forall (fun x => key r <= key x) after
  end.
Proof.
  induction l as [|x l IH]; [reflexivity|].
  cbn [sort_by fold_right]. fold (sort_by key l). rewrite hd_insert_by.
  destruct (sort_by key l) as [|y sorted]; cbn [hd_error] in IH.
  - subst l. exists [], []. repeat split; constructor.
  - destruct IH as [before [after [-> [Hb Ha]]]].
    destruct (Nat.leb_spec (key x) (key y)) as [Hle|Hlt].
    + exists [], (before ++ y :: after)%list. repeat split; [constructor|].
      apply Forall_app. split.
      * eapply Forall_impl; [|exact Hb]. cbn. intros; lia.
      * constructor; [exact Hle|]. eapply Forall_impl; [|exact Ha]. cbn. intros; lia.
    + exists (x :: before), after. repeat split; [|exact Ha].
      constructor; [exact Hlt | exact Hb].
Qed.

End SortFacts.

Lemma parseAllCandidates_kept : forall h rx parse_throws response s options,
  parseAllCandidates h rx parse_throws response s options
  = map (fun candidate => parse h rx candidate s options)
        (filter (fun candidate => negb (parse_throws candidate s options))
                (extractAllCandidates rx response)).
Proof.
  intros. unfold parseAllCandidates. cbv zeta.
  induction (extractAllCandidates rx response) as [|c l IH]; [reflexivity|].
  cbn [flat_map filter]. rewrite IH.
  destruct (parse_throws c s options); reflexivity.
Qed.

(** [parseBestCandidate] returns null exactly when no candidate of the
    response parses (there is none, or the parse of each one throws and
    is skipped); otherwise it returns, of the results of the candidates
    that parse, the one with the fewest errors, and the first of them in
    the order of the candidates when several have as few. This holds
    whichever parses throw. *)
Theorem parseBestCandidate_is_first_with_fewest_errors :
  forall h rx parse_throws response s options,
    let parsed :=
      map (fun candidate => parse h rx candidate s options)
          (filter (fun candidate => negb (parse_throws candidate s options))
                  (extractAllCandidates rx response)) in
    match parseBestCandidate h rx parse_throws response s options with
    | None =>
        forall candidate, In candidate (extractAllCandidates rx response) ->
                          parse_throws candidate s options = true
    | Some best => first_with_fewest_errors best parsed
    end.
Proof.
  intros h rx parse_throws response s options parsed. unfold parseBestCandidate.
  cbv zeta. rewrite parseAllCandidates_kept. fold parsed.
  pose proof (hd_sort_by (fun r => List.length (p_errors r)) parsed) as H.
  destruct parsed as [|r l] eqn:E.
  - intros candidate Hin. unfold parsed in E. apply map_eq_nil in E.
    destruct (parse_throws candidate s options) eqn:Ht; [reflexivity|].
    assert (Hf : In candidate
                   (filter (fun c => negb (parse_throws c s options))
                           (extractAllCandidates rx response))).
    { apply filter_In. split; [exact Hin | rewrite Ht; reflexivity]. }
    rewrite E in Hf. contradiction.
  - destruct (hd_error _) as [best|]; [exact H | discriminate].
Qed.

(** [parseResponse] reports success exactly when it reports no error,
    whatever the extractor does: a failed extraction is an error, and a
    coercion succeeds exactly when it has none. *)
Theorem parseResponse_succeeds_iff_no_error :
  forall h extractJson hasChainOfThought filterChainOfThought response s options,
    let r := parseResponse h extractJson hasChainOfThought filterChainOfThought
               response s options in
    p_success r = true <-> p_errors r = [].
Proof.
  intros h ex hc fc response s options r. unfold r, parseResponse. cbv zeta.
  destruct (ex _ _ true 0) as [thrown|extraction]; cbn [p_success p_errors].
  - split; discriminate.
  - unfold coerceValue. cbn [success errors]. rewrite length_map.
    destruct (errs _); cbn; split; (reflexivity || discriminate).
Qed.

(** ** Numbers *)

Lemma errs_check : forall b msg e r,
  errs (snd (check b msg e r)) = [] <-> b = false.
Proof.
  intros [|] msg e r; cbn; split; intro H; congruence.
Qed.

Lemma app_nil_iff : forall (A : Type) (l1 l2 : list A),
  (l1 ++ l2)%list = [] <-> l1 = [] /\ l2 = [].
Proof.
  intros A [|x l1] l2; cbn; split; intro H.
  - split; [reflexivity | exact H].
  - apply H.
  - discriminate.
  - destruct H; discriminate.
Qed.

Lemma errs_optional_check : forall (limit : option float) (violated : float -> bool)
  (msg : float -> string) (e : float -> option string) (r : option string),
  errs (snd (match limit with
             | Some m => check (violated m) (msg m) (e m) r
             | None => ret tt
             end)) = []
  <-> (forall m, limit = Some m -> violated m = false).
Proof.
  intros [m|] violated msg e r.
  - rewrite errs_check. split; [intros H m' E; inversion E; subst; exact H | auto].
  - cbn. split; [discriminate | reflexivity].
Qed.

Lemma validateNumber_no_error : forall h n c,
  errs (snd (validateNumber h n c)) = [] <-> meets n c.
Proof.
  intros h n c. unfold validateNumber, meets.
  repeat rewrite errs_bind. cbn [ret snd errs no_calls]. rewrite app_nil_r.
  rewrite !app_nil_iff.
  rewrite (errs_optional_check (minimum c) (fun m => PrimFloat.ltb n m)
             (fun m => "Number below minimum (" ++ Number_toString h m ++ ")")
             (fun m => Some (">= " ++ Number_toString h m))).
  rewrite (errs_optional_check (maximum c) (fun m => PrimFloat.ltb m n)
             (fun m => "Number above maximum (" ++ Number_toString h m ++ ")")
             (fun m => Some ("<= " ++ Number_toString h m))).
  rewrite (errs_optional_check (exclusiveMinimum c) (fun m => PrimFloat.leb n m)
             (fun m => "Number not above exclusive minimum (" ++ Number_toString h m ++ ")")
             (fun m => Some ("> " ++ Number_toString h m))).
  rewrite (errs_optional_check (exclusiveMaximum c) (fun m => PrimFloat.leb m n)
             (fun m => "Number not below exclusive maximum (" ++ Number_toString h m ++ ")")
             (fun m => Some ("< " ++ Number_toString h m))).
  rewrite (errs_optional_check (multipleOf c) (fun m => Num.rem_is_nonzero n m)
             (fun m => "Number not multiple of " ++ Number_toString h m)
             (fun m => Some ("multiple of " ++ Number_toString h m))).
  reflexivity.
Qed.

(** A number given for a Number target is returned as it is, and the
    coercion succeeds exactly when the number meets the constraints of
    the schema. *)
Theorem number_succeeds_iff_it_meets_the_constraints : forall h d c o p n,
  let r := coerceValue h (VNum n) (Schema d (KNumber c)) o p in
  value_of r = VNum n /\ (success r = true <-> meets n c).
Proof.
  intros h d c o p n r. unfold r. split.
  - unfold coerceValue. cbn [value_of coerceInternal]. rewrite depth_exceeded_0.
    cbn [is_nullish]. unfold coerceNumber. cbn [andb]. rewrite !bind_fst.
    cbn [ret fst]. rewrite validateNumber_fst. reflexivity.
  - rewrite success_errs. cbn [coerceInternal]. rewrite depth_exceeded_0.
    cbn [is_nullish]. unfold coerceNumber. cbn [andb]. rewrite !errs_bind.
    cbn [ret fst snd errs no_calls app]. rewrite app_nil_r.
    apply validateNumber_no_error.
Qed.

(** ** The depth limit *)




(** ** Defaults *)

Section DefaultFacts.

Variable h : Host.
Variable opts : CoercionOptions.
Variable props : list bound_property.
Variable required : list string.
Variable addl : additional coercer.
Variable p : string.
Variable depth : nat.
Variable valueObj : list (string * dynamic).

Lemma declared_fields_frame : forall ps result k,
  ~ In k (map fst ps) ->
  Obj.get (fst (declared_fields opts required p depth valueObj ps result)) k
  = Obj.get result k.
Proof.
  induction ps as [|[k0 [s0 c0]] ps IH]; intros result k Hn; [reflexivity|].
  cbn [declared_fields]. rewrite bind_fst, IH by (intro; apply Hn; right; assumption).
  assert (Hk : String.eqb k0 k = false).
  { apply String.eqb_neq. intro. apply Hn. left. assumption. }
  destruct (is_undefined (prop valueObj k0));
    [destruct (truthy (useDefaults opts) && _);
      [|destruct (negb _ || _); [|destruct (truthy (allowPartials opts))]]|];
    rewrite ?bind_fst; cbn [ret fst]; rewrite ?get_set, ?Hk; reflexivity.
Qed.

Lemma declared_fields_default : forall ps result key propSchema c,
  In (key, (propSchema, c)) ps ->
  NoDup (map fst ps) ->
  is_undefined (prop valueObj key) = true ->
  truthy (useDefaults opts) = true ->
  is_undefined (default_of propSchema) = false ->
  Obj.get (fst (declared_fields opts required p depth valueObj ps result)) key
  = Some (default_of propSchema).
Proof.
  induction ps as [|[k0 [s0 c0]] ps IH]; intros result key propSchema c Hin Hnd Hu Hd Hdef;
    [contradiction|].
  cbn [map fst] in Hnd. inversion Hnd as [|x l Hnotin Hnd']. subst x l.
  cbn [declared_fields]. rewrite bind_fst. destruct Hin as [E|Hin].
  - inversion E. subst k0 s0 c0. rewrite declared_fields_frame by exact Hnotin.
    rewrite Hu, Hd, Hdef. cbn [andb negb]. rewrite bind_fst. cbn [ret fst].
    rewrite get_set, String.eqb_refl. reflexivity.
  - eapply IH; eassumption.
Qed.

Lemma additional_fields_declared_frame : forall entries result k,
  Obj.has props k = true ->
  Obj.get (fst (additional_fields h props addl p depth entries result)) k
  = Obj.get result k.
Proof.
  induction entries as [|[k0 v0] entries IH]; intros result k Hk; [reflexivity|].
  cbn [additional_fields]. rewrite bind_fst, IH by exact Hk.
  destruct (in_properties h props k0) eqn:E0; cbn [negb]; [reflexivity|].
  assert (Hne : String.eqb k0 k = false).
  { apply String.eqb_neq. intro. subst k0. unfold in_properties in E0.
    rewrite Hk in E0. discriminate. }
  destruct addl as [|[|]|c]; rewrite ?bind_fst; cbn [ret fst];
    rewrite ?get_set, ?Hne; reflexivity.
Qed.

End DefaultFacts.

(** A declared property that a plain input object lacks takes the
    default of its schema, as it is, unless [useDefaults] is switched
    off. The name of the property is not one that objects inherit (the
    code would read the inherited member instead of the default). *)
Theorem missing_property_takes_its_default :
  forall h d properties required additionalProperties o p fields key propSchema,
    Object_prototype_has h key = false ->
    plain h (VObj fields) = true ->
    In (key, propSchema) properties ->
    NoDup (map fst properties) ->
    is_undefined (prop fields key) = true ->
    is_undefined (default_of propSchema) = false ->
    useDefaults o <> Some false ->
    exists result,
      value_of (coerceValue h (VObj fields)
                  (Schema d (KObject properties required additionalProperties)) o p)
      = VObj result
      /\ prop result key = default_of propSchema.
Proof.
  intros h d properties required additionalProperties o p fields key propSchema
    _ _ Hin Hnd Hu Hdef Huse.
  unfold coerceValue. cbn [value_of].
  rewrite coerceInternal_Object by reflexivity. unfold coerceObject, object_body.
  cbv zeta. rewrite !bind_fst. cbn [ret fst]. eexists. split; [reflexivity|].
  unfold prop at 1. rewrite additional_fields_declared_frame.
  - erewrite declared_fields_default; [reflexivity | | | exact Hu | | exact Hdef].
    + apply in_bound_properties, Hin.
    + rewrite keys_bound_properties. exact Hnd.
    + unfold spread. cbn [useDefaults defaultOptions].
      destruct (useDefaults o) as [[|]|];
        [reflexivity | exfalso; apply Huse; reflexivity | reflexivity].
  - apply has_In. rewrite keys_bound_properties.
    apply (in_map fst _ _ Hin).
Qed.

(** ** The entry points on the extractor of the library *)

Lemma not_negative_0 : forall options,
  maxDepth_not_negative options ->
  depth_exceeded 0 (p_maxDepth (spread_parse defaultExtractionOptions
                                  (spread_parse defaultParseOptions options))) = false.
Proof.
  intros options H. unfold spread_parse. cbn [p_maxDepth defaultExtractionOptions
    defaultParseOptions]. destruct (p_maxDepth options) as [m|] eqn:E; cbn; [|reflexivity].
  apply Z.ltb_ge. apply H. exact E.
Qed.

Lemma parse_extracts : forall h rx response s options,
  allowAsString options <> Some false ->
  maxDepth_not_negative options ->
  exists extraction,
    parsed_as_extracted h rx response s options extraction (parse h rx response s options).
Proof.
  intros h rx response s options Ha Hm. unfold parsed_as_extracted, text_to_extract, parse,
    parseResponse. cbv zeta.
  match goal with |- context [extractJson h rx ?t ?o true 0] =>
    pose proof (extractJson_cases h rx t o true 0) as H;
    destruct (extractJson h rx t o true 0) as [thrown|extraction]
  end.
  - exfalso. cbv zeta in H. destruct H as [[H _]|[_ [H _]]].
    + rewrite not_negative_0 in H by exact Hm. discriminate.
    + cbn in H. destruct (allowAsString options) as [[|]|]; try discriminate; congruence.
  - exists extraction. unfold coerced_from. cbv zeta.
    cbn [p_value p_success p_errors p_isPartial meta meta_coercions raw meta_fromMarkdown
         meta_fixes].
    rewrite orb_false_r. repeat split.
Qed.

Lemma force_partial_not_negative : forall options,
  maxDepth_not_negative options ->
  maxDepth_not_negative (force_partial (spread_parse defaultParseOptions options)).
Proof.
  intros options H m. cbn. destruct (p_maxDepth options) as [m'|] eqn:E; cbn; intro E'.
  - inversion E'. subst. apply H. exact E.
  - inversion E'. lia.
Qed.

(** [parsePartialResponse] never fails on the extraction, whatever the
    options are as long as [maxDepth] is not negative: it switches
    [allowAsString] on, so its result is always the coercion of what the
    extractor returned, under [allowPartials]: the result is partial
    exactly when the extracted value is incomplete. *)
Theorem parsePartialResponse_never_fails_to_extract : forall h rx response s options,
  maxDepth_not_negative options ->
  let r := parsePartialResponse h (extractJson h rx) (hasChainOfThought rx)
             (filterChainOfThought rx) response s options in
  exists extraction,
    parsed_as_extracted h rx response s
      (force_partial (spread_parse defaultParseOptions options)) extraction r
    /\ p_isPartial r = negb (isComplete h (ex_value extraction) s).
Proof.
  intros h rx response s options Hm r.
  destruct (@parse_extracts h rx response s
              (force_partial (spread_parse defaultParseOptions options)))
    as [extraction H].
  - cbn. discriminate.
  - apply force_partial_not_negative, Hm.
  - exists extraction. split; [exact H|].
    destruct H as [_ [[_ [_ [_ [Hp _]]]] _]]. unfold r, parsePartialResponse.
    unfold parse in Hp. rewrite Hp. reflexivity.
Qed.

(** [debugParse] never records an extraction error, and its coercion
    always carries its notes: the extraction runs on the default options,
    under which a text that holds no JSON is returned as a string. *)
Theorem debugParse_records_no_extraction_error : forall h rx response s,
  extractionErrors (debugParse h rx response s) = []
  /\ exists made, coercions (coercionResult (debugParse h rx response s)) = Some made.
Proof.
  intros h rx response s. unfold debugParse. cbv zeta.
  cbn [extractionErrors coercionResult]. split.
  - match goal with |- context [extractJson h rx ?t ?o true 0] =>
      pose proof (extractJson_cases h rx t o true 0) as H;
      destruct (extractJson h rx t o true 0) as [thrown|extraction]
    end; [|reflexivity].
    exfalso. cbv zeta in H. destruct H as [[H _]|[_ [H _]]]; discriminate H.
  - unfold coerceValue. cbn [coercions]. eexists. reflexivity.
Qed.

Lemma extractJson_direct : forall h rx text options isDone depth v,
  looksLikeJson (trim text) = true ->
  JSON_parse h (trim text) = Some v ->
  unicode_quotes_replaced rx text = text ->
  depth_exceeded depth (p_maxDepth (spread_parse defaultExtractionOptions options)) = false ->
  extractJson h rx text options isDone depth
  = inr {| ex_value := v;
           ex_raw := text;
           fromMarkdown := None;
           fixes := None;
           ex_isPartial := Some (negb isDone) |}.
Proof.
  intros h rx text options isDone depth v Hl Hp Hq Hd. rewrite extractJson_unfold.
  unfold extractJson_body. rewrite Hd.
  assert (Hpre : preprocessed rx (spread_parse defaultExtractionOptions options) text
                 = ([], text)).
  { unfold preprocessed. rewrite Hq, String.eqb_refl. cbn [negb].
    destruct (truthy _); reflexivity. }
  rewrite Hpre. cbn [fst snd]. unfold tryParseDirect. rewrite Hl, Hp. cbn [negb].
  cbn [withPreprocessingFixes ex_raw]. rewrite String.eqb_refl. reflexivity.
Qed.

(** A response that is JSON on its own, with no sign of a chain of
    thought and no typographic quote to normalise, is parsed by
    [JSON.parse] and coerced, when [maxDepth] is not negative: the result
    is the coercion of the parsed value, and the metadata records no fix
    and no markdown. *)
Theorem json_response_is_parsed_and_coerced : forall h rx response s options v,
  maxDepth_not_negative options ->
  hasChainOfThought rx response = false ->
  looksLikeJson (trim response) = true ->
  JSON_parse h (trim response) = Some v ->
  unicode_quotes_replaced rx response = response ->
  let r := parse h rx response s options in
  coerced_from h v s options r
  /\ raw (meta r) = response
  /\ meta_fixes (meta r) = None
  /\ meta_fromMarkdown (meta r) = None
  /\ chainOfThoughtFiltered (meta r) = false.
Proof.
  intros h rx response s options v Hm Hc Hl Hp Hq r. unfold r, parse, parseResponse.
  cbv zeta. rewrite Hc, andb_false_r.
  rewrite (@extractJson_direct h rx response _ true 0 v Hl Hp Hq)
    by (apply not_negative_0, Hm).
  unfold coerced_from. cbv zeta.
  cbn [p_value p_success p_errors p_isPartial meta meta_coercions raw meta_fixes
       meta_fromMarkdown chainOfThoughtFiltered ex_value fromMarkdown fixes].
  rewrite orb_false_r. repeat split.
Qed.

(** Unless [allowAsString] is switched off or [maxDepth] is negative,
    [parseResponse] never fails on the extraction: the extractor returns,
    and the result is the coercion of the value it returned, with the
    errors of that coercion and the metadata of the extraction. *)
Theorem parse_never_fails_to_extract : forall h rx response s options,
  allowAsString options <> Some false ->
  maxDepth_not_negative options ->
  exists extraction,
    parsed_as_extracted h rx response s options extraction (parse h rx response s options).
Proof.
  intros. apply parse_extracts; assumption.
Qed.

(** A text that is JSON, on its own and with plain quotes, is parsed by
    [JSON.parse]: no other strategy runs, nothing is fixed and nothing is
    marked as coming from markdown. *)
Theorem json_text_is_parsed_directly : forall h rx text options isDone depth v,
  looksLikeJson (trim text) = true ->
  JSON_parse h (trim text) = Some v ->
  unicode_quotes_replaced rx text = text ->
  depth_exceeded depth (p_maxDepth (spread_parse defaultExtractionOptions options)) = false ->
  extractJson h rx text options isDone depth
  = inr {| ex_value := v;
           ex_raw := text;
           fromMarkdown := None;
           fixes := None;
           ex_isPartial := Some (negb isDone) |}.
Proof.
  intros. apply extractJson_direct; assumption.
Qed.

(** ** Valid values are accepted *)

(** Induction on a schema: a property holds of every schema when it holds
    of a schema as soon as it holds of its sub-schemas. *)
Lemma schema_induction : forall P : schema -> Prop,
  (forall d k, Forall P (children k) -> P (Schema d k)) ->
  forall s, P s.
Proof.
  intros P H. fix IH 1. intros [d k]. apply H.
  destruct k; cbn [children]; try constructor.
  - apply Forall_app. split.
    + induction properties as [|[k0 s0] r IHr]; constructor; [apply IH | exact IHr].
    + destruct additionalProperties as [| |sub]; constructor; [apply IH | constructor].
  - apply IH.
  - constructor.
  - induction anyOf as [|s0 r IHr]; constructor; [apply IH | exact IHr].
  - induction allOf as [|s0 r IHr]; constructor; [apply IH | exact IHr].
  - apply IH.
  - constructor.
  - apply Forall_app. split.
    + induction patternProperties as [|[k0 s0] r IHr]; constructor; [apply IH | exact IHr].
    + destruct additionalProperties as [| |sub]; constructor; [apply IH | constructor].
  - apply Forall_app. split.
    + induction items as [|s0 r IHr]; constructor; [apply IH | exact IHr].
    + destruct additionalItems as [| |sub]; constructor; [apply IH | constructor].
Qed.

Lemma depth_exceeded_le : forall d d' limit,
  depth_exceeded d limit = false -> d' <= d -> depth_exceeded d' limit = false.
Proof.
  intros d d' [m|] H Hle; [|reflexivity]. cbn in *.
  apply Nat.ltb_ge. apply Nat.ltb_ge in H. lia.
Qed.

Lemma height_in_list_max : forall (l : list schema) sub,
  In sub l -> height sub <= list_max (map height l).
Proof.
  intros l sub Hin.
  assert (H : Forall (fun n => n <= list_max (map height l)) (map height l))
    by (apply list_max_le; reflexivity).
  rewrite Forall_forall in H. apply H. apply in_map, Hin.
Qed.

Lemma height_of_property : forall (l : list (string * schema)) q,
  In q l -> height (snd q) <= list_max (map (fun q => height (snd q)) l).
Proof.
  intros l q Hin.
  assert (H : Forall (fun n => n <= list_max (map (fun q => height (snd q)) l))
                (map (fun q => height (snd q)) l))
    by (apply list_max_le; reflexivity).
  rewrite Forall_forall in H. apply H.
  apply (in_map (fun q => height (snd q)) _ _ Hin).
Qed.

Section ValidValues.

Variable h : Host.
Variable opts : CoercionOptions.

(** The coercion of a value that is valid for [s], at a depth that leaves
    room for [s], makes no error. *)
Local Abbreviation accepted s :=
  (forall depth p v,
     valid_for h s v ->
     depth_exceeded (depth + height s) (maxDepth opts) = false ->
     errs (snd (coerceInternal h opts s depth p v)) = []).

Lemma coerceString_valid : forall minLength maxLength pattern str p,
  string_ok h minLength maxLength pattern str ->
  errs (snd (coerceString h (VStr str) minLength maxLength pattern p)) = [].
Proof.
  intros minLength maxLength pattern str p [Hmin [Hmax Hpat]]. unfold coerceString.
  repeat rewrite errs_bind. cbn [ret snd errs no_calls]. rewrite app_nil_r.
  rewrite !app_nil_iff. repeat split.
  - apply (errs_optional_check minLength
             (fun m => PrimFloat.ltb (Num.of_nat (String.length str)) m)
             (fun m => "String too short (min " ++ Number_toString h m ++ ")")
             (fun m => Some ("minLength " ++ Number_toString h m))).
    exact Hmin.
  - apply (errs_optional_check maxLength
             (fun m => PrimFloat.ltb m (Num.of_nat (String.length str)))
             (fun m => "String too long (max " ++ Number_toString h m ++ ")")
             (fun m => Some ("maxLength " ++ Number_toString h m))).
    exact Hmax.
  - destruct pattern as [pat|]; [|reflexivity]. apply errs_check. exact Hpat.
Qed.

Lemma coerceNumber_valid : forall n isInt c p,
  meets n c -> (isInt = true -> Num.isInteger n = true) ->
  errs (snd (coerceNumber h (VNum n) isInt c p)) = [].
Proof.
  intros n isInt c p Hm Hi. unfold coerceNumber.
  assert (E : isInt && negb (Num.isInteger n) = false).
  { destruct isInt; [|reflexivity]. rewrite Hi by reflexivity. reflexivity. }
  rewrite E. rewrite !errs_bind. cbn [ret fst snd errs no_calls app].
  rewrite app_nil_r. apply validateNumber_no_error, Hm.
Qed.

Lemma array_items_valid : forall (c : coercer) p depth l i,
  Forall (fun x => forall q, errs (snd (c (S depth) q x)) = []) l ->
  errs (snd (array_items c p depth i l)) = [].
Proof.
  intros c p depth l. induction l as [|x l IH]; intros i H; [reflexivity|].
  inversion H as [|x' l' Hx Hl]. subst x' l'.
  cbn [array_items]. rewrite !errs_bind. cbn [ret snd errs no_calls].
  rewrite Hx, IH by exact Hl. reflexivity.
Qed.

Lemma tuple_items_valid : forall p depth (items : list schema) elements i,
  Forall (fun sub => forall q x, valid_for h sub x ->
                     errs (snd (coerceInternal h opts sub (S depth) q x)) = []) items ->
  positions_valid (map (valid_for h) items) elements ->
  errs (snd (tuple_items p depth i
               (map (fun sub => (sub, coerceInternal h opts sub)) items) elements)) = [].
Proof.
  intros p depth items. induction items as [|s0 items IH]; intros elements i Hc Hv;
    [reflexivity|].
  inversion Hc as [|s' l' Hs Hl]. subst s' l'.
  destruct elements as [|x others]; [contradiction Hv|].
  cbn [map positions_valid] in Hv. destruct Hv as [Hx Hrest].
  cbn [map tuple_items]. rewrite !errs_bind. cbn [ret snd errs no_calls tl].
  rewrite (Hs _ _ Hx), (IH others (S i) Hl Hrest). reflexivity.
Qed.

Lemma record_entries_valid : forall (c : coercer) (ok : dynamic -> Prop) p depth entries result,
  (forall q x, ok x -> errs (snd (c (S depth) q x)) = []) ->
  Forall (fun e => ok (snd e)) entries ->
  errs (snd (record_entries c p depth entries result)) = [].
Proof.
  intros c ok p depth entries. induction entries as [|[k x] entries IH];
    intros result Hc Hv; [reflexivity|].
  inversion Hv as [|e l Hx Hl]. subst e l.
  cbn [record_entries]. rewrite errs_bind. rewrite (Hc _ _ Hx), (IH _ Hc Hl). reflexivity.
Qed.

Section ObjectValid.

Variable required : list string.
Variable p : string.
Variable depth : nat.
Variable fields : list (string * dynamic).

Lemma declared_fields_valid : forall (properties : list (string * schema)) result,
  Forall (fun q => forall path x, valid_for h (snd q) x ->
                   errs (snd (coerceInternal h opts (snd q) (S depth) path x)) = [])
         properties ->
  Forall (field_valid required fields)
         (map (fun q => (fst q, (snd q, valid_for h (snd q)))) properties) ->
  errs (snd (declared_fields opts required p depth fields
               (map (fun q => (fst q, (snd q, coerceInternal h opts (snd q)))) properties)
               result)) = [].
Proof.
  induction properties as [|[k0 s0] properties IH]; intros result Hc Hv; [reflexivity|].
  inversion Hc as [|q l Hq Hl]. subst q l.
  cbn [map] in Hv. inversion Hv as [|b l Hb Hbs]. subst b l.
  cbn [map fst snd declared_fields]. rewrite errs_bind, IH by assumption.
  rewrite app_nil_r. unfold field_valid in Hb. cbn [fst snd] in Hb, Hq.
  destruct (is_undefined (prop fields k0)).
  - destruct (truthy (useDefaults opts) && _); [reflexivity|].
    replace (negb (existsb (String.eqb k0) required) || isOptionalProperty s0) with true;
      [reflexivity|].
    destruct Hb as [Hb|Hb]; rewrite Hb; [reflexivity | apply eq_sym, orb_true_r].
  - rewrite errs_bind. cbn [ret snd errs no_calls]. rewrite app_nil_r. apply Hq, Hb.
Qed.

Lemma additional_fields_valid :
  forall (properties : list (string * schema)) (additionalProperties : additional schema)
         entries result,
    (forall sub, additionalProperties = AddlSchema sub ->
                 forall path x, valid_for h sub x ->
                 errs (snd (coerceInternal h opts sub (S depth) path x)) = []) ->
    (forall k v, In (k, v) entries -> In (k, v) fields) ->
    additional_valid (map fst properties)
      (additional_map (valid_for h) additionalProperties) fields ->
    errs (snd (additional_fields h
                 (map (fun q => (fst q, (snd q, coerceInternal h opts (snd q)))) properties)
                 (additional_map (coerceInternal h opts) additionalProperties)
                 p depth entries result)) = [].
Proof.
  intros properties additionalProperties entries.
  induction entries as [|[k x] entries IH]; intros result Hc Hin Hv; [reflexivity|].
  cbn [additional_fields]. rewrite errs_bind.
  rewrite IH by (try assumption; intros; apply Hin; right; assumption).
  rewrite app_nil_r.
  destruct (in_properties h _ k) eqn:Hk; cbn [negb]; [reflexivity|].
  destruct additionalProperties as [|[|]|sub]; cbn [additional_map]; try reflexivity.
  rewrite errs_bind. cbn [ret snd errs no_calls]. rewrite app_nil_r.
  apply (Hc sub eq_refl). cbn [additional_map additional_valid] in Hv.
  apply (Hv k x); [apply Hin; left; reflexivity|].
  unfold in_properties in Hk. apply orb_false_iff in Hk. destruct Hk as [Hk _].
  intro Hd. apply Bool.not_true_iff_false in Hk. apply Hk.
  apply has_In. rewrite keys_bound_properties. exact Hd.
Qed.

End ObjectValid.

Lemma valid_can_be_handled : forall s v,
  valid_for h s v -> is_nullish v = false -> canHandleValue v s = true.
Proof.
  intro s. induction s as [d k IH] using schema_induction. intros v Hv Hn.
  destruct k; cbn [canHandleValue]; try reflexivity; rewrite Hn;
    cbn [valid_for] in Hv; try reflexivity; try contradiction.
  - destruct Hv as [fields [-> _]]. reflexivity.
  - destruct Hv as [elements [-> _]]. reflexivity.
  - cbn [children] in IH. induction anyOf as [|a anyOf IHl]; cbn [map] in Hv.
    + inversion Hv.
    + inversion IH as [|a' l' Ha Hl]. subst a' l'. cbn [existsb].
      inversion Hv as [ok l Hok|ok l Hrest]; subst ok l.
      * rewrite (Ha v Hok Hn). reflexivity.
      * rewrite (IHl Hl Hrest). apply orb_true_r.
  - exact Hv.
  - exact Hv.
  - destruct Hv as [str [-> _]]. reflexivity.
  - destruct Hv as [n [-> _]]. reflexivity.
  - destruct Hv as [n [-> [Hi _]]]. exact Hi.
  - destruct Hv as [b ->]. reflexivity.
Qed.

Lemma valid_values_are_accepted : forall s, accepted s.
Proof.
  intro s. induction s as [d k IH] using schema_induction.
  intros depth p v Hv Hd. cbn [coerceInternal].
  rewrite (depth_exceeded_le _ Hd) by lia.
  destruct (is_nullish v) eqn:Hn.
  { unfold coerceNull. rewrite Hn. reflexivity. }
  assert (Hchild : forall sub, In sub (children k) ->
                   S (height sub) <= height (Schema d k) ->
                   forall q x, valid_for h sub x ->
                   errs (snd (coerceInternal h opts sub (S depth) q x)) = []).
  { intros sub Hin Hle q x Hx. rewrite Forall_forall in IH.
    apply (IH sub Hin (S depth) q x Hx).
    apply (depth_exceeded_le _ Hd). lia. }
  destruct k; cbn [valid_for] in Hv; cbn [children] in Hchild; try contradiction.
  - (* Object *)
    destruct Hv as [fields [-> [Hdecl Hadd]]]. unfold coerceObject, object_body.
    rewrite !errs_bind. cbn [ret snd errs no_calls]. rewrite app_nil_r. apply app_nil_iff.
    cbn [height] in Hchild. split.
    + apply (@declared_fields_valid required p depth fields properties []); [|exact Hdecl].
      apply Forall_forall. intros q Hq path x Hx. apply Hchild; [| |exact Hx].
      * apply in_or_app. left. apply in_map, Hq.
      * pose proof (height_of_property properties q Hq). lia.
    + apply (@additional_fields_valid p depth fields properties additionalProperties fields);
        [| auto |exact Hadd].
      intros sub -> path x Hx. apply Hchild; [| |exact Hx].
      * apply in_or_app. right. left. reflexivity.
      * lia.
  - (* Array *)
    destruct Hv as [elements [-> Hall]]. unfold coerceArray.
    rewrite errs_bind. cbn [ret snd errs no_calls]. rewrite app_nil_r.
    apply array_items_valid. eapply Forall_impl; [|exact Hall].
    intros x Hx q. apply Hchild; [left; reflexivity | cbn [height]; lia | exact Hx].
  - (* Union *)
    apply coerceUnion_admissible_no_error.
    clear Hchild Hd. induction anyOf as [|a anyOf IHl]; cbn [map] in Hv; [inversion Hv|].
    cbn [map existsb fst]. inversion IH as [|a' l' Ha Hl]. subst a' l'.
    inversion Hv as [ok l Hok|ok l Hrest]; subst ok l.
    + rewrite (valid_can_be_handled a v Hok Hn). reflexivity.
    + rewrite (IHl Hl Hrest). apply orb_true_r.
  - (* Optional *)
    unfold coerceOptional. rewrite Hn. destruct Hv as [Hv|Hv]; [congruence|].
    inversion IH as [|a' l' Ha _]. subst a' l'. apply (Ha depth p v Hv).
    exact Hd.
  - (* Literal *)
    unfold coerceLiteral. rewrite Hv. reflexivity.
  - (* Enum *)
    unfold coerceEnum. rewrite Hv. reflexivity.
  - (* String *)
    destruct Hv as [str [-> Hs]]. apply coerceString_valid, Hs.
  - (* Number *)
    destruct Hv as [n [-> Hm]]. apply coerceNumber_valid; [exact Hm | discriminate].
  - (* Integer *)
    destruct Hv as [n [-> [Hi Hm]]]. apply coerceNumber_valid; [exact Hm | intros _; exact Hi].
  - (* Boolean *)
    destruct Hv as [b ->]. reflexivity.
  - (* Null *)
    subst v. discriminate Hn.
  - (* Any *) reflexivity.
  - (* Unknown *) reflexivity.
  - (* Record *)
    destruct Hv as [entries [-> Hall]]. unfold coerceRecord.
    rewrite errs_bind. cbn [ret snd errs no_calls]. rewrite app_nil_r.
    cbn [height] in Hchild.
    destruct patternProperties as [|[k0 first] rest].
    + destruct additionalProperties as [|b|sub].
      * apply record_entries_valid with (ok := fun _ => True); [|exact Hall].
        intros q x _. unfold coerceAny.
        rewrite (depth_exceeded_le _ Hd) by (cbn [height]; lia).
        destruct (is_nullish x) eqn:Hx; [unfold coerceNull; rewrite Hx|]; reflexivity.
      * apply record_entries_valid with (ok := fun _ => True); [|exact Hall].
        intros q x _. unfold coerceAny.
        rewrite (depth_exceeded_le _ Hd) by (cbn [height]; lia).
        destruct (is_nullish x) eqn:Hx; [unfold coerceNull; rewrite Hx|]; reflexivity.
      * apply record_entries_valid with (ok := valid_for h sub); [|exact Hall].
        intros q x Hx. apply Hchild; [left; reflexivity | lia | exact Hx].
    + apply record_entries_valid with (ok := valid_for h first); [|exact Hall].
      intros q x Hx. apply Hchild; [left; reflexivity | lia | exact Hx].
  - (* Tuple *)
    destruct Hv as [elements [-> Hpos]]. unfold coerceTuple.
    rewrite errs_bind. cbn [ret snd errs no_calls]. rewrite app_nil_r.
    cbn [height] in Hchild.
    apply tuple_items_valid; [|exact Hpos].
    apply Forall_forall. intros sub Hin q x Hx. apply Hchild; [| |exact Hx].
    + apply in_or_app. left. exact Hin.
    + apply le_n_S, height_in_list_max, Hin.
Qed.

End ValidValues.

(** A plain value that is valid for a schema with plain properties is
    accepted: when the schema is not nested deeper than [maxDepth],
    [coerceValue] reports no error and succeeds, whatever the other
    options are. *)
Theorem valid_value_is_accepted : forall h s v o p,
  plain h v = true ->
  plain_properties h s = true ->
  valid_for h s v ->
  depth_exceeded (height s) (maxDepth (spread defaultOptions o)) = false ->
  errors (coerceValue h v s o p) = [] /\ success (coerceValue h v s o p) = true.
Proof.
  intros h s v o p _ _ Hv Hd.
  assert (E : errs (snd (coerceInternal h (spread defaultOptions o) s 0 p v)) = []).
  { apply valid_values_are_accepted; assumption. }
  unfold coerceValue. cbn [errors success]. rewrite E. split; reflexivity.
Qed.

(** The pre-filter of the union search never turns away an alternative
    the value is valid for: [canHandleValue] admits every schema for
    which the value, if it is not null or undefined, is valid. *)
Theorem prefilter_admits_valid_alternatives : forall h s v,
  valid_for h s v -> is_nullish v = false -> canHandleValue v s = true.
Proof.
  intros h s v. apply valid_can_be_handled.
Qed.

(** A person with a name, a list of tags and an age that may be null. *)
Lemma valid_value_is_accepted_witness :
  on_plain_host (fun h =>
    let s := Type_.Object
               [("name", Type_.String);
                ("tags", Type_.Array Type_.String);
                ("age", Type_.Union [Type_.Integer no_constraints; Type_.Null])]
               ["name"; "tags"] in
    let v := VObj [("name", VStr "Ann"); ("tags", VArr [VStr "a"; VStr "b"])] in
    plain h v = true
    /\ plain_properties h s = true
    /\ valid_for h s v
    /\ depth_exceeded (height s) (maxDepth (spread defaultOptions noOptions)) = false
    /\ errors (coerceValue h v s noOptions "") = []
    /\ success (coerceValue h v s noOptions "") = true).
Proof.
  unfold on_plain_host. cbv zeta.
  set (h := table_host []). set (s := Type_.Object _ _). set (v := VObj _).
  assert (Hv : valid_for h s v).
  { exists [("name", VStr "Ann"); ("tags", VArr [VStr "a"; VStr "b"])].
    split; [reflexivity|]. split; [|exact I].
    assert (Hs : forall str, valid_for h Type_.String (VStr str)).
    { intro str. exists str. split; [reflexivity|].
      repeat split; try discriminate. }
    repeat constructor.
    - apply Hs.
    - exists [VStr "a"; VStr "b"]. split; [reflexivity|].
      repeat constructor; apply Hs. }
  assert (Hd : depth_exceeded (height s) (maxDepth (spread defaultOptions noOptions)) = false)
    by reflexivity.
  split; [reflexivity|]. split; [reflexivity|]. split; [exact Hv|]. split; [exact Hd|].
  exact (@valid_value_is_accepted h s v noOptions "" eq_refl eq_refl Hv Hd).
Defined.

(** The number 30 is valid for the union of Integer and Null, and the
    pre-filter admits the union for it. *)
Lemma prefilter_admits_valid_alternatives_witness :
  for_every_host (fun h =>
    let s := Type_.Union [Type_.Null; Type_.Integer no_constraints] in
    valid_for h s (VNum 30)
    /\ is_nullish (VNum 30) = false
    /\ canHandleValue (VNum 30) s = true).
Proof.
  intro h. cbv zeta.
  assert (Hv : valid_for h (Type_.Union [Type_.Null; Type_.Integer no_constraints])
                 (VNum 30)).
  { apply Exists_cons_tl. apply Exists_cons_hd. exists 30%float.
    split; [reflexivity|]. split; [reflexivity|]. repeat split; discriminate. }
  split; [exact Hv|]. split; [reflexivity|].
  exact (@prefilter_admits_valid_alternatives h _ (VNum 30) Hv eq_refl).
Defined.

(** ** Instances *)

(** A string against a String schema succeeds and yields a string. *)
Lemma success_gives_the_shape_witness :
  for_every_host (fun h =>
    let k := KString None None None None in
    is_nullish (VStr "x") = false
    /\ success (coerceValue h (VStr "x") (Schema None k) noOptions "") = true
    /\ shape_of k (value_of (coerceValue h (VStr "x") (Schema None k) noOptions ""))).
Proof.
  intro h. cbv zeta. split; [reflexivity|]. split; [reflexivity|].
  exact (@success_gives_the_shape h None (KString None None None None) noOptions ""
           (VStr "x") eq_refl eq_refl).
Defined.


(** [true] against a String schema becomes a string, with no error. *)
Lemma string_target_stringifies_witness :
  for_every_host (fun h =>
    is_nullish (VBool true) = false
    /\ (forall s, VBool true <> VStr s)
    /\ errors (coerceValue h (VBool true) Type_.String noOptions "") = []).
Proof.
  intro h. split; [reflexivity|].
  assert (H : forall s, VBool true <> VStr s) by (intros s; discriminate).
  split; [exact H|].
  exact (proj1 (proj2 (@string_target_stringifies h None None None None None noOptions ""
                         (VBool true) eq_refl H))).
Defined.

(** A string against the union of Boolean and Number: no alternative is
    admitted, and Boolean is forced. *)
Lemma union_forces_the_first_alternative_witness :
  on_plain_host (fun h =>
    let rest := [Type_.Number no_constraints] in
    plain h (VStr "yes") = true
    /\ plain_properties h Type_.Boolean = true
    /\ is_nullish (VStr "yes") = false
    /\ existsb (canHandleValue (VStr "yes")) (Type_.Boolean :: rest) = false
    /\ value_of (coerceValue h (VStr "yes") (Type_.Union (Type_.Boolean :: rest)) noOptions "")
       = value_of (coerceValue h (VStr "yes") Type_.Boolean noOptions "")).
Proof.
  unfold on_plain_host. cbv zeta.
  split; [reflexivity|]. split; [reflexivity|]. split; [reflexivity|]. split; [reflexivity|].
  exact (proj1 (@union_forces_the_first_alternative (table_host []) None Type_.Boolean
                  [Type_.Number no_constraints] noOptions "" (VStr "yes")
                  eq_refl eq_refl eq_refl eq_refl)).
Defined.

(** The empty object against an object with the required field [name]. *)
Lemma missing_required_field_is_reported_witness :
  on_plain_host (fun h =>
    let r := coerceValue h (VObj []) (Type_.Object [("name", Type_.String)] ["name"])
               noOptions "" in
    Object_prototype_has h "name" = false
    /\ plain h (VObj []) = true
    /\ In ("name", Type_.String) [("name", Type_.String)]
    /\ In "name" ["name"]
    /\ isOptionalProperty Type_.String = false
    /\ is_undefined (prop [] "name") = true
    /\ truthy (allowPartials noOptions) = false
    /\ In (missing_field_error "" "name") (errors r) /\ success r = false).
Proof.
  unfold on_plain_host. cbv zeta.
  assert (H1 : In ("name", Type_.String) [("name", Type_.String)]) by (left; reflexivity).
  assert (H2 : In "name" ["name"]) by (left; reflexivity).
  split; [reflexivity|]. split; [reflexivity|].
  split; [exact H1|]. split; [exact H2|]. split; [reflexivity|]. split; [reflexivity|].
  split; [reflexivity|].
  exact (@missing_required_field_is_reported (table_host []) None [("name", Type_.String)]
           ["name"] AddlAbsent noOptions "" [] "name" Type_.String eq_refl eq_refl
           H1 H2 eq_refl eq_refl (or_introl eq_refl) eq_refl).
Defined.

(** An object with one property against an object schema that declares
    none and says nothing about additional properties. *)
Lemma open_object_keeps_every_key_witness :
  on_plain_host (fun h =>
    plain h (VObj [("a", VNum 1)]) = true
    /\ (AddlAbsent : additional schema) <> AddlBool false
    /\ In "a" (map fst [("a", VNum 1)])
    /\ is_undefined (prop [("a", VNum 1)] "a") = false
    /\ exists result,
         value_of (coerceValue h (VObj [("a", VNum 1)]) (Type_.Object [] []) noOptions "")
         = VObj result
         /\ In "a" (map fst result)).
Proof.
  unfold on_plain_host.
  assert (H1 : (AddlAbsent : additional schema) <> AddlBool false) by discriminate.
  assert (H2 : In "a" (map fst [("a", VNum 1)])) by (left; reflexivity).
  split; [reflexivity|]. split; [exact H1|]. split; [exact H2|]. split; [reflexivity|].
  exact (@open_object_keeps_every_key (table_host []) None [] [] AddlAbsent noOptions ""
           [("a", VNum 1)] "a" eq_refl H1 H2 eq_refl).
Defined.

(** The same object: the undeclared property keeps its value. *)
Lemma undeclared_property_passes_through_witness :
  on_plain_host (fun h =>
    plain h (VObj [("a", VNum 1)]) = true
    /\ NoDup (map fst [("a", VNum 1)])
    /\ In "a" (map fst [("a", VNum 1)])
    /\ ~ In "a" (map fst (@nil (string * schema)))
    /\ exists result,
         value_of (coerceValue h (VObj [("a", VNum 1)]) (Type_.Object [] []) noOptions "")
         = VObj result
         /\ prop result "a" = prop [("a", VNum 1)] "a").
Proof.
  unfold on_plain_host.
  assert (H1 : NoDup (map fst [("a", VNum 1)])).
  { constructor; [intros [] | constructor]. }
  assert (H2 : In "a" (map fst [("a", VNum 1)])) by (left; reflexivity).
  assert (H3 : ~ In "a" (map fst (@nil (string * schema)))) by (intros []).
  split; [reflexivity|]. split; [exact H1|]. split; [exact H2|]. split; [exact H3|].
  exact (@undeclared_property_passes_through (table_host []) None [] [] AddlAbsent
           noOptions "" [("a", VNum 1)] "a" eq_refl (or_introl eq_refl) H1 H2 H3).
Defined.

(** A pair of a number in a string and a boolean, with one element more,
    against the tuple of a Number and a Boolean. *)
Lemma tuple_target_keeps_the_extras_witness :
  on_plain_host (fun h =>
    let items := [Type_.Number no_constraints; Type_.Boolean] in
    let elements := [VStr "1"; VBool true; VStr "more"] in
    plain h (VArr elements) = true
    /\ plain_properties h (Schema None (KTuple items AddlAbsent)) = true
    /\ exists head,
         value_of (coerceValue h (VArr elements) (Schema None (KTuple items AddlAbsent))
                     noOptions "")
         = VArr (head ++ [VStr "more"])
         /\ List.length head = 2).
Proof.
  unfold on_plain_host. cbv zeta. split; [reflexivity|]. split; [reflexivity|].
  destruct (@tuple_target_keeps_the_extras (table_host []) None
              [Type_.Number no_constraints; Type_.Boolean] AddlAbsent noOptions ""
              [VStr "1"; VBool true; VStr "more"] eq_refl eq_refl)
    as [head [E [Hl _]]].
  exists head. split; [exact E | exact Hl].
Defined.

(** An object with two properties against a Record of numbers. *)
Lemma record_keeps_the_keys_witness :
  on_plain_host (fun h =>
    plain h (VObj [("a", VNum 1); ("b", VStr "x")]) = true
    /\ exists result,
         value_of (coerceValue h (VObj [("a", VNum 1); ("b", VStr "x")])
                     (Schema None (KRecord [("^.*$", Type_.Number no_constraints)]
                                     AddlAbsent))
                     noOptions "")
         = VObj result
         /\ forall k, In k (map fst result)
                      <-> In k (map fst [("a", VNum 1); ("b", VStr "x")])).
Proof.
  unfold on_plain_host. split; [reflexivity|].
  exact (@record_keeps_the_keys (table_host []) None
           [("^.*$", Type_.Number no_constraints)] AddlAbsent noOptions ""
           [("a", VNum 1); ("b", VStr "x")] eq_refl).
Defined.


(** The empty object against an object whose property [n] has the
    default 1. *)
Lemma missing_property_takes_its_default_witness :
  on_plain_host (fun h =>
    let n := Schema (Some (VNum 1)) (KNumber no_constraints) in
    Object_prototype_has h "n" = false
    /\ plain h (VObj []) = true
    /\ In ("n", n) [("n", n)]
    /\ NoDup (map fst [("n", n)])
    /\ is_undefined (prop [] "n") = true
    /\ is_undefined (default_of n) = false
    /\ useDefaults noOptions <> Some false
    /\ exists result,
         value_of (coerceValue h (VObj []) (Type_.Object [("n", n)] ["n"]) noOptions "")
         = VObj result
         /\ prop result "n" = VNum 1).
Proof.
  unfold on_plain_host. cbv zeta.
  set (n := Schema (Some (VNum 1)) (KNumber no_constraints)).
  assert (H1 : In ("n", n) [("n", n)]) by (left; reflexivity).
  assert (H2 : NoDup (map fst [("n", n)])).
  { constructor; [intros [] | constructor]. }
  assert (H3 : useDefaults noOptions <> Some false) by discriminate.
  split; [reflexivity|]. split; [reflexivity|].
  split; [exact H1|]. split; [exact H2|]. split; [reflexivity|]. split; [reflexivity|].
  split; [exact H3|].
  exact (@missing_property_takes_its_default (table_host []) None [("n", n)] ["n"]
           AddlAbsent noOptions "" [] "n" n eq_refl eq_refl H1 H2 eq_refl eq_refl H3).
Defined.

(** A text whose quotes the normalisation changes. *)
Lemma normalisation_is_recorded_witness :
  for_every_host (fun h =>
    let rx := silent_regexps (fun _ => "{}") in
    normalizeUnicodeQuotes noParseOptions <> Some false
    /\ unicode_quotes_replaced rx "x" <> "x"
    /\ match extractJson h rx "x" noParseOptions true 0 with
       | inr r =>
           exists applied, fixes r = Some applied
                           /\ In "normalized_unicode_quotes" applied /\ NoDup applied
       | inl _ => True
       end).
Proof.
  intro h. cbv zeta.
  assert (H1 : normalizeUnicodeQuotes noParseOptions <> Some false) by discriminate.
  assert (H2 : unicode_quotes_replaced (silent_regexps (fun _ => "{}")) "x" <> "x")
    by discriminate.
  split; [exact H1|]. split; [exact H2|].
  exact (@normalisation_is_recorded h (silent_regexps (fun _ => "{}")) "x" noParseOptions
           true 0 H1 H2).
Defined.

(** The text of the empty object, with spaces around it. *)
Lemma json_text_is_parsed_directly_witness :
  looksLikeJson (trim " {} ") = true
  /\ JSON_parse (table_host [("{}", VObj [])]) (trim " {} ") = Some (VObj [])
  /\ ex_value_of (extractJson (table_host [("{}", VObj [])]) (silent_regexps (fun s => s))
                    " {} " noParseOptions true 0)
     = Some (VObj []).
Proof.
  split; [reflexivity|]. split; [reflexivity|].
  rewrite (@json_text_is_parsed_directly (table_host [("{}", VObj [])])
             (silent_regexps (fun s => s)) " {} " noParseOptions true 0 (VObj [])
             eq_refl eq_refl eq_refl eq_refl).
  reflexivity.
Defined.

(** Any response under the default options. *)
Lemma parse_never_fails_to_extract_witness :
  for_every_host (fun h =>
    allowAsString noParseOptions <> Some false
    /\ maxDepth_not_negative noParseOptions
    /\ exists extraction,
         parsed_as_extracted h (silent_regexps (fun s => s)) "hello" Type_.String
           noParseOptions extraction
           (parse h (silent_regexps (fun s => s)) "hello" Type_.String noParseOptions)).
Proof.
  intro h.
  assert (H : allowAsString noParseOptions <> Some false) by discriminate.
  assert (Hm : maxDepth_not_negative noParseOptions) by (intros m E; discriminate E).
  split; [exact H|]. split; [exact Hm|].
  exact (@parse_never_fails_to_extract h (silent_regexps (fun s => s)) "hello"
           Type_.String noParseOptions H Hm).
Defined.

(** Any response, with [allowAsString] switched off and a depth limit of
    three levels. *)
Lemma parsePartialResponse_never_fails_to_extract_witness :
  for_every_host (fun h =>
    let options :=
      {| allowMarkdownJson := None; allowFixes := None; allowAsString := Some false;
         findAllJsonObjects := None; normalizeUnicodeQuotes := None;
         p_maxDepth := Some 3%Z; p_allowPartials := None; p_useDefaults := None;
         p_strict := None; p_trackCoercions := None; filterChainOfThought_opt := None;
         returnAllCandidates := None |} in
    let rx := silent_regexps (fun s => s) in
    let r := parsePartialResponse h (extractJson h rx) (hasChainOfThought rx)
               (filterChainOfThought rx) "hello" Type_.String options in
    maxDepth_not_negative options
    /\ exists extraction,
         parsed_as_extracted h rx "hello" Type_.String
           (force_partial (spread_parse defaultParseOptions options)) extraction r
         /\ p_isPartial r = negb (isComplete h (ex_value extraction) Type_.String)).
Proof.
  intro h. cbv zeta.
  set (options := Build_ParseOptions _ _ _ _ _ _ _ _ _ _ _ _).
  assert (Hm : maxDepth_not_negative options).
  { intros m E. inversion E. lia. }
  split; [exact Hm|].
  exact (@parsePartialResponse_never_fails_to_extract h (silent_regexps (fun s => s))
           "hello" Type_.String options Hm).
Defined.

(** The empty object as a response, against the empty object schema. *)
Lemma json_response_is_parsed_and_coerced_witness :
  maxDepth_not_negative noParseOptions
  /\ hasChainOfThought (silent_regexps (fun s => s)) "{}" = false
  /\ looksLikeJson (trim "{}") = true
  /\ JSON_parse (table_host [("{}", VObj [])]) (trim "{}") = Some (VObj [])
  /\ coerced_from (table_host [("{}", VObj [])]) (VObj []) (Type_.Object [] [])
       noParseOptions
       (parse (table_host [("{}", VObj [])]) (silent_regexps (fun s => s)) "{}"
          (Type_.Object [] []) noParseOptions).
Proof.
  assert (Hm : maxDepth_not_negative noParseOptions) by (intros m E; discriminate E).
  split; [exact Hm|]. split; [reflexivity|]. split; [reflexivity|]. split; [reflexivity|].
  exact (proj1 (@json_response_is_parsed_and_coerced (table_host [("{}", VObj [])])
                  (silent_regexps (fun s => s)) "{}" (Type_.Object [] []) noParseOptions
                  (VObj []) Hm eq_refl eq_refl eq_refl eq_refl)).
Defined.
